(** * Traffic signal controller: a shallow embedding of
      [src/signals/signal_controller.py] and the properties of its
      signal-state coordination core.

    The controller keeps one [SignalState] record per signal id in the
    dictionary [signal_states], mirrors every change to Redis, and is driven
    by request handlers ([emergency_override], [restore_normal_operation],
    [update_timing], [coordinate_green_corridor]) and by the monitor loop
    ([_monitor_signals], [_transition_to_next_state]).

    Modelling decisions.
    - The dictionary is an insertion-ordered association list, as a Python
      [dict] is: assignment to a present key keeps its position, assignment
      to a new key appends.
    - A naive [datetime] is the number of microseconds since
      0001-01-01T00:00:00, a [timedelta] a number of microseconds; both are
      range checked where Python range checks them ([OverflowError]).
    - [datetime.utcnow()] and the Redis server are the environment: the n-th
      clock reading and the fate of the n-th Redis command are given by the
      oracles of [Env]; the world counts how many of each were consumed.
    - Every method is a computation in a state-and-exception monad: a raised
      exception keeps the mutations made before it, as in Python.  Calls are
      atomic: the monitor thread and the request handlers are interleaved
      call by call.
    - The JSON documents sent to Redis are kept as structured values, and
      Redis itself is the trace of the commands it accepted.
    - [timedelta.total_seconds()] is a float in the source; the embedding
      keeps the exact number of microseconds, and compares it with an integer
      number of seconds exactly.
    - The [logging] calls are not part of the model. *)

From Stdlib Require Import ZArith List String Bool Lia DecimalString Sorted.
Import ListNotations.
Local Open Scope string_scope.
Local Open Scope Z_scope.

(** ** Python dictionaries with string keys *)

Module PyDict.
Section Dict.
Context {V : Type}.

Definition dict := list (string * V).

(** [d.get(k)] *)
Fixpoint get (k : string) (d : dict) : option V :=
  match d with
  | [] => None
  | (k', v) :: d' => if String.eqb k k' then Some v else get k d'
  end.

(** [k in d] *)
Definition mem (k : string) (d : dict) : bool :=
  match get k d with Some _ => true | None => false end.

(** [d[k] = v] *)
Fixpoint set (k : string) (v : V) (d : dict) : dict :=
  match d with
  | [] => [(k, v)]
  | (k', v') :: d' =>
      if String.eqb k k' then (k, v) :: d' else (k', v') :: set k v d'
  end.

Lemma get_set_same k v d : get k (set k v d) = Some v.
Proof.
  induction d as [|[k' v'] d IH]; simpl.
  - now rewrite String.eqb_refl.
  - destruct (String.eqb k k') eqn:E; simpl.
    + now rewrite String.eqb_refl.
    + now rewrite E.
Qed.

Lemma get_set_other k k' v d : k' <> k -> get k' (set k v d) = get k' d.
Proof.
  intros N. induction d as [|[k0 v0] d IH]; simpl.
  - apply String.eqb_neq in N. now rewrite N.
  - destruct (String.eqb k k0) eqn:E; simpl.
    + apply String.eqb_eq in E. subst k0.
      apply String.eqb_neq in N. now rewrite N.
    + now rewrite IH.
Qed.

Lemma get_set k k' v d :
  get k' (set k v d) = if String.eqb k' k then Some v else get k' d.
Proof.
  destruct (String.eqb_spec k' k) as [->|N].
  - apply get_set_same.
  - now apply get_set_other.
Qed.

Lemma set_set k v v' d : set k v (set k v' d) = set k v d.
Proof.
  induction d as [|[k0 v0] d IH]; simpl.
  - now rewrite String.eqb_refl.
  - destruct (String.eqb k k0) eqn:E; simpl.
    + now rewrite String.eqb_refl.
    + now rewrite E, IH.
Qed.

Lemma mem_set k k' v d :
  mem k' (set k v d) = String.eqb k' k || mem k' d.
Proof.
  unfold mem. rewrite get_set. now destruct (String.eqb k' k).
Qed.

(** Assigning the value a key already has leaves the dictionary as it is. *)
Lemma set_get_id k v d : get k d = Some v -> set k v d = d.
Proof.
  induction d as [|[k' v'] d IH]; simpl; [discriminate|].
  destruct (String.eqb_spec k k') as [->|N]; intros H.
  - now inversion H.
  - now rewrite IH.
Qed.
End Dict.
Arguments dict V : clear implicits.
End PyDict.

(** ** Exceptions and [datetime] arithmetic *)

Inductive exn : Type :=
| OverflowError       (* datetime / timedelta out of range *)
| RedisError          (* any exception raised by the Redis client *)
| TypeError           (* SignalTiming built from a dict with foreign keys *)
| UnboundLocalError   (* a local variable read before assignment *)
| KeyError.           (* d[k] with k absent *)

Inductive Result (A : Type) : Type :=
| Ok (a : A)
| Raise (e : exn).
Arguments Ok {A} a.
Arguments Raise {A} e.

Module PyTime.
Definition datetime := Z.
Definition timedelta := Z.

Definition US_PER_SECOND : Z := 1000000.
Definition SECONDS_PER_DAY : Z := 86400.
(** [datetime.max] is the last microsecond of 9999-12-31, whose proleptic
    Gregorian ordinal is 3652059. *)
Definition MAXORDINAL : Z := 3652059.
Definition DATETIME_END : Z := MAXORDINAL * SECONDS_PER_DAY * US_PER_SECOND.
(** [timedelta.max.days] *)
Definition MAX_DELTA_DAYS : Z := 999999999.
(** 1970-01-01T00:00:00, ordinal 719163. *)
Definition UNIX_EPOCH : datetime := 719162 * SECONDS_PER_DAY * US_PER_SECOND.

(** [timedelta(seconds=s)] for an int [s]: the days are [s // 86400] and
    must not exceed [timedelta.max.days] in magnitude. *)
Definition timedelta_of_seconds (s : Z) : Result timedelta :=
  if Z.abs (s / SECONDS_PER_DAY) <=? MAX_DELTA_DAYS
  then Ok (s * US_PER_SECOND) else Raise OverflowError.

(** [t + d]: the sum must be a date of the years 1 to 9999. *)
Definition datetime_add (t : datetime) (d : timedelta) : Result datetime :=
  if (0 <=? t + d) && (t + d <? DATETIME_END)
  then Ok (t + d) else Raise OverflowError.

(** [t1 - t2] *)
Definition datetime_sub (t1 t2 : datetime) : timedelta := t1 - t2.

(** [d.total_seconds() >= n] for an int [n], compared exactly. *)
Definition seconds_geb (d : timedelta) (n : Z) : bool :=
  n * US_PER_SECOND <=? d.

(** [int(t.timestamp())] with the process running in UTC: [int] truncates
    towards zero. *)
Definition timestamp_int (t : datetime) : Z :=
  Z.quot (t - UNIX_EPOCH) US_PER_SECOND.
End PyTime.
Import PyTime.

(** ** Data model *)

(** Values a JSON request body can hold for a timing field.  [bool] is a
    subclass of [int] in Python: [True] is the integer 1 and [False] is 0. *)
Inductive pyval : Type :=
| PyInt (z : Z)
| PyBool (b : bool)
| PyStr (s : string)
| PyNone
| PyOther (repr : string).   (* float, list, dict: not instances of int *)

(** [v] when [isinstance(v, int)] *)
Definition as_int (v : pyval) : option Z :=
  match v with
  | PyInt z => Some z
  | PyBool b => Some (if b then 1 else 0)
  | _ => None
  end.

(** [@dataclass SignalTiming] with its defaults. *)
Record SignalTiming : Type := mkSignalTiming {
  red_duration : Z;
  yellow_duration : Z;
  green_duration : Z;
  cycle_time : Z
}.

Definition default_timing : SignalTiming := mkSignalTiming 45 5 30 80.

(** The two shapes of dictionary the field [normal_timing] is given: the
    [asdict] of a [SignalTiming], and the snapshot [emergency_override]
    takes, with keys state, remaining_time and state_start_time (the latter
    an ISO string in the source, kept as the datetime it renders). *)
Inductive NormalTiming : Type :=
| timing_profile (t : SignalTiming)
| phase_snapshot (state : string) (remaining : Z) (start : datetime).

Definition asdict (t : SignalTiming) : NormalTiming := timing_profile t.

(** [@dataclass SignalState]; [normal_timing] is [None] by default. *)
Record SignalState : Type := mkSignalState {
  signal_id : string;
  current_state : string;
  state_start_time : datetime;
  remaining_time : Z;
  is_emergency_override : bool;
  override_reason : string;
  normal_timing : option NormalTiming
}.

Definition with_normal_timing (s : SignalState) (nt : option NormalTiming)
  : SignalState :=
  mkSignalState (signal_id s) (current_state s) (state_start_time s)
    (remaining_time s) (is_emergency_override s) (override_reason s) nt.

(** The text of an error reported to the caller: a literal message, or
    [str(e)] of a caught exception. *)
Inductive ErrorMsg : Type :=
| Message (s : string)
| StrOfExn (e : exn).

(** One entry of the coordination plan. *)
Record PlanEntry : Type := mkPlanEntry {
  plan_signal_id : string;
  green_start_time : datetime;
  plan_green_duration : Z;
  delay_from_start : Z
}.

(** The dictionaries the methods return. *)
Inductive Reply : Type :=
| OverrideReply (id new_state : string) (duration : Z) (reason : string)
    (override_start_time estimated_end_time : datetime)
| RestoreReply (id new_state : string) (restoration_time : datetime)
| TimingReply (id : string) (new_timing : SignalTiming) (update_time : datetime)
| ScheduleReply (id : string) (scheduled_time : datetime) (duration : Z)
    (schedule_id : string)
| CorridorReply (ok : bool) (coordination_id : string)
    (route_signals : list string) (coordination_plan : list PlanEntry)
    (successful_coordinates : list string)
    (failed_coordinates : list (string * ErrorMsg))
    (start_time estimated_end_time : datetime) (total_duration : Z)
| ErrorReply (error : ErrorMsg) (id : option string).

(** [r.get('success')] as a truth value *)
Definition success (r : Reply) : bool :=
  match r with
  | CorridorReply ok _ _ _ _ _ _ _ _ => ok
  | ErrorReply _ _ => false
  | _ => true
  end.

(** [r.get('error', 'Unknown error')] *)
Definition error_of (r : Reply) : ErrorMsg :=
  match r with
  | ErrorReply e _ => e
  | _ => Message "Unknown error"
  end.

(** What is sent to Redis.  The JSON documents are kept structured. *)
Inductive EventData : Type :=
| EvOverride (duration : Z) (reason previous_state : string)
| EvRestored (override_duration : timedelta)
| EvTimingUpdated (timing_config : PyDict.dict pyval)
| EvCorridor (route_signals : list string) (duration : Z)
    (successful_signals : list string)
    (failed_signals : list (string * ErrorMsg)).

Inductive Payload : Type :=
| StateData (s : SignalState) (last_updated : datetime)
| LogEntry (id event_type : string) (event_data : EventData)
    (timestamp : datetime)
| ScheduleData (id : string) (start_time : datetime) (duration : Z)
    (reason : string).

Inductive RedisCmd : Type :=
| SETEX (key : string) (ttl : Z) (value : Payload)
| LPUSH (key : string) (value : Payload)
| LTRIM (key : string) (start stop : Z)
| EXPIRE (key : string) (ttl : Z).

(** The environment: the clock, the Redis server, and the settings read from
    the process environment when the controller is built. *)
Record Env : Type := mkEnv {
  utcnow_at : nat -> datetime;
  redis_up : nat -> bool;
  emergency_override_duration : Z;
  default_green_duration : Z;
  default_red_duration : Z
}.

(** The controller's mutable state and what it has consumed and emitted. *)
Record World : Type := mkWorld {
  signal_states : PyDict.dict SignalState;
  redis_trace : list RedisCmd;     (* commands the server accepted *)
  clock_reads : nat;
  redis_calls : nat
}.

(** ** The monad of methods *)

Definition M (A : Type) : Type := World -> Result A * World.

Definition ret {A} (a : A) : M A := fun w => (Ok a, w).

Definition bind {A B} (m : M A) (k : A -> M B) : M B :=
  fun w =>
    match m w with
    | (Ok a, w') => k a w'
    | (Raise e, w') => (Raise e, w')
    end.

Definition raise {A} (e : exn) : M A := fun w => (Raise e, w).

Definition lift {A} (r : Result A) : M A := fun w => (r, w).

(** [try: m  except Exception as e: h e] *)
Definition try_except {A} (m : M A) (h : exn -> M A) : M A :=
  fun w =>
    match m w with
    | (Ok a, w') => (Ok a, w')
    | (Raise e, w') => h e w'
    end.

Declare Scope py_scope.
Delimit Scope py_scope with py.
Notation "x <- m ;; k" := (bind m (fun x => k))
  (at level 61, m at next level, right associativity) : py_scope.
Notation "m ;; k" := (bind m (fun _ => k))
  (at level 61, right associativity) : py_scope.
Local Open Scope py_scope.

(** The value and the world a computation ends with. *)
Definition value_of {A} (r : Result A * World) : Result A := fst r.
Definition world_of {A} (r : Result A * World) : World := snd r.

Definition get_states : M (PyDict.dict SignalState) :=
  fun w => (Ok (signal_states w), w).

(** [self.signal_states[id]] *)
Definition getitem (id : string) : M SignalState :=
  fun w =>
    match PyDict.get id (signal_states w) with
    | Some s => (Ok s, w)
    | None => (Raise KeyError, w)
    end.

(** [self.signal_states[id] = s], also an assignment to a field of the
    record the dictionary holds under [id]. *)
Definition setitem (id : string) (s : SignalState) : M unit :=
  fun w =>
    (Ok tt, mkWorld (PyDict.set id s (signal_states w)) (redis_trace w)
              (clock_reads w) (redis_calls w)).

(** ** The methods of [SignalController] *)

Definition str_of_nat (n : nat) : string :=
  NilZero.string_of_uint (Nat.to_uint n).
Definition str_of_Z (z : Z) : string :=
  NilZero.string_of_int (Z.to_int z).

Section Controller.
Variable E : Env.

(** [datetime.utcnow()] *)
Definition utcnow : M datetime :=
  fun w =>
    (Ok (utcnow_at E (clock_reads w)),
     mkWorld (signal_states w) (redis_trace w) (S (clock_reads w))
       (redis_calls w)).

(** One command sent through [self.redis_client]: it is accepted, or the
    client raises. *)
Definition redis_call (c : RedisCmd) : M unit :=
  fun w =>
    if redis_up E (redis_calls w)
    then (Ok tt, mkWorld (signal_states w) (redis_trace w ++ [c])
                   (clock_reads w) (S (redis_calls w)))
    else (Raise RedisError, mkWorld (signal_states w) (redis_trace w)
                              (clock_reads w) (S (redis_calls w))).

Definition _update_redis_state (id : string) : M unit :=
  try_except
    (states <- get_states ;;
     match PyDict.get id states with
     | Some state =>
         last_updated <- utcnow ;;
         redis_call (SETEX ("signal_state:" ++ id) 3600
                       (StateData state last_updated))
     | None => ret tt
     end)
    (fun _ => ret tt).

Definition _log_signal_event (id event_type : string) (data : EventData)
  : M unit :=
  try_except
    (timestamp <- utcnow ;;
     let redis_key := "signal_events:" ++ id in
     redis_call (LPUSH redis_key (LogEntry id event_type data timestamp)) ;;
     redis_call (LTRIM redis_key 0 99) ;;
     redis_call (EXPIRE redis_key 86400))
    (fun _ => ret tt).

Definition _create_signal_if_not_exists (id : string) : M unit :=
  states <- get_states ;;
  if PyDict.mem id states then ret tt
  else
    now <- utcnow ;;
    setitem id (mkSignalState id "red" now (default_red_duration E) false ""
                  (Some (asdict default_timing))) ;;
    _update_redis_state id.

Definition emergency_override (id : string) (duration : option Z)
    (reason : string) : M Reply :=
  try_except
    (let duration :=
       match duration with
       | None => emergency_override_duration E
       | Some d => d
       end in
     _create_signal_if_not_exists id ;;
     current <- getitem id ;;
     current <-
       (if negb (is_emergency_override current) then
          let current' :=
            with_normal_timing current
              (Some (phase_snapshot (current_state current)
                       (remaining_time current) (state_start_time current)))
          in
          setitem id current' ;; ret current'
        else ret current) ;;
     now <- utcnow ;;
     setitem id (mkSignalState id "green" now duration true reason
                   (normal_timing current)) ;;
     _update_redis_state id ;;
     _log_signal_event id "emergency_override"
       (EvOverride duration reason (current_state current)) ;;
     override_start_time <- utcnow ;;
     t <- utcnow ;;
     d <- lift (timedelta_of_seconds duration) ;;
     estimated_end_time <- lift (datetime_add t d) ;;
     ret (OverrideReply id "green" duration reason override_start_time
            estimated_end_time))
    (fun e => ret (ErrorReply (StrOfExn e) (Some id))).

Definition restore_normal_operation (id : string) : M Reply :=
  try_except
    (states <- get_states ;;
     if negb (PyDict.mem id states)
     then ret (ErrorReply (Message "Signal not found") None)
     else
       current <- getitem id ;;
       if negb (is_emergency_override current)
       then ret (ErrorReply (Message "Signal is not in emergency override")
                   None)
       else
         override_duration <-
           match normal_timing current with
           | Some _ =>
               t <- utcnow ;;
               let override_duration :=
                 datetime_sub t (state_start_time current) in
               now <- utcnow ;;
               setitem id (mkSignalState id "yellow" now
                             (yellow_duration default_timing)
                             false "" None) ;;
               ret (Some override_duration)
           | None =>
               now <- utcnow ;;
               setitem id (mkSignalState id "red" now
                             (default_red_duration E) false "" None) ;;
               ret None
           end ;;
         _update_redis_state id ;;
         override_duration <-
           match override_duration with
           | Some d => ret d
           | None => raise UnboundLocalError
           end ;;
         _log_signal_event id "normal_operation_restored"
           (EvRestored override_duration) ;;
         restored <- getitem id ;;
         restoration_time <- utcnow ;;
         ret (RestoreReply id (current_state restored) restoration_time))
    (fun e => ret (ErrorReply (StrOfExn e) None)).

Definition required_fields : list string :=
  ["red_duration"; "yellow_duration"; "green_duration"].

(** The validation loop of [update_timing]: the error it returns at the
    first offending field, if any. *)
Fixpoint validate_fields (fields : list string)
    (timing_config : PyDict.dict pyval) : option ErrorMsg :=
  match fields with
  | [] => None
  | field :: rest =>
      match PyDict.get field timing_config with
      | None => Some (Message ("Missing required field: " ++ field))
      | Some v =>
          match as_int v with
          | Some z =>
              if z <=? 0
              then Some (Message ("Invalid value for " ++ field))
              else validate_fields rest timing_config
          | None => Some (Message ("Invalid value for " ++ field))
          end
      end
  end.

(** [timing_config[field]], used as a number *)
Definition field_value (timing_config : PyDict.dict pyval) (field : string)
  : Result Z :=
  match PyDict.get field timing_config with
  | None => Raise KeyError
  | Some v =>
      match as_int v with
      | Some z => Ok z
      | None => Raise TypeError
      end
  end.

Definition update_timing (id : string) (timing_config : PyDict.dict pyval)
  : M Reply :=
  try_except
    (_create_signal_if_not_exists id ;;
     match validate_fields required_fields timing_config with
     | Some err => ret (ErrorReply err None)
     | None =>
         r <- lift (field_value timing_config "red_duration") ;;
         y <- lift (field_value timing_config "yellow_duration") ;;
         g <- lift (field_value timing_config "green_duration") ;;
         let new_timing := mkSignalTiming r y g (r + y + g) in
         current <- getitem id ;;
         setitem id (with_normal_timing current (Some (asdict new_timing))) ;;
         _update_redis_state id ;;
         _log_signal_event id "timing_updated"
           (EvTimingUpdated timing_config) ;;
         update_time <- utcnow ;;
         ret (TimingReply id new_timing update_time)
     end)
    (fun e => ret (ErrorReply (StrOfExn e) None)).

Definition _schedule_signal_override (id : string) (start_time : datetime)
    (duration : Z) (reason : string) : M Reply :=
  try_except
    (let schedule_key :=
       "scheduled_override:" ++ id ++ ":"
       ++ str_of_Z (timestamp_int start_time) in
     redis_call (SETEX schedule_key (duration + 300)
                   (ScheduleData id start_time duration reason)) ;;
     ret (ScheduleReply id start_time duration schedule_key))
    (fun e => ret (ErrorReply (StrOfExn e) None)).

(** The first loop of [coordinate_green_corridor], from index [i] on. *)
Fixpoint build_plan (start_time : datetime) (signal_interval duration : Z)
    (i : Z) (route : list string) : M (list PlanEntry) :=
  match route with
  | [] => ret []
  | id :: rest =>
      _create_signal_if_not_exists id ;;
      let green_start_delay := i * signal_interval in
      d <- lift (timedelta_of_seconds green_start_delay) ;;
      green_start <- lift (datetime_add start_time d) ;;
      let green := Z.min 60 (duration - green_start_delay) in
      plan <- build_plan start_time signal_interval duration (i + 1) rest ;;
      ret (if 0 <? green
           then mkPlanEntry id green_start green green_start_delay :: plan
           else plan)
  end.

(** The second loop: the ids that were coordinated, and those that were
    not with their errors. *)
Fixpoint execute_plan (n : nat) (plan : list PlanEntry)
  : M (list string * list (string * ErrorMsg)) :=
  match plan with
  | [] => ret ([], [])
  | p :: rest =>
      result <-
        (if delay_from_start p =? 0
         then emergency_override (plan_signal_id p)
                (Some (plan_green_duration p))
                ("Green corridor coordination - Signal 1 of "
                 ++ str_of_nat n)
         else _schedule_signal_override (plan_signal_id p)
                (green_start_time p) (plan_green_duration p)
                "Green corridor coordination - Scheduled override") ;;
      r <- execute_plan n rest ;;
      ret (if success result
           then (plan_signal_id p :: fst r, snd r)
           else (fst r, (plan_signal_id p, error_of result) :: snd r))
  end.

Definition coordinate_green_corridor (route_signals : list string)
    (duration : Z) : M Reply :=
  try_except
    (match route_signals with
     | [] => ret (ErrorReply (Message "No signals provided") None)
     | _ =>
         start_time <- utcnow ;;
         let signal_interval :=
           Z.max 10 (duration / Z.of_nat (List.length route_signals)) in
         coordination_plan <-
           build_plan start_time signal_interval duration 0 route_signals ;;
         r <- execute_plan (List.length route_signals) coordination_plan ;;
         let successful_coordinates := fst r in
         let failed_coordinates := snd r in
         _log_signal_event "corridor_coordination" "green_corridor_activated"
           (EvCorridor route_signals duration successful_coordinates
              failed_coordinates) ;;
         d <- lift (timedelta_of_seconds duration) ;;
         estimated_end_time <- lift (datetime_add start_time d) ;;
         ret (CorridorReply
                (match successful_coordinates with [] => false | _ => true end)
                ("corridor_" ++ str_of_Z (timestamp_int start_time))
                route_signals coordination_plan successful_coordinates
                failed_coordinates start_time estimated_end_time duration)
     end)
    (fun e => ret (ErrorReply (StrOfExn e) None)).

(** [SignalTiming] built from the keywords of a [normal_timing] dict. *)
Definition SignalTiming_of (nt : NormalTiming) : Result SignalTiming :=
  match nt with
  | timing_profile t => Ok t
  | phase_snapshot _ _ _ => Raise TypeError
  end.

Definition _transition_to_next_state (id : string) : M unit :=
  try_except
    (current <- getitem id ;;
     timing <-
       match normal_timing current with
       | Some nt => lift (SignalTiming_of nt)
       | None => ret default_timing
       end ;;
     let next :=
       if String.eqb (current_state current) "red"
       then ("green", green_duration timing)
       else if String.eqb (current_state current) "green"
            then ("yellow", yellow_duration timing)
            else ("red", red_duration timing) in
     now <- utcnow ;;
     setitem id (mkSignalState id (fst next) now (snd next) false ""
                   (normal_timing current)) ;;
     _update_redis_state id)
    (fun _ => ret tt).

(** The body of the loop of [_monitor_signals] for one item of
    [list(self.signal_states.items())]. *)
Definition monitor_step (current_time : datetime)
    (item : string * SignalState) : M unit :=
  let elapsed := datetime_sub current_time (state_start_time (snd item)) in
  if seconds_geb elapsed (remaining_time (snd item)) then
    if is_emergency_override (snd item)
    then restore_normal_operation (fst item) ;; ret tt
    else _transition_to_next_state (fst item)
  else ret tt.

Fixpoint for_each {A} (f : A -> M unit) (l : list A) : M unit :=
  match l with
  | [] => ret tt
  | a :: l' => f a ;; for_each f l'
  end.

(** One turn of the [while] loop of [_monitor_signals], without its
    [time.sleep]. *)
Definition monitor_iteration : M unit :=
  try_except
    (current_time <- utcnow ;;
     items <- get_states ;;
     for_each (monitor_step current_time) items)
    (fun _ => ret tt).

(** The tick of one signal at the time [now]: the loop body applied to the
    record the dictionary holds for [id]. *)
Definition tick (id : string) (now : datetime) : M unit :=
  states <- get_states ;;
  match PyDict.get id states with
  | Some state => monitor_step now (id, state)
  | None => ret tt
  end.

Definition default_signals : list string :=
  ["clock_tower"; "paltan_bazaar"; "rispana_bridge"; "gandhi_road";
   "rajpur_road"; "saharanpur_road"; "haridwar_road"; "mussoorie_road";
   "chakrata_road"; "ballupur"].

Definition _initialize_default_signals : M unit :=
  for_each _create_signal_if_not_exists default_signals.

(** The controller as [__init__] leaves it. *)
Definition init_world : World :=
  world_of (_initialize_default_signals (mkWorld [] [] 0 0)).
End Controller.

(** * Properties *)

(** ** The helpers never raise and never touch [signal_states] *)

Lemma run_eq {A} (m : M A) (w : World) : m w = (value_of (m w), world_of (m w)).
Proof. unfold value_of, world_of. now destruct (m w). Qed.

Section Helpers.
Variable E : Env.

(** The worlds the helpers lead to. *)
Definition mirrored (id : string) (w : World) : World :=
  world_of (_update_redis_state E id w).
Definition logged (id ty : string) (d : EventData) (w : World) : World :=
  world_of (_log_signal_event E id ty d w).
Definition ensured (id : string) (w : World) : World :=
  world_of (_create_signal_if_not_exists E id w).

(** The record [_create_signal_if_not_exists] stores. *)
Definition created (id : string) (now : datetime) : SignalState :=
  mkSignalState id "red" now (default_red_duration E) false ""
    (Some (asdict default_timing)).

Lemma update_redis_run id w :
  _update_redis_state E id w = (Ok tt, mirrored id w).
Proof.
  unfold mirrored, world_of, _update_redis_state, try_except, bind,
    get_states, utcnow, redis_call, ret; simpl.
  destruct (PyDict.get id (signal_states w)); simpl; [|reflexivity].
  destruct (redis_up E (redis_calls w)); reflexivity.
Qed.

Lemma mirrored_states id w : signal_states (mirrored id w) = signal_states w.
Proof.
  unfold mirrored, world_of, _update_redis_state, try_except, bind,
    get_states, utcnow, redis_call, ret; simpl.
  destruct (PyDict.get id (signal_states w)); simpl; [|reflexivity].
  destruct (redis_up E (redis_calls w)); reflexivity.
Qed.

Lemma mirrored_clock id w :
  clock_reads (mirrored id w)
  = if PyDict.mem id (signal_states w) then S (clock_reads w)
    else clock_reads w.
Proof.
  unfold mirrored, world_of, _update_redis_state, try_except, bind,
    get_states, utcnow, redis_call, ret, PyDict.mem; simpl.
  destruct (PyDict.get id (signal_states w)); simpl; [|reflexivity].
  destruct (redis_up E (redis_calls w)); reflexivity.
Qed.

Lemma log_event_run id ty d w :
  _log_signal_event E id ty d w = (Ok tt, logged id ty d w).
Proof.
  unfold logged, world_of, _log_signal_event, try_except, bind, utcnow,
    redis_call, ret; simpl.
  destruct (redis_up E (redis_calls w)); simpl; [|reflexivity].
  destruct (redis_up E (S (redis_calls w))); simpl; [|reflexivity].
  destruct (redis_up E (S (S (redis_calls w)))); reflexivity.
Qed.

Lemma logged_states id ty d w :
  signal_states (logged id ty d w) = signal_states w.
Proof.
  unfold logged, world_of, _log_signal_event, try_except, bind, utcnow,
    redis_call, ret; simpl.
  destruct (redis_up E (redis_calls w)); simpl; [|reflexivity].
  destruct (redis_up E (S (redis_calls w))); simpl; [|reflexivity].
  destruct (redis_up E (S (S (redis_calls w)))); reflexivity.
Qed.

Lemma logged_clock id ty d w :
  clock_reads (logged id ty d w) = S (clock_reads w).
Proof.
  unfold logged, world_of, _log_signal_event, try_except, bind, utcnow,
    redis_call, ret; simpl.
  destruct (redis_up E (redis_calls w)); simpl; [|reflexivity].
  destruct (redis_up E (S (redis_calls w))); simpl; [|reflexivity].
  destruct (redis_up E (S (S (redis_calls w)))); reflexivity.
Qed.

Lemma create_run id w :
  _create_signal_if_not_exists E id w = (Ok tt, ensured id w).
Proof.
  unfold ensured, world_of, _create_signal_if_not_exists, bind, get_states.
  destruct (PyDict.mem id (signal_states w)); [reflexivity|].
  unfold utcnow, setitem; simpl. now rewrite update_redis_run.
Qed.

Lemma ensured_present id w :
  PyDict.mem id (signal_states w) = true -> ensured id w = w.
Proof.
  intros H.
  unfold ensured, world_of, _create_signal_if_not_exists, bind, get_states.
  now rewrite H.
Qed.

Lemma ensured_absent_states id w :
  PyDict.mem id (signal_states w) = false ->
  signal_states (ensured id w)
  = PyDict.set id (created id (utcnow_at E (clock_reads w)))
      (signal_states w).
Proof.
  intros H.
  unfold ensured, world_of, _create_signal_if_not_exists, bind, get_states.
  rewrite H. unfold utcnow, setitem; simpl.
  rewrite update_redis_run; simpl. now rewrite mirrored_states.
Qed.

Lemma ensured_absent_clock id w :
  PyDict.mem id (signal_states w) = false ->
  clock_reads (ensured id w) = S (S (clock_reads w)).
Proof.
  intros H.
  unfold ensured, world_of, _create_signal_if_not_exists, bind, get_states.
  rewrite H. unfold utcnow, setitem; simpl.
  rewrite update_redis_run; simpl. rewrite mirrored_clock; simpl.
  unfold PyDict.mem. now rewrite PyDict.get_set_same.
Qed.

(** After [_create_signal_if_not_exists] the record is there: the one that
    was, or a fresh one. *)
Definition ensured_record (id : string) (w : World) : SignalState :=
  match PyDict.get id (signal_states w) with
  | Some s => s
  | None => created id (utcnow_at E (clock_reads w))
  end.

Lemma ensured_get id w :
  PyDict.get id (signal_states (ensured id w)) = Some (ensured_record id w).
Proof.
  unfold ensured_record.
  destruct (PyDict.get id (signal_states w)) as [s|] eqn:G.
  - rewrite ensured_present; [exact G|]. unfold PyDict.mem. now rewrite G.
  - rewrite ensured_absent_states by (unfold PyDict.mem; now rewrite G).
    apply PyDict.get_set_same.
Qed.

Lemma ensured_get_other id id' w :
  id' <> id ->
  PyDict.get id' (signal_states (ensured id w))
  = PyDict.get id' (signal_states w).
Proof.
  intros N. destruct (PyDict.mem id (signal_states w)) eqn:G.
  - now rewrite ensured_present.
  - rewrite ensured_absent_states by exact G.
    now apply PyDict.get_set_other.
Qed.
End Helpers.

(** Normalising the worlds that come out of the helpers. *)
Ltac settle :=
  repeat (progress
            (rewrite ?logged_states, ?mirrored_states, ?logged_clock,
               ?mirrored_clock, ?PyDict.get_set_same, ?PyDict.mem_set,
               ?String.eqb_refl; simpl)).

Arguments _update_redis_state : simpl never.
Arguments _log_signal_event : simpl never.
Arguments _create_signal_if_not_exists : simpl never.
Arguments mirrored : simpl never.
Arguments logged : simpl never.
Arguments ensured : simpl never.

(** ** What [emergency_override] does *)

Section Override.
Variable E : Env.

(** The [normal_timing] an override carries: the snapshot of the record it
    replaces, unless that record was an override already. *)
Definition snapshot_of (cur : SignalState) : option NormalTiming :=
  if is_emergency_override cur then normal_timing cur
  else Some (phase_snapshot (current_state cur) (remaining_time cur)
               (state_start_time cur)).

Definition overridden (id : string) (cur : SignalState) (now : datetime)
    (d : Z) (reason : string) : SignalState :=
  mkSignalState id "green" now d true reason (snapshot_of cur).

Definition effective_duration (duration : option Z) : Z :=
  match duration with
  | None => emergency_override_duration E
  | Some d => d
  end.

(** [t + timedelta(seconds=d)] *)
Definition end_time (t : datetime) (d : Z) : Result datetime :=
  match timedelta_of_seconds d with
  | Ok td => datetime_add t td
  | Raise e => Raise e
  end.

(** The clock readings of a call of [emergency_override] in [w]: when the
    override is stored, and the two of the reply. *)
Definition override_now (id : string) (w : World) : datetime :=
  utcnow_at E (clock_reads (ensured E id w)).
Definition override_start (id : string) (w : World) : datetime :=
  utcnow_at E (3 + clock_reads (ensured E id w)).
Definition override_end_base (id : string) (w : World) : datetime :=
  utcnow_at E (4 + clock_reads (ensured E id w)).

Definition override_reply (id : string) (d : Z) (reason : string)
    (w : World) : Reply :=
  match end_time (override_end_base id w) d with
  | Ok et => OverrideReply id "green" d reason (override_start id w) et
  | Raise e => ErrorReply (StrOfExn e) (Some id)
  end.

Lemma override_run id duration reason w :
  value_of (emergency_override E id duration reason w)
  = Ok (override_reply id (effective_duration duration) reason w)
  /\ signal_states (world_of (emergency_override E id duration reason w))
     = PyDict.set id
         (overridden id (ensured_record E id w) (override_now id w)
            (effective_duration duration) reason)
         (signal_states (ensured E id w)).
Proof.
  unfold emergency_override, try_except, bind.
  rewrite create_run. unfold getitem. rewrite ensured_get.
  unfold override_reply, end_time, override_end_base, override_start,
    override_now, overridden, snapshot_of, effective_duration.
  set (d := match duration with Some d => d | None => _ end).
  set (cur := ensured_record E id w).
  set (wc := ensured E id w).
  destruct (is_emergency_override cur) eqn:Ov; simpl;
    rewrite update_redis_run, log_event_run; simpl;
    rewrite logged_clock, mirrored_clock, logged_states, mirrored_states;
    simpl; rewrite PyDict.mem_set, String.eqb_refl; simpl;
    unfold lift;
    destruct (timedelta_of_seconds d) as [td|e]; simpl;
    try destruct (datetime_add _ td) as [et|e]; simpl;
    rewrite ?PyDict.set_set; split; reflexivity.
Qed.
End Override.

(** ** What [restore_normal_operation] does *)

Section Restore.
Variable E : Env.

Definition restored_yellow (id : string) (now : datetime) : SignalState :=
  mkSignalState id "yellow" now (yellow_duration default_timing)
    false "" None.

Definition restored_red (id : string) (now : datetime) : SignalState :=
  mkSignalState id "red" now (default_red_duration E) false "" None.

Lemma restore_absent id w :
  PyDict.get id (signal_states w) = None ->
  restore_normal_operation E id w
  = (Ok (ErrorReply (Message "Signal not found") None), w).
Proof.
  intros G. unfold restore_normal_operation, try_except, bind, get_states,
    PyDict.mem.
  now rewrite G.
Qed.

Lemma restore_not_overridden id cur w :
  PyDict.get id (signal_states w) = Some cur ->
  is_emergency_override cur = false ->
  restore_normal_operation E id w
  = (Ok (ErrorReply (Message "Signal is not in emergency override") None),
     w).
Proof.
  intros G Ov. unfold restore_normal_operation, try_except, bind,
    get_states, getitem, PyDict.mem.
  repeat (rewrite G; simpl). now rewrite Ov.
Qed.

Lemma restore_yellow id cur w :
  PyDict.get id (signal_states w) = Some cur ->
  is_emergency_override cur = true ->
  normal_timing cur <> None ->
  value_of (restore_normal_operation E id w)
  = Ok (RestoreReply id "yellow" (utcnow_at E (4 + clock_reads w)))
  /\ signal_states (world_of (restore_normal_operation E id w))
     = PyDict.set id (restored_yellow id (utcnow_at E (1 + clock_reads w)))
         (signal_states w).
Proof.
  intros G Ov NT. unfold restore_normal_operation, try_except, bind,
    get_states, getitem, PyDict.mem.
  repeat (rewrite G; simpl). rewrite Ov; simpl.
  destruct (normal_timing cur) as [nt|]; [|congruence]. simpl.
  rewrite update_redis_run; simpl. rewrite log_event_run; simpl.
  settle. split; reflexivity.
Qed.

Lemma restore_red id cur w :
  PyDict.get id (signal_states w) = Some cur ->
  is_emergency_override cur = true ->
  normal_timing cur = None ->
  value_of (restore_normal_operation E id w)
  = Ok (ErrorReply (StrOfExn UnboundLocalError) None)
  /\ signal_states (world_of (restore_normal_operation E id w))
     = PyDict.set id (restored_red id (utcnow_at E (clock_reads w)))
         (signal_states w).
Proof.
  intros G Ov NT. unfold restore_normal_operation, try_except, bind,
    get_states, getitem, PyDict.mem.
  repeat (rewrite G; simpl). rewrite Ov; simpl. rewrite NT; simpl.
  rewrite update_redis_run; simpl. rewrite mirrored_states.
  split; reflexivity.
Qed.
End Restore.

(** ** What [_transition_to_next_state] does *)

Section Transition.
Variable E : Env.

(** The timing a transition of the record [cur] goes by. *)
Definition timing_of (cur : SignalState) : Result SignalTiming :=
  match normal_timing cur with
  | Some nt => SignalTiming_of nt
  | None => Ok default_timing
  end.

Definition next_of (phase : string) (timing : SignalTiming) : string * Z :=
  if String.eqb phase "red" then ("green", green_duration timing)
  else if String.eqb phase "green" then ("yellow", yellow_duration timing)
       else ("red", red_duration timing).

Definition transitioned (id : string) (cur : SignalState)
    (timing : SignalTiming) (now : datetime) : SignalState :=
  mkSignalState id (fst (next_of (current_state cur) timing)) now
    (snd (next_of (current_state cur) timing)) false ""
    (normal_timing cur).

Lemma transition_run id w :
  value_of (_transition_to_next_state E id w) = Ok tt.
Proof.
  unfold _transition_to_next_state, try_except, bind, getitem.
  destruct (PyDict.get id (signal_states w)) as [cur|]; [|reflexivity].
  destruct (normal_timing cur) as [[t|s r st]|]; simpl;
    try reflexivity; now rewrite update_redis_run.
Qed.

Lemma transition_states id cur timing w :
  PyDict.get id (signal_states w) = Some cur ->
  timing_of cur = Ok timing ->
  signal_states (world_of (_transition_to_next_state E id w))
  = PyDict.set id (transitioned id cur timing (utcnow_at E (clock_reads w)))
      (signal_states w).
Proof.
  intros G T. unfold _transition_to_next_state, try_except, bind, getitem.
  rewrite G. unfold timing_of in T.
  destruct (normal_timing cur) as [[t|s r st]|] eqn:NT; simpl in *;
    try discriminate; inversion T; subst timing;
    rewrite update_redis_run; simpl; rewrite mirrored_states;
    unfold transitioned, next_of; now rewrite NT.
Qed.

Lemma transition_stuck id w :
  match PyDict.get id (signal_states w) with
  | Some cur => timing_of cur = Raise TypeError
  | None => True
  end ->
  world_of (_transition_to_next_state E id w) = w.
Proof.
  unfold _transition_to_next_state, try_except, bind, getitem, timing_of.
  destruct (PyDict.get id (signal_states w)) as [cur|]; [|reflexivity].
  destruct (normal_timing cur) as [[t|s r st]|]; simpl;
    intros H; try discriminate; reflexivity.
Qed.
End Transition.

(** ** What [update_timing] does *)

Section UpdateTiming.
Variable E : Env.

(** A value the validation accepts: a positive [int], which in Python
    includes [True]. *)
Definition positive_integer (v : pyval) : Prop :=
  match v with
  | PyInt z => 0 < z
  | PyBool b => b = true
  | _ => False
  end.

(** A configuration with a required field missing or not a positive
    integer. *)
Definition invalid_timing_config (timing_config : PyDict.dict pyval) : Prop :=
  exists field,
    In field required_fields /\
    match PyDict.get field timing_config with
    | None => True
    | Some v => ~ positive_integer v
    end.

Lemma positive_integer_as_int v :
  positive_integer v <-> exists z, as_int v = Some z /\ 0 < z.
Proof.
  destruct v as [z|[|]|s| |r]; simpl; split; intros H;
    try (destruct H as (z' & A & P); inversion A; subst; clear A);
    try contradiction; try discriminate; try reflexivity; try lia;
    eexists; (split; [reflexivity|lia]).
Qed.

Lemma validate_fields_rejects fields timing_config :
  (exists field,
      In field fields /\
      match PyDict.get field timing_config with
      | None => True
      | Some v => ~ positive_integer v
      end) ->
  exists msg, validate_fields fields timing_config = Some (Message msg).
Proof.
  induction fields as [|f fields IH]; intros (field & I & B).
  - destruct I.
  - simpl. destruct (PyDict.get f timing_config) as [v|] eqn:G;
      [|eexists; reflexivity].
    destruct (as_int v) as [z|] eqn:A; [|eexists; reflexivity].
    destruct (Z.leb_spec z 0); [eexists; reflexivity|].
    destruct I as [<-|I].
    + rewrite G in B. exfalso. apply B.
      apply positive_integer_as_int. now exists z.
    + apply IH. now exists field.
Qed.

Lemma validate_fields_accepts fields timing_config :
  validate_fields fields timing_config = None ->
  forall field, In field fields ->
    exists z, field_value timing_config field = Ok z /\ 0 < z.
Proof.
  induction fields as [|f fields IH]; simpl; intros V field I;
    [destruct I|].
  unfold field_value.
  destruct (PyDict.get f timing_config) as [v|] eqn:G; [|discriminate].
  destruct (as_int v) as [z|] eqn:A; [|discriminate].
  destruct (Z.leb_spec z 0); [discriminate|].
  destruct I as [<-|I].
  - rewrite G, A. now exists z.
  - now apply IH.
Qed.

Definition retimed (cur : SignalState) (r y g : Z) : SignalState :=
  with_normal_timing cur
    (Some (asdict (mkSignalTiming r y g (r + y + g)))).

Lemma update_timing_rejected id timing_config err w :
  validate_fields required_fields timing_config = Some err ->
  update_timing E id timing_config w
  = (Ok (ErrorReply err None), ensured E id w).
Proof.
  intros V. unfold update_timing, try_except, bind.
  rewrite create_run, V. reflexivity.
Qed.

Lemma update_timing_accepted id timing_config w :
  validate_fields required_fields timing_config = None ->
  exists r y g,
    field_value timing_config "red_duration" = Ok r
    /\ field_value timing_config "yellow_duration" = Ok y
    /\ field_value timing_config "green_duration" = Ok g
    /\ 0 < r /\ 0 < y /\ 0 < g
    /\ value_of (update_timing E id timing_config w)
       = Ok (TimingReply id (mkSignalTiming r y g (r + y + g))
               (utcnow_at E (2 + clock_reads (ensured E id w))))
    /\ signal_states (world_of (update_timing E id timing_config w))
       = PyDict.set id (retimed (ensured_record E id w) r y g)
           (signal_states (ensured E id w)).
Proof.
  intros V.
  destruct (validate_fields_accepts _ _ V "red_duration") as (r & Fr & Pr);
    [simpl; tauto|].
  destruct (validate_fields_accepts _ _ V "yellow_duration") as (y & Fy & Py);
    [simpl; tauto|].
  destruct (validate_fields_accepts _ _ V "green_duration") as (g & Fg & Pg);
    [simpl; tauto|].
  exists r, y, g. repeat (split; [assumption|]).
  unfold update_timing, try_except, bind.
  rewrite create_run, V. unfold lift, getitem.
  rewrite Fr, Fy, Fg, ensured_get. simpl.
  rewrite update_redis_run; simpl. rewrite log_event_run; simpl.
  settle. split; reflexivity.
Qed.
End UpdateTiming.

(** ** How one signal's record evolves *)

(** Every write to [signal_states] is one of these six: the record under a
    key is created, overridden, restored (to yellow, or to red when it holds
    no [normal_timing]), given a new timing, or moved to its next phase.
    [R] tells which keys [update_timing] is called for. *)
Inductive sig_step (E : Env) (R : string -> Prop) (id : string)
  : option SignalState -> option SignalState -> Prop :=
| step_create t :
    sig_step E R id None (Some (created E id t))
| step_override cur t d reason :
    sig_step E R id (Some cur) (Some (overridden id cur t d reason))
| step_restore_yellow cur t :
    is_emergency_override cur = true -> normal_timing cur <> None ->
    sig_step E R id (Some cur) (Some (restored_yellow id t))
| step_restore_red cur t :
    is_emergency_override cur = true -> normal_timing cur = None ->
    sig_step E R id (Some cur) (Some (restored_red E id t))
| step_retime cur r y g :
    R id -> 0 < r -> 0 < y -> 0 < g ->
    sig_step E R id (Some cur) (Some (retimed cur r y g))
| step_transition cur timing t :
    timing_of cur = Ok timing ->
    sig_step E R id (Some cur) (Some (transitioned id cur timing t)).

Inductive sig_steps (E : Env) (R : string -> Prop) (id : string)
  : option SignalState -> option SignalState -> Prop :=
| steps_refl s : sig_steps E R id s s
| steps_snoc s1 s2 s3 :
    sig_steps E R id s1 s2 -> sig_step E R id s2 s3 -> sig_steps E R id s1 s3.

Lemma sig_steps_trans E R id s1 s2 s3 :
  sig_steps E R id s1 s2 -> sig_steps E R id s2 s3 -> sig_steps E R id s1 s3.
Proof.
  intros H12 H23. induction H23 as [|s2 s3 s4 _ IH S]; [assumption|].
  eapply steps_snoc; [apply IH, H12|exact S].
Qed.

Lemma sig_steps_one E R id s1 s2 : sig_step E R id s1 s2 -> sig_steps E R id s1 s2.
Proof. intros S. eapply steps_snoc; [apply steps_refl|exact S]. Qed.

Section Evolution.
Variable E : Env.
Variable R : string -> Prop.

(** From [w] to [w'] every key's record went through such writes only. *)
Definition evolves (w w' : World) : Prop :=
  forall id,
    sig_steps E R id (PyDict.get id (signal_states w))
      (PyDict.get id (signal_states w')).

Lemma evolves_same w w' :
  signal_states w' = signal_states w -> evolves w w'.
Proof. intros H id. rewrite H. apply steps_refl. Qed.

Lemma evolves_refl w : evolves w w.
Proof. now apply evolves_same. Qed.

Lemma evolves_trans w1 w2 w3 : evolves w1 w2 -> evolves w2 w3 -> evolves w1 w3.
Proof. intros H12 H23 id. eapply sig_steps_trans; [apply H12|apply H23]. Qed.

(** One key written, by a step from the record it held. *)
Lemma evolves_set w w' id s :
  signal_states w' = PyDict.set id s (signal_states w) ->
  sig_step E R id (PyDict.get id (signal_states w)) (Some s) ->
  evolves w w'.
Proof.
  intros H S id'. rewrite H, PyDict.get_set.
  destruct (String.eqb_spec id' id) as [->|N].
  - now apply sig_steps_one.
  - apply steps_refl.
Qed.

(** A computation all of whose runs are such evolutions. *)
Definition evolving {A} (m : M A) : Prop :=
  forall w, evolves w (world_of (m w)).

Lemma evolving_ret {A} (a : A) : evolving (ret a).
Proof. intros w. apply evolves_refl. Qed.

Lemma evolving_lift {A} (r : Result A) : evolving (lift r).
Proof. intros w. apply evolves_refl. Qed.

Lemma evolving_utcnow : evolving (utcnow E).
Proof. intros w. now apply evolves_same. Qed.

Lemma evolving_get_states : evolving get_states.
Proof. intros w. apply evolves_refl. Qed.

Lemma evolving_redis_call c : evolving (redis_call E c).
Proof.
  intros w. apply evolves_same. unfold redis_call, world_of.
  now destruct (redis_up E (redis_calls w)).
Qed.

Lemma evolving_bind {A B} (m : M A) (k : A -> M B) :
  evolving m -> (forall a, evolving (k a)) -> evolving (bind m k).
Proof.
  intros Hm Hk w. unfold bind, world_of. specialize (Hm w).
  unfold world_of in Hm. destruct (m w) as [[a|e] w1]; simpl in *.
  - eapply evolves_trans; [exact Hm|apply Hk].
  - exact Hm.
Qed.

Lemma evolving_try {A} (m : M A) (h : exn -> M A) :
  evolving m -> (forall e, evolving (h e)) -> evolving (try_except m h).
Proof.
  intros Hm Hh w. unfold try_except, world_of. specialize (Hm w).
  unfold world_of in Hm. destruct (m w) as [[a|e] w1]; simpl in *.
  - exact Hm.
  - eapply evolves_trans; [exact Hm|apply Hh].
Qed.

Lemma evolving_for_each {A} (f : A -> M unit) (l : list A) :
  (forall a, evolving (f a)) -> evolving (for_each f l).
Proof.
  intros Hf. induction l as [|a l IH]; simpl.
  - apply evolving_ret.
  - apply evolving_bind; [apply Hf|intros _; exact IH].
Qed.

Lemma evolving_create id : evolving (_create_signal_if_not_exists E id).
Proof.
  intros w. fold (ensured E id w).
  destruct (PyDict.mem id (signal_states w)) eqn:G.
  - rewrite ensured_present by exact G. apply evolves_refl.
  - eapply evolves_set; [now apply ensured_absent_states|].
    unfold PyDict.mem in G.
    destruct (PyDict.get id (signal_states w)); [discriminate|].
    apply step_create.
Qed.

Lemma evolving_override id duration reason :
  evolving (emergency_override E id duration reason).
Proof.
  intros w. eapply evolves_trans; [apply (evolving_create id)|].
  fold (ensured E id w).
  eapply evolves_set; [apply override_run|].
  rewrite ensured_get. apply step_override.
Qed.

Lemma evolving_restore id : evolving (restore_normal_operation E id).
Proof.
  intros w.
  destruct (PyDict.get id (signal_states w)) as [cur|] eqn:G.
  - destruct (is_emergency_override cur) eqn:Ov.
    + destruct (normal_timing cur) as [nt|] eqn:NT.
      * eapply evolves_set.
        -- eapply restore_yellow; eauto. congruence.
        -- rewrite G. apply step_restore_yellow; congruence.
      * eapply evolves_set.
        -- eapply restore_red; eauto.
        -- rewrite G. now apply step_restore_red.
    + erewrite restore_not_overridden by eauto. apply evolves_refl.
  - rewrite restore_absent by exact G. apply evolves_refl.
Qed.

Lemma evolving_update_timing id timing_config :
  R id -> evolving (update_timing E id timing_config).
Proof.
  intros HR w.
  destruct (validate_fields required_fields timing_config) as [err|] eqn:V.
  - rewrite (update_timing_rejected E id _ _ w V). apply (evolving_create id).
  - destruct (update_timing_accepted E id _ w V)
      as (r & y & g & _ & _ & _ & Pr & Py & Pg & _ & S).
    eapply evolves_trans; [apply (evolving_create id)|].
    fold (ensured E id w).
    eapply evolves_set; [exact S|].
    rewrite ensured_get. now apply step_retime.
Qed.

Lemma evolving_transition id : evolving (_transition_to_next_state E id).
Proof.
  intros w.
  destruct (PyDict.get id (signal_states w)) as [cur|] eqn:G.
  - destruct (timing_of cur) as [timing|e] eqn:T.
    + eapply evolves_set; [eapply transition_states; eassumption|].
      rewrite G. now apply step_transition.
    + rewrite transition_stuck; [apply evolves_refl|].
      rewrite G. unfold timing_of, SignalTiming_of in *.
      destruct (normal_timing cur) as [[?|? ? ?]|]; congruence.
  - rewrite transition_stuck; [apply evolves_refl|]. now rewrite G.
Qed.

Lemma evolving_schedule id start duration reason :
  evolving (_schedule_signal_override E id start duration reason).
Proof.
  unfold _schedule_signal_override.
  apply evolving_try; [|intros e; apply evolving_ret].
  apply evolving_bind; [apply evolving_redis_call|].
  intros _. apply evolving_ret.
Qed.

Lemma evolving_log id ty d : evolving (_log_signal_event E id ty d).
Proof.
  intros w. apply evolves_same. fold (logged E id ty d w).
  apply logged_states.
Qed.

Lemma evolving_build_plan start interval duration route :
  forall i, evolving (build_plan E start interval duration i route).
Proof.
  induction route as [|id route IH]; intros i; simpl.
  - apply evolving_ret.
  - apply evolving_bind; [apply evolving_create|intros _].
    apply evolving_bind; [apply evolving_lift|intros d].
    apply evolving_bind; [apply evolving_lift|intros g].
    apply evolving_bind; [apply IH|intros plan]. apply evolving_ret.
Qed.

Lemma evolving_execute_plan n plan : evolving (execute_plan E n plan).
Proof.
  induction plan as [|p plan IH]; simpl.
  - apply evolving_ret.
  - apply evolving_bind.
    + destruct (delay_from_start p =? 0);
        [apply evolving_override|apply evolving_schedule].
    + intros r. apply evolving_bind; [exact IH|intros ?; apply evolving_ret].
Qed.

Lemma evolving_coordinate route duration :
  evolving (coordinate_green_corridor E route duration).
Proof.
  unfold coordinate_green_corridor.
  apply evolving_try; [|intros e; apply evolving_ret].
  destruct route as [|id route]; [apply evolving_ret|].
  apply evolving_bind; [apply evolving_utcnow|intros start].
  apply evolving_bind; [apply evolving_build_plan|intros plan].
  apply evolving_bind; [apply evolving_execute_plan|intros r].
  apply evolving_bind; [apply evolving_log|intros _].
  apply evolving_bind; [apply evolving_lift|intros d].
  apply evolving_bind; [apply evolving_lift|intros et].
  apply evolving_ret.
Qed.

Lemma evolving_monitor_step now item : evolving (monitor_step E now item).
Proof.
  unfold monitor_step.
  destruct (seconds_geb _ _); [|apply evolving_ret].
  destruct (is_emergency_override _); [|apply evolving_transition].
  apply evolving_bind; [apply evolving_restore|intros _; apply evolving_ret].
Qed.

Lemma evolving_monitor_iteration : evolving (monitor_iteration E).
Proof.
  unfold monitor_iteration.
  apply evolving_try; [|intros e; apply evolving_ret].
  apply evolving_bind; [apply evolving_utcnow|intros now].
  apply evolving_bind; [apply evolving_get_states|intros items].
  apply evolving_for_each. intros item. apply evolving_monitor_step.
Qed.

Lemma evolving_tick id now : evolving (tick E id now).
Proof.
  unfold tick. apply evolving_bind; [apply evolving_get_states|intros s].
  destruct (PyDict.get id s); [apply evolving_monitor_step|apply evolving_ret].
Qed.
End Evolution.

(** ** Calls on the controller and the worlds they reach *)

Inductive Op : Type :=
| OpCreate (id : string)
| OpOverride (id : string) (duration : option Z) (reason : string)
| OpRestore (id : string)
| OpUpdateTiming (id : string) (timing_config : PyDict.dict pyval)
| OpCoordinate (route_signals : list string) (duration : Z)
| OpTransition (id : string)
| OpTick (id : string) (now : datetime)
| OpMonitor.

Definition run_op (E : Env) (op : Op) (w : World) : World :=
  match op with
  | OpCreate id => world_of (_create_signal_if_not_exists E id w)
  | OpOverride id d r => world_of (emergency_override E id d r w)
  | OpRestore id => world_of (restore_normal_operation E id w)
  | OpUpdateTiming id c => world_of (update_timing E id c w)
  | OpCoordinate r d => world_of (coordinate_green_corridor E r d w)
  | OpTransition id => world_of (_transition_to_next_state E id w)
  | OpTick id now => world_of (tick E id now w)
  | OpMonitor => world_of (monitor_iteration E w)
  end.

Definition run_ops (E : Env) (ops : list Op) (w : World) : World :=
  fold_left (fun w op => run_op E op w) ops w.

(** The controller before [__init__] has created any signal. *)
Definition empty_world : World := mkWorld [] [] 0 0.

Definition reachable (E : Env) (w : World) : Prop :=
  exists ops, w = run_ops E ops empty_world.

(** The key [update_timing] is called for, if the call is one. *)
Definition retimes (op : Op) (id : string) : Prop :=
  match op with
  | OpUpdateTiming id' _ => id' = id
  | _ => False
  end.

Lemma run_op_evolves E (R : string -> Prop) op w :
  (forall id, retimes op id -> R id) -> evolves E R w (run_op E op w).
Proof.
  intros HR. destruct op; simpl.
  - apply evolving_create.
  - apply evolving_override.
  - apply evolving_restore.
  - apply evolving_update_timing. now apply HR.
  - apply evolving_coordinate.
  - apply evolving_transition.
  - apply evolving_tick.
  - apply evolving_monitor_iteration.
Qed.

Lemma run_ops_evolves E (R : string -> Prop) ops :
  (forall op id, In op ops -> retimes op id -> R id) ->
  forall w, evolves E R w (run_ops E ops w).
Proof.
  induction ops as [|op ops IH]; intros HR w; simpl.
  - apply evolves_refl.
  - eapply evolves_trans.
    + apply run_op_evolves. intros id. apply HR. now left.
    + apply IH. intros op' id I. apply HR. now right.
Qed.

Lemma run_ops_app E ops1 ops2 w :
  run_ops E (ops1 ++ ops2) w = run_ops E ops2 (run_ops E ops1 w).
Proof. unfold run_ops. apply fold_left_app. Qed.

Lemma create_all_run_ops E ids :
  forall w,
    world_of (for_each (_create_signal_if_not_exists E) ids w)
    = run_ops E (map OpCreate ids) w.
Proof.
  induction ids as [|id ids IH]; intros w; simpl; [reflexivity|].
  unfold bind. rewrite create_run. apply IH.
Qed.

Lemma init_world_reachable E : reachable E (init_world E).
Proof. exists (map OpCreate default_signals). apply create_all_run_ops. Qed.

(** ** The invariant of a signal record *)

Definition phase_ok (s : SignalState) : Prop :=
  current_state s = "red" \/ current_state s = "yellow"
  \/ current_state s = "green".

Definition positive_timing (t : SignalTiming) : Prop :=
  0 < red_duration t /\ 0 < yellow_duration t /\ 0 < green_duration t.

(** A stored timing profile has positive durations. *)
Definition profile_positive (nt : option NormalTiming) : Prop :=
  match nt with
  | Some (timing_profile t) => positive_timing t
  | _ => True
  end.

Definition is_snapshot (nt : option NormalTiming) : Prop :=
  match nt with
  | Some (phase_snapshot _ _ _) => True
  | _ => False
  end.

(** What holds of the record stored under [id]: in override mode it is green
    and holds a [normal_timing]; in normal mode it has no override reason and
    its [normal_timing] is a timing profile or [None]. *)
Definition signal_inv (id : string) (s : SignalState) : Prop :=
  signal_id s = id /\ phase_ok s /\ profile_positive (normal_timing s)
  /\ if is_emergency_override s
     then current_state s = "green" /\ normal_timing s <> None
     else override_reason s = "" /\ ~ is_snapshot (normal_timing s).

Definition opt_inv (id : string) (s : option SignalState) : Prop :=
  match s with
  | Some s => signal_inv id s
  | None => True
  end.

Lemma default_timing_positive : positive_timing default_timing.
Proof. unfold positive_timing; simpl; lia. Qed.

Lemma next_of_phase phase timing :
  fst (next_of phase timing) = "red" \/ fst (next_of phase timing) = "yellow"
  \/ fst (next_of phase timing) = "green".
Proof.
  unfold next_of. destruct (String.eqb phase "red"); simpl; [tauto|].
  destruct (String.eqb phase "green"); simpl; tauto.
Qed.

Lemma sig_step_inv E R id s1 s2 :
  sig_step E R id s1 s2 -> opt_inv id s1 -> opt_inv id s2.
Proof.
  intros S. destruct S as [t|cur t d reason|cur t Ov NT|cur t Ov NT
                           |cur r y g _ Pr Py Pg|cur timing t T]; simpl.
  - intros _. unfold signal_inv, phase_ok, positive_timing; simpl.
    repeat split; try tauto; try lia.
  - intros (Hid & Hp & Hpos & Hm).
    unfold signal_inv, phase_ok, overridden, snapshot_of; simpl.
    destruct (is_emergency_override cur); simpl.
    + repeat split; tauto.
    + repeat split; try tauto. discriminate.
  - intros _. unfold signal_inv, phase_ok; simpl. repeat split; tauto.
  - intros _. unfold signal_inv, phase_ok; simpl. repeat split; tauto.
  - intros (Hid & Hp & Hpos & Hm).
    unfold signal_inv, phase_ok, retimed, positive_timing in *; simpl.
    destruct (is_emergency_override cur); simpl.
    + repeat split; try tauto. discriminate.
    + repeat split; tauto.
  - intros (Hid & Hp & Hpos & Hm).
    unfold signal_inv, phase_ok, transitioned; simpl.
    repeat split; try assumption.
    + apply next_of_phase.
    + unfold timing_of, SignalTiming_of in T.
      destruct (normal_timing cur) as [[?|? ? ?]|]; simpl; auto; discriminate.
  Qed.

Lemma sig_steps_inv E R id s1 s2 :
  sig_steps E R id s1 s2 -> opt_inv id s1 -> opt_inv id s2.
Proof.
  induction 1 as [|s1 s2 s3 _ IH S]; [auto|].
  intros H. eapply sig_step_inv; [exact S|auto].
Qed.

Lemma reachable_inv E w id s :
  reachable E w -> PyDict.get id (signal_states w) = Some s -> signal_inv id s.
Proof.
  intros (ops & ->) G.
  pose proof (run_ops_evolves E (fun _ => True) ops (fun _ _ _ _ => I)
                empty_world id) as S.
  rewrite G in S. apply (sig_steps_inv _ _ _ _ _ S). exact I.
Qed.

(** ** The coordination plan *)

Section Plan.
Variable E : Env.

(** [t + timedelta(seconds=secs)] is a datetime. *)
Definition representable (t : datetime) (secs : Z) : Prop :=
  Z.abs (secs / SECONDS_PER_DAY) <= MAX_DELTA_DAYS
  /\ 0 <= t + secs * US_PER_SECOND < DATETIME_END.

Lemma end_time_representable t secs :
  representable t secs -> end_time t secs = Ok (t + secs * US_PER_SECOND).
Proof.
  intros (Hd & Hlo & Hhi). unfold end_time, timedelta_of_seconds, datetime_add.
  destruct (Z.leb_spec (Z.abs (secs / SECONDS_PER_DAY)) MAX_DELTA_DAYS);
    [|lia].
  destruct (Z.leb_spec 0 (t + secs * US_PER_SECOND)); [|lia].
  destruct (Z.ltb_spec (t + secs * US_PER_SECOND) DATETIME_END); [|lia].
  reflexivity.
Qed.

Lemma end_time_ok_inv t secs et :
  end_time t secs = Ok et ->
  representable t secs /\ et = t + secs * US_PER_SECOND.
Proof.
  unfold end_time, timedelta_of_seconds, datetime_add, representable.
  destruct (Z.leb_spec (Z.abs (secs / SECONDS_PER_DAY)) MAX_DELTA_DAYS);
    [|discriminate].
  destruct (Z.leb_spec 0 (t + secs * US_PER_SECOND)); [|discriminate].
  destruct (Z.ltb_spec (t + secs * US_PER_SECOND) DATETIME_END);
    [|discriminate].
  simpl. intros H'; inversion H'. repeat split; assumption.
Qed.

(** The plan as the partition rule gives it: entry [i] starts
    [i * interval] seconds after [start] and is green for
    [min(60, duration - delay)] seconds; entries that would not be green
    for a positive time are left out. *)
Definition corridor_entry (start : datetime) (interval duration : Z)
    (item : nat * string) : PlanEntry :=
  let delay := Z.of_nat (fst item) * interval in
  mkPlanEntry (snd item) (start + delay * US_PER_SECOND)
    (Z.min 60 (duration - delay)) delay.

Definition plan_entries (start : datetime) (interval duration : Z)
    (i : nat) (route : list string) : list PlanEntry :=
  filter (fun p => 0 <? plan_green_duration p)
    (map (corridor_entry start interval duration)
       (combine (seq i (List.length route)) route)).

Definition corridor_interval (route : list string) (duration : Z) : Z :=
  Z.max 10 (duration / Z.of_nat (List.length route)).

Definition corridor_plan (start : datetime) (route : list string)
    (duration : Z) : list PlanEntry :=
  plan_entries start (corridor_interval route duration) duration 0 route.

Lemma build_plan_run start interval duration route :
  forall i w,
    (forall j, (j < List.length route)%nat ->
               representable start (Z.of_nat (i + j) * interval)) ->
    value_of (build_plan E start interval duration (Z.of_nat i) route w)
    = Ok (plan_entries start interval duration i route).
Proof.
  induction route as [|id route IH]; intros i w R; [reflexivity|].
  simpl build_plan. unfold bind. rewrite create_run. unfold lift.
  pose proof (end_time_representable _ _ (R 0%nat ltac:(simpl; lia))) as T.
  rewrite Nat.add_0_r in T. unfold end_time in T.
  destruct (timedelta_of_seconds (Z.of_nat i * interval)) as [td|e];
    [|discriminate].
  rewrite T.
  replace (Z.of_nat i + 1) with (Z.of_nat (S i)) by lia.
  assert (value_of (build_plan E start interval duration (Z.of_nat (S i))
                      route (ensured E id w))
          = Ok (plan_entries start interval duration (S i) route)) as V.
  { apply IH. intros j Hj. replace (S i + j)%nat with (i + S j)%nat by lia.
    apply R. simpl; lia. }
  unfold value_of in *.
  destruct (build_plan E start interval duration (Z.of_nat (S i)) route
              (ensured E id w)) as [r w1].
  simpl in V. subst r. unfold plan_entries, ret. simpl.
  now destruct (0 <? Z.min 60 (duration - Z.of_nat i * interval)).
Qed.

Lemma plan_entries_delays start interval duration route :
  forall i p,
    In p (plan_entries start interval duration i route) ->
    exists j, (i <= j < i + List.length route)%nat
              /\ nth_error route (j - i) = Some (plan_signal_id p)
              /\ delay_from_start p = Z.of_nat j * interval
              /\ plan_green_duration p
                 = Z.min 60 (duration - Z.of_nat j * interval)
              /\ green_start_time p
                 = start + delay_from_start p * US_PER_SECOND
              /\ 0 < plan_green_duration p.
Proof.
  unfold plan_entries.
  induction route as [|id route IH]; intros i p; simpl; [tauto|].
  destruct (Z.ltb_spec 0 (Z.min 60 (duration - Z.of_nat i * interval)))
    as [Pos|Neg]; simpl.
  - intros [<-|I].
    + exists i. simpl. rewrite Nat.sub_diag. repeat split; lia.
    + destruct (IH (S i) p I) as (j & Hj & Hn & Hr).
      exists j. split; [lia|]. split; [|exact Hr].
      replace (j - i)%nat with (S (j - S i)) by lia. exact Hn.
  - intros I. destruct (IH (S i) p I) as (j & Hj & Hn & Hr).
    exists j. split; [lia|]. split; [|exact Hr].
    replace (j - i)%nat with (S (j - S i)) by lia. exact Hn.
Qed.

(** Kept entries are exactly those of the indices with a positive green
    time. *)
Lemma plan_entries_complete start interval duration route :
  forall i j id,
    nth_error route j = Some id ->
    0 < Z.min 60 (duration - Z.of_nat (i + j) * interval) ->
    In (corridor_entry start interval duration ((i + j)%nat, id))
      (plan_entries start interval duration i route).
Proof.
  unfold plan_entries.
  induction route as [|id0 route IH]; intros i j id N P.
  - destruct j; discriminate.
  - simpl. destruct j as [|j]; simpl in N.
    + inversion N; subst id0. rewrite Nat.add_0_r in *.
      destruct (Z.ltb_spec 0 (Z.min 60 (duration - Z.of_nat i * interval)));
        [|lia].
      now left.
    + assert (In (corridor_entry start interval duration ((S i + j)%nat, id))
                (filter (fun p => 0 <? plan_green_duration p)
                   (map (corridor_entry start interval duration)
                      (combine (seq (S i) (List.length route)) route)))) as I.
      { apply IH; [exact N|]. now replace (S i + j)%nat with (i + S j)%nat by lia. }
      replace (S i + j)%nat with (i + S j)%nat in I by lia.
      destruct (0 <? Z.min 60 (duration - Z.of_nat i * interval));
        [now right|exact I].
Qed.

(** Along the plan the delays grow. *)
Lemma plan_entries_sorted start interval duration route :
  0 < interval ->
  forall i,
    StronglySorted Z.lt
      (map delay_from_start (plan_entries start interval duration i route)).
Proof.
  intros Hi. unfold plan_entries.
  induction route as [|id route IH]; intros i; simpl; [constructor|].
  destruct (0 <? Z.min 60 (duration - Z.of_nat i * interval)); simpl.
  - constructor; [apply IH|].
    apply Forall_forall. intros d Hd. apply in_map_iff in Hd.
    destruct Hd as (p & <- & Hp).
    destruct (plan_entries_delays start interval duration route (S i) p Hp)
      as (j & Hj & _ & -> & _).
    nia.
  - apply IH.
Qed.
End Plan.

(** ** Carrying the plan out *)

Section Corridor.
Variable E : Env.

(** The call [coordinate_green_corridor] makes for one plan entry. *)
Definition corridor_call (n : nat) (p : PlanEntry) : M Reply :=
  if delay_from_start p =? 0
  then emergency_override E (plan_signal_id p) (Some (plan_green_duration p))
         ("Green corridor coordination - Signal 1 of " ++ str_of_nat n)
  else _schedule_signal_override E (plan_signal_id p) (green_start_time p)
         (plan_green_duration p)
         "Green corridor coordination - Scheduled override".

Lemma schedule_run id start duration reason w :
  value_of (_schedule_signal_override E id start duration reason w)
  = Ok (if redis_up E (redis_calls w)
        then ScheduleReply id start duration
               ("scheduled_override:" ++ id ++ ":"
                ++ str_of_Z (timestamp_int start))
        else ErrorReply (StrOfExn RedisError) None).
Proof.
  unfold _schedule_signal_override, try_except, bind, redis_call, value_of.
  now destruct (redis_up E (redis_calls w)).
Qed.

(** The reply of the call for [p] in [w]. *)
Definition call_reply (n : nat) (p : PlanEntry) (w : World) : Reply :=
  if delay_from_start p =? 0
  then override_reply E (plan_signal_id p) (plan_green_duration p)
         ("Green corridor coordination - Signal 1 of " ++ str_of_nat n) w
  else if redis_up E (redis_calls w)
       then ScheduleReply (plan_signal_id p) (green_start_time p)
              (plan_green_duration p)
              ("scheduled_override:" ++ plan_signal_id p ++ ":"
               ++ str_of_Z (timestamp_int (green_start_time p)))
       else ErrorReply (StrOfExn RedisError) None.

Lemma corridor_call_run n p w :
  value_of (corridor_call n p w) = Ok (call_reply n p w).
Proof.
  unfold corridor_call, call_reply.
  destruct (delay_from_start p =? 0).
  - apply override_run.
  - apply schedule_run.
Qed.

(** The entries of a plan with the replies of their calls, made one after
    the other from [w] on. *)
Fixpoint call_replies (n : nat) (plan : list PlanEntry) (w : World)
  : list (PlanEntry * Reply) :=
  match plan with
  | [] => []
  | p :: rest =>
      (p, call_reply n p w)
        :: call_replies n rest (world_of (corridor_call n p w))
  end.

Definition coordinated (replies : list (PlanEntry * Reply)) : list string :=
  map (fun pr => plan_signal_id (fst pr))
    (filter (fun pr => success (snd pr)) replies).

Definition not_coordinated (replies : list (PlanEntry * Reply))
  : list (string * ErrorMsg) :=
  map (fun pr => (plan_signal_id (fst pr), error_of (snd pr)))
    (filter (fun pr => negb (success (snd pr))) replies).

Lemma execute_plan_cons n p rest :
  execute_plan E n (p :: rest)
  = bind (corridor_call n p)
      (fun result =>
         bind (execute_plan E n rest)
           (fun r =>
              ret (if success result
                   then (plan_signal_id p :: fst r, snd r)
                   else (fst r, (plan_signal_id p, error_of result) :: snd r)))).
Proof. reflexivity. Qed.

Lemma execute_plan_run n plan :
  forall w,
    value_of (execute_plan E n plan w)
    = Ok (coordinated (call_replies n plan w),
          not_coordinated (call_replies n plan w)).
Proof.
  induction plan as [|p plan IH]; intros w; [reflexivity|].
  rewrite execute_plan_cons. unfold bind.
  rewrite (run_eq (corridor_call n p) w), corridor_call_run.
  specialize (IH (world_of (corridor_call n p w))).
  unfold value_of in IH.
  destruct (execute_plan E n plan (world_of (corridor_call n p w)))
    as [r w2].
  simpl in IH. subst r. unfold coordinated, not_coordinated, value_of, ret.
  simpl. now destruct (success (call_reply n p w)).
Qed.

Lemma coordinated_nonempty replies :
  coordinated replies <> []
  <-> exists p r, In (p, r) replies /\ success r = true.
Proof.
  unfold coordinated. split.
  - intros N.
    destruct (filter (fun pr => success (snd pr)) replies) as [|[p r] l] eqn:F;
      [now destruct N|].
    assert (In (p, r) (filter (fun pr => success (snd pr)) replies)) as I
        by (rewrite F; now left).
    apply filter_In in I. now exists p, r.
  - intros (p & r & I & S) Z.
    assert (In (p, r) (filter (fun pr => success (snd pr)) replies)) as I'
        by (apply filter_In; now split).
    destruct (filter (fun pr => success (snd pr)) replies); [destruct I'|].
    discriminate.
Qed.

(** The world after the clock was read once. *)
Definition after_read (w : World) : World :=
  mkWorld (signal_states w) (redis_trace w) (S (clock_reads w))
    (redis_calls w).

(** The world in which the plan is carried out. *)
Definition planned_world (route : list string) (duration : Z) (w : World)
  : World :=
  world_of (build_plan E (utcnow_at E (clock_reads w))
              (corridor_interval route duration) duration 0 route
              (after_read w)).

Lemma coordinate_run route duration w :
  route <> [] ->
  let start := utcnow_at E (clock_reads w) in
  let plan := corridor_plan start route duration in
  let replies :=
    call_replies (List.length route) plan (planned_world route duration w) in
  (forall j, (j < List.length route)%nat ->
             representable start
               (Z.of_nat j * corridor_interval route duration)) ->
  value_of (coordinate_green_corridor E route duration w)
  = Ok (match end_time start duration with
        | Ok et =>
            CorridorReply
              (match coordinated replies with [] => false | _ => true end)
              ("corridor_" ++ str_of_Z (timestamp_int start))
              route plan (coordinated replies) (not_coordinated replies)
              start et duration
        | Raise e => ErrorReply (StrOfExn e) None
        end).
Proof.
  intros NE start plan replies R.
  pose proof (build_plan_run E start (corridor_interval route duration)
                duration route 0 (after_read w) R) as B.
  pose proof (execute_plan_run (List.length route) plan
                (planned_world route duration w)) as X.
  fold replies in X. change (Z.of_nat 0) with 0 in B.
  unfold planned_world in X. fold start in X.
  unfold coordinate_green_corridor, try_except.
  destruct route as [|id0 route0]; [congruence|].
  set (route := id0 :: route0) in *.
  unfold bind at 1. unfold utcnow at 1. fold (after_read w). fold start.
  unfold bind at 1. fold (corridor_interval route duration).
  unfold value_of in B.
  destruct (build_plan E start (corridor_interval route duration) duration
              0 route (after_read w)) as [rp w1].
  unfold world_of in X. cbn [fst snd] in B, X. subst rp.
  fold (corridor_plan start route duration).
  fold plan. unfold bind at 1. unfold value_of in X.
  destruct (execute_plan E (List.length route) plan w1) as [rx w2].
  cbn [fst] in X. subst rx. unfold bind at 1. rewrite log_event_run.
  unfold bind, lift, end_time. simpl fst. simpl snd.
  destruct (timedelta_of_seconds duration) as [td|e]; [|reflexivity].
  destruct (datetime_add start td) as [et|e]; reflexivity.
Qed.
End Corridor.

(** ** The tick of one signal *)

Section Tick.
Variable E : Env.

(** The test of the monitor loop: the planned time of the record is over
    at [now]. *)
Definition due (now : datetime) (s : SignalState) : bool :=
  seconds_geb (datetime_sub now (state_start_time s)) (remaining_time s).

Lemma world_of_then_ret {A} (m : M A) (w : World) :
  world_of (bind m (fun _ => ret tt) w) = world_of (m w).
Proof. unfold bind, world_of, ret. now destruct (m w) as [[a|e] w']. Qed.

Lemma tick_idle id now w :
  match PyDict.get id (signal_states w) with
  | Some cur => due now cur = false
  | None => True
  end ->
  tick E id now w = (Ok tt, w).
Proof.
  unfold tick, bind, get_states, monitor_step, due; simpl.
  destruct (PyDict.get id (signal_states w)) as [cur|]; [|reflexivity].
  now intros ->.
Qed.

Lemma tick_due_override id now cur w :
  PyDict.get id (signal_states w) = Some cur ->
  due now cur = true -> is_emergency_override cur = true ->
  world_of (tick E id now w) = world_of (restore_normal_operation E id w).
Proof.
  intros G D Ov. unfold tick, bind at 1, get_states. rewrite G.
  unfold monitor_step; simpl. unfold due in D. rewrite D, Ov.
  apply world_of_then_ret.
Qed.

Lemma tick_due_normal id now cur w :
  PyDict.get id (signal_states w) = Some cur ->
  due now cur = true -> is_emergency_override cur = false ->
  world_of (tick E id now w) = world_of (_transition_to_next_state E id w).
Proof.
  intros G D Ov. unfold tick, bind at 1, get_states. rewrite G.
  unfold monitor_step; simpl. unfold due in D. now rewrite D, Ov.
Qed.

(** A record that starts no earlier than [now] and is planned for a
    positive time is not due at [now]. *)
Lemma fresh_not_due now s :
  now <= state_start_time s -> 0 < remaining_time s -> due now s = false.
Proof.
  intros Hs Hr. unfold due, seconds_geb, datetime_sub, US_PER_SECOND.
  apply Z.leb_gt. lia.
Qed.

Lemma next_of_positive phase timing :
  positive_timing timing -> 0 < snd (next_of phase timing).
Proof.
  intros (Hr & Hy & Hg). unfold next_of.
  destruct (String.eqb phase "red"); simpl; [assumption|].
  destruct (String.eqb phase "green"); simpl; assumption.
Qed.

Lemma timing_of_positive cur timing :
  profile_positive (normal_timing cur) -> timing_of cur = Ok timing ->
  positive_timing timing.
Proof.
  unfold timing_of, SignalTiming_of, profile_positive.
  destruct (normal_timing cur) as [[t|? ? ?]|]; intros P T;
    try discriminate; inversion T; subst; [assumption|].
  apply default_timing_positive.
Qed.

(** A second tick at the same [now] finds nothing to do, provided the
    clock does not run backwards and the durations are positive. *)
Lemma tick_twice_states id now w :
  (forall k, (clock_reads w <= k)%nat -> now <= utcnow_at E k) ->
  0 < default_red_duration E ->
  (forall cur, PyDict.get id (signal_states w) = Some cur ->
               profile_positive (normal_timing cur)) ->
  world_of (tick E id now (world_of (tick E id now w)))
  = world_of (tick E id now w).
Proof.
  intros Hclock Hred Hpos.
  destruct (PyDict.get id (signal_states w)) as [cur|] eqn:G.
  2:{ rewrite (tick_idle id now w) by now rewrite G.
      simpl. now rewrite (tick_idle id now w) by now rewrite G. }
  destruct (due now cur) eqn:D.
  2:{ rewrite (tick_idle id now w) by now rewrite G.
      simpl. now rewrite (tick_idle id now w) by now rewrite G. }
  assert (forall w1 s,
             signal_states w1 = PyDict.set id s (signal_states w) ->
             now <= state_start_time s -> 0 < remaining_time s ->
             world_of (tick E id now w1) = w1) as Fresh.
  { intros w1 s S Hs Hr. rewrite tick_idle; [reflexivity|].
    rewrite S, PyDict.get_set_same. now apply fresh_not_due. }
  destruct (is_emergency_override cur) eqn:Ov.
  - rewrite (tick_due_override id now cur w G D Ov).
    destruct (normal_timing cur) as [nt|] eqn:NT.
    + eapply Fresh.
      * eapply restore_yellow; eauto. congruence.
      * simpl. apply Hclock. lia.
      * simpl. lia.
    + eapply Fresh.
      * eapply restore_red; eauto.
      * simpl. apply Hclock. lia.
      * simpl. exact Hred.
  - rewrite (tick_due_normal id now cur w G D Ov).
    destruct (timing_of cur) as [timing|e] eqn:T.
    + eapply Fresh.
      * eapply transition_states; eauto.
      * simpl. apply Hclock. lia.
      * simpl. apply next_of_positive.
        eapply timing_of_positive; eauto.
    + assert (world_of (_transition_to_next_state E id w) = w) as St.
      { apply transition_stuck. rewrite G.
        unfold timing_of, SignalTiming_of in *.
        destruct (normal_timing cur) as [[?|? ? ?]|]; congruence. }
      rewrite St. rewrite (tick_due_normal id now cur w G D Ov). exact St.
Qed.
End Tick.

(** * The claims *)

(** A concrete environment: a clock that reads 2025-11-29T08:00:00 first and
    one millisecond more at every reading, a Redis server that accepts every
    command, and the settings the source defaults to. *)
Definition sample_clock (n : nat) : datetime :=
  63900000000000000 + Z.of_nat n * 1000.

Definition sample_env : Env :=
  mkEnv sample_clock (fun _ => true) 60 30 45.

(** The same with a Redis server that refuses every command. *)
Definition offline_env : Env :=
  mkEnv sample_clock (fun _ => false) 60 30 45.

(** An environment whose clock advances one minute at every reading. *)
Definition minute_clock (n : nat) : datetime :=
  63900000000000000 + Z.of_nat n * 60000000.

Definition minute_env : Env :=
  mkEnv minute_clock (fun _ => true) 60 30 45.

Ltac by_computation :=
  vm_compute; repeat split; try reflexivity; try discriminate.

(** ** Emergency override *)

(** C1, as amended.  For a duration [d > 0], [emergency_override] leaves the
    signal green, in override, started at the clock reading taken when the
    override is stored and planned for [d] seconds; the record it replaces
    is the stored one, or a freshly created red one when the id was unknown,
    and its phase, remaining time and start time are snapshotted unless it
    was an override already; no other signal changes.  The reply reports
    success whenever the estimated end time is a datetime. *)
Theorem override_sets_green E id d reason w :
  0 < d ->
  let run := emergency_override E id (Some d) reason w in
  let cur := ensured_record E id w in
  PyDict.get id (signal_states (world_of run))
  = Some (mkSignalState id "green" (override_now E id w) d true reason
            (if is_emergency_override cur then normal_timing cur
             else Some (phase_snapshot (current_state cur)
                          (remaining_time cur) (state_start_time cur))))
  /\ (PyDict.get id (signal_states w) = None ->
      cur = mkSignalState id "red" (utcnow_at E (clock_reads w))
              (default_red_duration E) false ""
              (Some (asdict default_timing)))
  /\ (forall s, PyDict.get id (signal_states w) = Some s -> cur = s)
  /\ (forall id', id' <> id ->
        PyDict.get id' (signal_states (world_of run))
        = PyDict.get id' (signal_states w))
  /\ (representable (override_end_base E id w) d ->
      value_of run
      = Ok (OverrideReply id "green" d reason (override_start E id w)
              (override_end_base E id w + d * US_PER_SECOND))
      /\ forall r, value_of run = Ok r -> success r = true).
Proof.
  intros _ run cur.
  destruct (override_run E id (Some d) reason w) as [V S]. fold run in V, S.
  simpl effective_duration in V, S.
  split; [|split; [|split; [|split]]].
  - rewrite S. apply PyDict.get_set_same.
  - intros G. unfold cur, ensured_record. now rewrite G.
  - intros s G. unfold cur, ensured_record. now rewrite G.
  - intros id' N. rewrite S, PyDict.get_set_other by exact N.
    now apply ensured_get_other.
  - intros Rp. rewrite V. unfold override_reply.
    rewrite (end_time_representable _ _ Rp).
    split; [reflexivity|]. intros r Hr. now inversion Hr.
Qed.

Lemma override_sets_green_witness :
  0 < 60
  /\ value_of (emergency_override sample_env "clock_tower" (Some 60)
                 "ambulance" empty_world)
     = Ok (OverrideReply "clock_tower" "green" 60 "ambulance"
             63900000000005000 63900000060006000).
Proof.
  split; [lia|].
  apply (override_sets_green sample_env "clock_tower" 60 "ambulance"
           empty_world ltac:(lia)).
  by_computation.
Defined.

(** C1 as stated fails: for a duration of 10^12 seconds the override is
    stored, but the estimated end time lies after the year 9999 and the
    reply reports failure. *)
Lemma override_overflow_reports_failure :
  0 < 1000000000000
  /\ value_of (emergency_override sample_env "clock_tower"
                 (Some 1000000000000) "ambulance" empty_world)
     = Ok (ErrorReply (StrOfExn OverflowError) (Some "clock_tower"))
  /\ success (ErrorReply (StrOfExn OverflowError) (Some "clock_tower"))
     = false.
Proof. by_computation. Qed.

(** A Redis server that refuses every command does not make the override
    fail: the mirror and the event log are best effort. *)
Example override_succeeds_offline :
  value_of (emergency_override offline_env "clock_tower" (Some 60)
              "ambulance" empty_world)
  = Ok (OverrideReply "clock_tower" "green" 60 "ambulance"
          63900000000005000 63900000060006000)
  /\ redis_trace (world_of (emergency_override offline_env "clock_tower"
                              (Some 60) "ambulance" empty_world)) = [].
Proof. by_computation. Qed.

(** C2, as amended.  [emergency_override] does not validate its duration:
    for [d <= 0] the override is stored exactly as for a positive duration,
    the reply reports success whenever the estimated end time is a datetime,
    and the only failure it can report is the overflow of that end time. *)
Theorem override_nonpositive_duration_applied E id d reason w :
  d <= 0 ->
  let run := emergency_override E id (Some d) reason w in
  (exists nt,
      PyDict.get id (signal_states (world_of run))
      = Some (mkSignalState id "green" (override_now E id w) d true reason nt))
  /\ (representable (override_end_base E id w) d ->
      value_of run
      = Ok (OverrideReply id "green" d reason (override_start E id w)
              (override_end_base E id w + d * US_PER_SECOND)))
  /\ (value_of run
      = Ok (OverrideReply id "green" d reason (override_start E id w)
              (override_end_base E id w + d * US_PER_SECOND))
      \/ value_of run = Ok (ErrorReply (StrOfExn OverflowError) (Some id))).
Proof.
  intros _ run.
  destruct (override_run E id (Some d) reason w) as [V S]. fold run in V, S.
  simpl effective_duration in V, S.
  split; [|split].
  - eexists. rewrite S. apply PyDict.get_set_same.
  - intros Rp. rewrite V. unfold override_reply.
    now rewrite (end_time_representable _ _ Rp).
  - rewrite V. unfold override_reply.
    destruct (end_time (override_end_base E id w) d) as [et|e] eqn:T.
    + left. apply end_time_ok_inv in T. destruct T as [_ ->]. reflexivity.
    + right. unfold end_time, timedelta_of_seconds, datetime_add in T.
      destruct (_ <=? _); [|now inversion T].
      destruct (_ && _); [discriminate|now inversion T].
Qed.

Lemma override_nonpositive_duration_applied_witness :
  -5 <= 0
  /\ value_of (emergency_override sample_env "clock_tower" (Some (-5))
                 "ambulance" empty_world)
     = Ok (OverrideReply "clock_tower" "green" (-5) "ambulance"
             63900000000005000 63899999995006000).
Proof.
  split; [lia|].
  apply (override_nonpositive_duration_applied sample_env "clock_tower" (-5)
           "ambulance" empty_world ltac:(lia)).
  by_computation.
Defined.

(** C2 as stated fails: a duration of 0 is not rejected.  On the controller
    as [__init__] leaves it the call reports success and replaces the red
    record of the signal by a green override planned for 0 seconds. *)
Lemma override_zero_duration_accepted :
  0 <= 0
  /\ (let run := emergency_override sample_env "clock_tower" (Some 0)
                   "ambulance" (init_world sample_env) in
      (exists r, value_of run = Ok r /\ success r = true)
      /\ (exists s, PyDict.get "clock_tower"
                      (signal_states (init_world sample_env)) = Some s
                    /\ current_state s = "red"
                    /\ is_emergency_override s = false)
      /\ (exists s', PyDict.get "clock_tower" (signal_states (world_of run))
                     = Some s'
                     /\ current_state s' = "green"
                     /\ is_emergency_override s' = true
                     /\ remaining_time s' = 0)).
Proof.
  split; [lia|]. split; [|split]; eexists; by_computation.
Qed.

(** ** Restoring normal operation *)

(** C3.  In every world the controller can reach, restoring a signal that
    is in override succeeds and leaves it yellow (whatever phase was
    snapshotted, and never red), out of override, planned for the yellow
    duration of the controller's default timing, 5 seconds, whatever the
    record held as [normal_timing]: a timing profile that [update_timing]
    installed is not consulted, and the restored record holds no
    [normal_timing] and goes by the default timing. *)
Theorem restore_reenters_via_yellow E w id cur :
  reachable E w ->
  PyDict.get id (signal_states w) = Some cur ->
  is_emergency_override cur = true ->
  let run := restore_normal_operation E id w in
  value_of run = Ok (RestoreReply id "yellow" (utcnow_at E (4 + clock_reads w)))
  /\ (forall r, value_of run = Ok r -> success r = true)
  /\ exists s,
      PyDict.get id (signal_states (world_of run)) = Some s
      /\ current_state s = "yellow"
      /\ current_state s <> "red"
      /\ is_emergency_override s = false
      /\ state_start_time s = utcnow_at E (1 + clock_reads w)
      /\ remaining_time s = yellow_duration default_timing
      /\ remaining_time s = 5
      /\ normal_timing s = None
      /\ timing_of s = Ok default_timing.
Proof.
  intros Hr G Ov run.
  destruct (reachable_inv E w id cur Hr G) as (_ & _ & _ & Hm).
  rewrite Ov in Hm. destruct Hm as [_ NT].
  destruct (restore_yellow E id cur w G Ov NT) as [V S]. fold run in V, S.
  split; [exact V|]. split.
  - intros r Hv. rewrite V in Hv. now inversion Hv.
  - exists (restored_yellow id (utcnow_at E (1 + clock_reads w))).
    rewrite S, PyDict.get_set_same.
    repeat split; try reflexivity. discriminate.
Qed.

Lemma restore_reenters_via_yellow_witness :
  let w := run_ops sample_env [OpOverride "clock_tower" (Some 60) "ambulance"]
             (init_world sample_env) in
  exists cur,
    reachable sample_env w
    /\ PyDict.get "clock_tower" (signal_states w) = Some cur
    /\ is_emergency_override cur = true
    /\ value_of (restore_normal_operation sample_env "clock_tower" w)
       = Ok (RestoreReply "clock_tower" "yellow"
               (utcnow_at sample_env (4 + clock_reads w))).
Proof.
  intros w.
  assert (reachable sample_env w) as Hr.
  { exists (map OpCreate default_signals
            ++ [OpOverride "clock_tower" (Some 60) "ambulance"])%list.
    unfold w, init_world. rewrite run_ops_app.
    now rewrite <- create_all_run_ops. }
  eexists. split; [exact Hr|]. split; [by_computation|]. split; [reflexivity|].
  eapply (restore_reenters_via_yellow sample_env w "clock_tower" _ Hr).
  - by_computation.
  - reflexivity.
Defined.

(** C3 as stated fails for a signal that was given a timing of its own: the
    yellow of the restoration lasts the 5 seconds of the default timing, not
    the 6 seconds of the profile the record holds when it is restored. *)
Lemma restore_ignores_configured_yellow :
  let w := run_ops sample_env
             [OpOverride "clock_tower" (Some 60) "ambulance";
              OpUpdateTiming "clock_tower"
                [("red_duration", PyInt 50); ("yellow_duration", PyInt 6);
                 ("green_duration", PyInt 35)]]
             (init_world sample_env) in
  let run := restore_normal_operation sample_env "clock_tower" w in
  (exists cur,
      PyDict.get "clock_tower" (signal_states w) = Some cur
      /\ is_emergency_override cur = true
      /\ normal_timing cur
         = Some (timing_profile (mkSignalTiming 50 6 35 91)))
  /\ (exists r, value_of run = Ok r /\ success r = true)
  /\ exists s,
      PyDict.get "clock_tower" (signal_states (world_of run)) = Some s
      /\ current_state s = "yellow"
      /\ is_emergency_override s = false
      /\ remaining_time s = 5
      /\ remaining_time s <> 6.
Proof.
  intros w run. split; [|split].
  - eexists. by_computation.
  - eexists. by_computation.
  - eexists. split; [by_computation|]. simpl. repeat split. discriminate.
Qed.

(** C4.  Restoring a signal that does not exist, or that is not in override,
    reports failure with the matching message and leaves the world, and so
    every signal record, exactly as it was. *)
Theorem restore_without_override_fails E w id :
  PyDict.get id (signal_states w) = None
  \/ (exists cur, PyDict.get id (signal_states w) = Some cur
                  /\ is_emergency_override cur = false) ->
  exists msg,
    restore_normal_operation E id w = (Ok (ErrorReply (Message msg) None), w)
    /\ success (ErrorReply (Message msg) None) = false
    /\ (PyDict.get id (signal_states w) = None -> msg = "Signal not found")
    /\ (PyDict.get id (signal_states w) <> None ->
        msg = "Signal is not in emergency override").
Proof.
  intros [G|(cur & G & Ov)].
  - exists "Signal not found". rewrite restore_absent by exact G.
    repeat split; try reflexivity. congruence.
  - exists "Signal is not in emergency override".
    rewrite (restore_not_overridden E id cur w G Ov).
    repeat split; try reflexivity. congruence.
Qed.

Lemma restore_without_override_fails_witness :
  restore_normal_operation sample_env "clock_tower" (init_world sample_env)
  = (Ok (ErrorReply (Message "Signal is not in emergency override") None),
     init_world sample_env)
  /\ restore_normal_operation sample_env "nowhere" (init_world sample_env)
     = (Ok (ErrorReply (Message "Signal not found") None),
        init_world sample_env).
Proof.
  split.
  - destruct (restore_without_override_fails sample_env
                (init_world sample_env) "clock_tower")
      as (msg & Hrun & _ & _ & Hmsg).
    + right. eexists. by_computation.
    + rewrite Hrun, Hmsg; [reflexivity|]. by_computation.
  - destruct (restore_without_override_fails sample_env
                (init_world sample_env) "nowhere")
      as (msg & Hrun & _ & Hmsg & _).
    + left. by_computation.
    + rewrite Hrun, Hmsg; [reflexivity|]. by_computation.
Defined.

(** ** The green corridor *)

Lemma corridor_interval_floor route duration :
  10 <= corridor_interval route duration.
Proof. unfold corridor_interval. lia. Qed.

Lemma strictly_sorted_nondecreasing l :
  StronglySorted Z.lt l -> StronglySorted Z.le l.
Proof.
  induction 1 as [|a l _ IH F]; constructor; [exact IH|].
  eapply Forall_impl; [|exact F]. intros b Hb. lia.
Qed.

Lemma plan_head_delay start interval duration route p :
  0 < interval ->
  hd_error (plan_entries start interval duration 0 route) = Some p ->
  delay_from_start p = 0.
Proof.
  intros Hi H. destruct route as [|id route]; [discriminate|].
  unfold plan_entries in H. simpl in H.
  destruct (Z.ltb_spec 0 (Z.min 60 (duration - 0))) as [Pos|Neg]; simpl in H.
  - now inversion H.
  - fold (plan_entries start interval duration 1 route) in H.
    destruct (plan_entries start interval duration 1 route) as [|q l] eqn:Q;
      [discriminate|].
    inversion H; subst q.
    destruct (plan_entries_delays start interval duration route 1 p)
      as (j & Hj & _ & _ & Hg & _ & Hpos); [rewrite Q; now left|].
    nia.
Qed.

Lemma plan_head_present start interval duration id route :
  0 < duration ->
  hd_error (plan_entries start interval duration 0 (id :: route))
  = Some (mkPlanEntry id start (Z.min 60 duration) 0).
Proof.
  intros Hd. unfold plan_entries. simpl.
  destruct (Z.ltb_spec 0 (Z.min 60 (duration - 0))); [|lia]. simpl.
  unfold corridor_entry; simpl. do 2 f_equal; lia.
Qed.

(** C5, as amended.  For a non-empty route whose start times
    [start + i * interval] are all datetimes, the first loop of
    [coordinate_green_corridor] builds a plan with
    [interval = max(10, duration // n)]: every entry is the one of an index
    [j] of the route, delayed by [j * interval] and green for
    [min(60, duration - delay)] seconds, which is positive; every index with
    a positive green time has its entry; a first entry has delay 0, and
    there is one when the duration is positive; the delays do not decrease
    (they grow); and this is the plan of the reply when the end time
    [start + duration] is a datetime too.  In particular the route a, b
    with duration 60 gives a at delay 0 for 60 seconds and b at delay 30 for
    30 seconds. *)
Theorem corridor_plan_partition :
  (forall E route duration w,
      route <> [] ->
      let start := utcnow_at E (clock_reads w) in
      let interval := Z.max 10 (duration / Z.of_nat (List.length route)) in
      (forall j, (j < List.length route)%nat ->
                 representable start (Z.of_nat j * interval)) ->
      exists plan,
        value_of (build_plan E start interval duration 0 route (after_read w))
        = Ok plan
        /\ (forall p, In p plan ->
              exists j,
                nth_error route j = Some (plan_signal_id p)
                /\ delay_from_start p = Z.of_nat j * interval
                /\ plan_green_duration p
                   = Z.min 60 (duration - delay_from_start p)
                /\ green_start_time p
                   = start + delay_from_start p * US_PER_SECOND
                /\ 0 < plan_green_duration p)
        /\ (forall j id,
              nth_error route j = Some id ->
              0 < Z.min 60 (duration - Z.of_nat j * interval) ->
              In (mkPlanEntry id
                    (start + Z.of_nat j * interval * US_PER_SECOND)
                    (Z.min 60 (duration - Z.of_nat j * interval))
                    (Z.of_nat j * interval)) plan)
        /\ (forall p, hd_error plan = Some p -> delay_from_start p = 0)
        /\ (0 < duration ->
            exists p, hd_error plan = Some p
                      /\ Some (plan_signal_id p) = hd_error route
                      /\ delay_from_start p = 0)
        /\ StronglySorted Z.le (map delay_from_start plan)
        /\ StronglySorted Z.lt (map delay_from_start plan)
        /\ (representable start duration ->
            exists ok cid succ fail,
              value_of (coordinate_green_corridor E route duration w)
              = Ok (CorridorReply ok cid route plan succ fail start
                      (start + duration * US_PER_SECOND) duration)))
  /\ (forall E w,
         let start := utcnow_at E (clock_reads w) in
         representable start 0 -> representable start 30 ->
         value_of (build_plan E start (Z.max 10 (60 / Z.of_nat 2)) 60 0
                     ["a"; "b"] (after_read w))
         = Ok [mkPlanEntry "a" start 60 0;
               mkPlanEntry "b" (start + 30 * US_PER_SECOND) 30 30]).
Proof.
  split.
  - intros E route duration w NE start interval R.
    fold (corridor_interval route duration) in interval.
    assert (0 < interval) as Hi
        by (pose proof (corridor_interval_floor route duration); lia).
    exists (plan_entries start interval duration 0 route).
    split; [exact (build_plan_run E start interval duration route 0
                     (after_read w) R)|].
    split; [|split; [|split; [|split; [|split; [|split]]]]].
    + intros p I.
      destruct (plan_entries_delays start interval duration route 0 p I)
        as (j & _ & Hn & Hd & Hg & Hs & Hp).
      exists j. rewrite Nat.sub_0_r in Hn. rewrite Hd at 2.
      repeat split; assumption.
    + intros j id Hn Hp.
      apply (plan_entries_complete start interval duration route 0 j id Hn Hp).
    + intros p. now apply plan_head_delay.
    + intros Hd. destruct route as [|id route]; [congruence|].
      eexists. split; [now apply plan_head_present|]. split; reflexivity.
    + apply strictly_sorted_nondecreasing. now apply plan_entries_sorted.
    + now apply plan_entries_sorted.
    + intros Rd.
      pose proof (coordinate_run E route duration w NE R) as C.
      cbv zeta in C. fold start in C.
      rewrite (end_time_representable _ _ Rd) in C.
      do 4 eexists. exact C.
  - intros E w start R0 R30.
    assert (forall j, (j < List.length ["a"; "b"])%nat ->
                      representable start
                        (Z.of_nat (0 + j) * Z.max 10 (60 / Z.of_nat 2))) as R
        by (intros [|[|j]] Hj; simpl in Hj; [exact R0|exact R30|lia]).
    pose proof (build_plan_run E start (Z.max 10 (60 / Z.of_nat 2)) 60
                  ["a"; "b"] 0 (after_read w) R) as B.
    change (Z.of_nat 0) with 0 in B. rewrite B.
    unfold plan_entries, corridor_entry. simpl.
    do 3 f_equal. f_equal. lia.
Qed.

Lemma corridor_plan_partition_witness :
  (exists plan,
      value_of (build_plan sample_env (sample_clock 0) 30 60 0 ["a"; "b"]
                  (after_read empty_world)) = Ok plan
      /\ StronglySorted Z.le (map delay_from_start plan))
  /\ value_of (build_plan sample_env (sample_clock 0) 30 60 0 ["a"; "b"]
                 (after_read empty_world))
     = Ok [mkPlanEntry "a" (sample_clock 0) 60 0;
           mkPlanEntry "b" (sample_clock 0 + 30 * US_PER_SECOND) 30 30].
Proof.
  split.
  - destruct (proj1 corridor_plan_partition sample_env ["a"; "b"] 60
                empty_world)
      as (plan & V & _ & _ & _ & _ & Sle & _).
    + discriminate.
    + intros [|[|j]] Hj; [by_computation|by_computation|simpl in Hj; lia].
    + exists plan. split; assumption.
  - apply (proj2 corridor_plan_partition sample_env empty_world);
      by_computation.
Defined.

(** C5 as stated fails for durations that leave the range of [datetime]:
    with two signals and 10^15 seconds the second start time overflows, no
    plan is built and the reply is an error. *)
Lemma corridor_plan_overflow :
  value_of (build_plan sample_env (sample_clock 0)
              (Z.max 10 (1000000000000000 / Z.of_nat 2)) 1000000000000000 0
              ["a"; "b"] (after_read empty_world))
  = Raise OverflowError
  /\ value_of (coordinate_green_corridor sample_env ["a"; "b"]
                 1000000000000000 empty_world)
     = Ok (ErrorReply (StrOfExn OverflowError) None).
Proof. by_computation. Qed.

Lemma coordinated_In replies id :
  In id (coordinated replies)
  <-> exists p r, In (p, r) replies /\ success r = true
                  /\ plan_signal_id p = id.
Proof.
  unfold coordinated. rewrite in_map_iff. split.
  - intros ([p r] & <- & I). apply filter_In in I. now exists p, r.
  - intros (p & r & I & S & <-). exists (p, r). split; [reflexivity|].
    apply filter_In. now split.
Qed.

Lemma not_coordinated_In replies id err :
  In (id, err) (not_coordinated replies)
  <-> exists p r, In (p, r) replies /\ success r = false
                  /\ plan_signal_id p = id /\ error_of r = err.
Proof.
  unfold not_coordinated. rewrite in_map_iff. split.
  - intros ([p r] & H & I). apply filter_In in I. inversion H; subst.
    exists p, r. simpl in *. destruct I as [I S].
    apply negb_true_iff in S. now repeat split.
  - intros (p & r & I & S & <- & <-). exists (p, r). split; [reflexivity|].
    apply filter_In. split; [exact I|]. simpl. now rewrite S.
Qed.

Lemma call_replies_entries E n plan :
  forall w, map fst (call_replies E n plan w) = plan.
Proof.
  induction plan as [|p plan IH]; intros w; simpl; [reflexivity|].
  now rewrite IH.
Qed.

(** C6, as amended.  For a non-empty route whose start times and end time
    are datetimes, [coordinate_green_corridor] makes one call per plan
    entry, and its reply reports success exactly when one of these calls
    did, that is when [successful_coordinates] is not empty; that list holds
    the ids of the entries whose call reported success, and
    [failed_coordinates] the ids of the others with the error of their
    reply.  So a reply with both lists non-empty reports success. *)
Theorem corridor_success_iff_coordinated E route duration w :
  route <> [] ->
  let start := utcnow_at E (clock_reads w) in
  let interval := Z.max 10 (duration / Z.of_nat (List.length route)) in
  (forall j, (j < List.length route)%nat ->
             representable start (Z.of_nat j * interval)) ->
  representable start duration ->
  exists plan replies ok cid succ fail,
    value_of (build_plan E start interval duration 0 route (after_read w))
    = Ok plan
    /\ replies
       = call_replies E (List.length route) plan
           (world_of (build_plan E start interval duration 0 route
                        (after_read w)))
    /\ map fst replies = plan
    /\ (forall p w0,
          value_of (corridor_call E (List.length route) p w0)
          = Ok (call_reply E (List.length route) p w0))
    /\ value_of (coordinate_green_corridor E route duration w)
       = Ok (CorridorReply ok cid route plan succ fail start
               (start + duration * US_PER_SECOND) duration)
    /\ success (CorridorReply ok cid route plan succ fail start
                  (start + duration * US_PER_SECOND) duration) = ok
    /\ (ok = true <-> succ <> [])
    /\ (ok = true <-> exists p r, In (p, r) replies /\ success r = true)
    /\ (forall id,
          In id succ
          <-> exists p r, In (p, r) replies /\ success r = true
                          /\ plan_signal_id p = id)
    /\ (forall id err,
          In (id, err) fail
          <-> exists p r, In (p, r) replies /\ success r = false
                          /\ plan_signal_id p = id /\ error_of r = err).
Proof.
  intros NE start interval R Rd.
  fold (corridor_interval route duration) in interval.
  pose proof (coordinate_run E route duration w NE R) as C.
  cbv zeta in C. fold start in C.
  rewrite (end_time_representable _ _ Rd) in C.
  unfold planned_world, corridor_plan in C. fold start interval in C.
  set (plan := plan_entries start interval duration 0 route) in *.
  set (replies := call_replies E (List.length route) plan _) in *.
  exists plan, replies. do 4 eexists.
  split; [exact (build_plan_run E start interval duration route 0
                   (after_read w) R)|].
  split; [reflexivity|]. split; [apply call_replies_entries|].
  split; [intros p w0; apply corridor_call_run|].
  split; [exact C|]. split; [reflexivity|].
  split; [|split; [|split]].
  - destruct (coordinated replies); split; congruence.
  - rewrite <- coordinated_nonempty.
    destruct (coordinated replies); split; congruence.
  - intros id. apply coordinated_In.
  - intros id err. apply not_coordinated_In.
Qed.

Lemma corridor_success_iff_coordinated_witness :
  exists plan ok cid succ fail,
    value_of (coordinate_green_corridor sample_env ["a"; "b"] 60 empty_world)
    = Ok (CorridorReply ok cid ["a"; "b"] plan succ fail (sample_clock 0)
            (sample_clock 0 + 60 * US_PER_SECOND) 60)
    /\ (ok = true <-> succ <> []).
Proof.
  destruct (corridor_success_iff_coordinated sample_env ["a"; "b"] 60
              empty_world)
    as (plan & replies & ok & cid & succ & fail & _ & _ & _ & _ & C & _ & I
        & _).
  - discriminate.
  - intros [|[|j]] Hj; [by_computation|by_computation|simpl in Hj; lia].
  - by_computation.
  - exists plan, ok, cid, succ, fail. split; [exact C|exact I].
Defined.

(** C6 as stated fails when the end time overflows: with one signal and
    10^12 seconds the call for the only plan entry reports success and the
    signal is overridden, yet the reply of the corridor is an error. *)
Lemma corridor_overflow_after_override :
  let route := ["a"] in
  let duration := 1000000000000 in
  let start := sample_clock 0 in
  let interval := Z.max 10 (duration / Z.of_nat (List.length route)) in
  let built := build_plan sample_env start interval duration 0 route
                 (after_read empty_world) in
  value_of built = Ok [mkPlanEntry "a" start 60 0]
  /\ (exists r,
         call_replies sample_env 1 [mkPlanEntry "a" start 60 0]
           (world_of built)
         = [(mkPlanEntry "a" start 60 0, r)]
         /\ success r = true)
  /\ value_of (coordinate_green_corridor sample_env route duration
                 empty_world)
     = Ok (ErrorReply (StrOfExn OverflowError) None)
  /\ success (ErrorReply (StrOfExn OverflowError) None) = false.
Proof.
  cbv zeta. split; [by_computation|]. split; [|by_computation].
  eexists. by_computation.
Qed.

(** Partial success: with Redis down for the scheduled call only, the first
    signal is coordinated, the second is not, and the reply reports
    success. *)
Example corridor_partial_success :
  let E := mkEnv sample_clock (fun n => Nat.ltb n 6) 60 30 45 in
  exists plan,
    value_of (coordinate_green_corridor E ["a"; "b"] 60 empty_world)
    = Ok (CorridorReply true "corridor_1764403200" ["a"; "b"] plan ["a"]
            [("b", StrOfExn RedisError)] (sample_clock 0)
            (sample_clock 0 + 60 * US_PER_SECOND) 60).
Proof. eexists. by_computation. Qed.

(** ** The monitor loop *)

(** C7.  Let the clock not run backwards from [now] on, and let the
    durations be positive: the red duration of the settings and those of
    the signal's timing profile.  Then a second tick at the same [now]
    changes nothing: not the phase, not the start time, no record at all. *)
Theorem tick_twice_same_now E id now w :
  (forall k, (clock_reads w <= k)%nat -> now <= utcnow_at E k) ->
  0 < default_red_duration E ->
  (forall cur, PyDict.get id (signal_states w) = Some cur ->
               profile_positive (normal_timing cur)) ->
  let w1 := world_of (tick E id now w) in
  let w2 := world_of (tick E id now w1) in
  w2 = w1
  /\ signal_states w2 = signal_states w1
  /\ forall s1, PyDict.get id (signal_states w1) = Some s1 ->
       exists s2, PyDict.get id (signal_states w2) = Some s2
                  /\ current_state s2 = current_state s1
                  /\ state_start_time s2 = state_start_time s1.
Proof.
  intros Hclock Hred Hpos w1 w2.
  assert (w2 = w1) as H by (apply tick_twice_states; assumption).
  rewrite H. split; [reflexivity|]. split; [reflexivity|].
  intros s1 G. now exists s1.
Qed.

(** A red signal that is due turns green at the first tick and stays green
    at the second. *)
Lemma tick_twice_same_now_witness :
  let w := init_world minute_env in
  let now := minute_clock 19 in
  let w1 := world_of (tick minute_env "clock_tower" now w) in
  let w2 := world_of (tick minute_env "clock_tower" now w1) in
  (exists s, PyDict.get "clock_tower" (signal_states w) = Some s
             /\ current_state s = "red")
  /\ (exists s1, PyDict.get "clock_tower" (signal_states w1) = Some s1
                 /\ current_state s1 = "green")
  /\ w2 = w1.
Proof.
  intros w now w1 w2.
  split; [eexists; by_computation|]. split; [eexists; by_computation|].
  apply (tick_twice_same_now minute_env "clock_tower" now w).
  - intros k Hk. assert (clock_reads w = 20%nat) as C by reflexivity.
    rewrite C in Hk. unfold now, minute_env, minute_clock, utcnow_at. lia.
  - by_computation.
  - intros cur G. vm_compute in G. inversion G. by_computation.
Defined.

(** The two modes of a record, told apart by its flag. *)
Definition in_override_mode (s : SignalState) : Prop :=
  is_emergency_override s = true.
Definition in_normal_mode (s : SignalState) : Prop :=
  is_emergency_override s = false.

Lemma next_of_cycle phase timing :
  (phase = "red" -> next_of phase timing = ("green", green_duration timing))
  /\ (phase = "green" ->
      next_of phase timing = ("yellow", yellow_duration timing))
  /\ (phase = "yellow" -> next_of phase timing = ("red", red_duration timing)).
Proof. repeat split; intros ->; reflexivity. Qed.

(** C8.  Whatever calls were made on the controller, every signal record is
    red, yellow or green and is in exactly one of the two modes.  In override
    mode it is green and holds a [normal_timing]; in normal mode it has no
    override reason and a timing with positive durations, and a tick leaves
    it as it is when it is not due and otherwise moves it, still in normal
    mode, from red to green, from green to yellow and from yellow to red,
    planned for that phase's duration and started at the clock reading of
    the transition. *)
Theorem reachable_signal_mode_and_cycle E w id s :
  reachable E w ->
  PyDict.get id (signal_states w) = Some s ->
  (current_state s = "red" \/ current_state s = "yellow"
   \/ current_state s = "green")
  /\ (in_normal_mode s \/ in_override_mode s)
  /\ ~ (in_normal_mode s /\ in_override_mode s)
  /\ (in_override_mode s ->
      current_state s = "green" /\ normal_timing s <> None)
  /\ (in_normal_mode s ->
      override_reason s = ""
      /\ exists timing,
          timing_of s = Ok timing /\ positive_timing timing
          /\ forall now,
              exists s',
                PyDict.get id (signal_states (world_of (tick E id now w)))
                = Some s'
                /\ in_normal_mode s'
                /\ if due now s
                   then (current_state s = "red" ->
                         current_state s' = "green"
                         /\ remaining_time s' = green_duration timing)
                        /\ (current_state s = "green" ->
                            current_state s' = "yellow"
                            /\ remaining_time s' = yellow_duration timing)
                        /\ (current_state s = "yellow" ->
                            current_state s' = "red"
                            /\ remaining_time s' = red_duration timing)
                        /\ state_start_time s' = utcnow_at E (clock_reads w)
                   else s' = s).
Proof.
  intros Hr G.
  destruct (reachable_inv E w id s Hr G) as (_ & Hp & Hpos & Hm).
  unfold in_normal_mode, in_override_mode.
  split; [exact Hp|]. split; [destruct (is_emergency_override s); tauto|].
  split; [intros [H1 H2]; congruence|].
  split; [intros Ov; now rewrite Ov in Hm|].
  intros Ov. rewrite Ov in Hm. destruct Hm as [Hreason Hsnap].
  split; [exact Hreason|].
  assert (exists timing, timing_of s = Ok timing) as [timing T].
  { unfold timing_of, SignalTiming_of.
    destruct (normal_timing s) as [[t|? ? ?]|]; simpl in Hsnap;
      [eexists; reflexivity|tauto|eexists; reflexivity]. }
  exists timing. split; [exact T|].
  split; [now apply (timing_of_positive s)|].
  intros now. destruct (due now s) eqn:D.
  - exists (transitioned id s timing (utcnow_at E (clock_reads w))).
    rewrite (tick_due_normal E id now s w G D Ov).
    rewrite (transition_states E id s timing w G T), PyDict.get_set_same.
    split; [reflexivity|]. split; [reflexivity|].
    destruct (next_of_cycle (current_state s) timing) as (Hred & Hgreen & Hyel).
    unfold transitioned; simpl.
    split; [intros P; rewrite (Hred P); now split|].
    split; [intros P; rewrite (Hgreen P); now split|].
    split; [intros P; rewrite (Hyel P); now split|reflexivity].
  - exists s. rewrite tick_idle by (now rewrite G). simpl.
    split; [exact G|]. split; [exact Ov|reflexivity].
Qed.

Lemma reachable_signal_mode_and_cycle_witness :
  exists s,
    reachable sample_env (init_world sample_env)
    /\ PyDict.get "clock_tower" (signal_states (init_world sample_env))
       = Some s
    /\ (current_state s = "red" \/ current_state s = "yellow"
        \/ current_state s = "green").
Proof.
  eexists. split; [apply init_world_reachable|].
  split; [by_computation|].
  refine (proj1 (reachable_signal_mode_and_cycle sample_env
                   (init_world sample_env) "clock_tower" _
                   (init_world_reachable sample_env) _)).
  by_computation.
Defined.

(** ** Timing updates *)

(** C9, as amended.  A timing configuration with a required field missing
    or not a positive integer is rejected with a validation message; the
    call does what [_create_signal_if_not_exists] does and nothing else: no
    record that existed is modified, the world is untouched when the signal
    existed, and an unknown signal is created red with the default timing
    before the configuration is looked at. *)
Theorem update_timing_invalid_rejected E id timing_config w :
  invalid_timing_config timing_config ->
  let run := update_timing E id timing_config w in
  exists msg,
    value_of run = Ok (ErrorReply (Message msg) None)
    /\ success (ErrorReply (Message msg) None) = false
    /\ world_of run = world_of (_create_signal_if_not_exists E id w)
    /\ (PyDict.get id (signal_states w) <> None -> world_of run = w)
    /\ (forall id' s,
          PyDict.get id' (signal_states w) = Some s ->
          PyDict.get id' (signal_states (world_of run)) = Some s)
    /\ (PyDict.get id (signal_states w) = None ->
        PyDict.get id (signal_states (world_of run))
        = Some (mkSignalState id "red" (utcnow_at E (clock_reads w))
                  (default_red_duration E) false ""
                  (Some (asdict default_timing)))).
Proof.
  intros Inv run.
  destruct (validate_fields_rejects required_fields timing_config Inv)
    as [msg V].
  exists msg. unfold run.
  rewrite (update_timing_rejected E id timing_config _ w V).
  unfold value_of, world_of; simpl. fold (ensured E id w).
  split; [reflexivity|]. split; [reflexivity|]. split; [reflexivity|].
  split; [|split].
  - intros G. apply ensured_present. unfold PyDict.mem.
    now destruct (PyDict.get id (signal_states w)).
  - intros id' s G. destruct (String.eqb_spec id' id) as [->|N].
    + rewrite ensured_get. unfold ensured_record. now rewrite G.
    + now rewrite ensured_get_other.
  - intros G. rewrite ensured_get. unfold ensured_record. now rewrite G.
Qed.

Lemma update_timing_invalid_rejected_witness :
  let cfg := [("red_duration", PyInt 50); ("yellow_duration", PyInt 0);
              ("green_duration", PyInt 35)] in
  invalid_timing_config cfg
  /\ exists msg,
      update_timing sample_env "clock_tower" cfg (init_world sample_env)
      = (Ok (ErrorReply (Message msg) None), init_world sample_env).
Proof.
  intros cfg.
  assert (invalid_timing_config cfg) as Inv.
  { exists "yellow_duration". split; [simpl; tauto|]. simpl. lia. }
  split; [exact Inv|].
  destruct (update_timing_invalid_rejected sample_env "clock_tower" cfg
              (init_world sample_env) Inv)
    as (msg & V & _ & _ & W & _).
  exists msg.
  rewrite (run_eq (update_timing sample_env "clock_tower" cfg)
             (init_world sample_env)), V, W; [reflexivity|].
  by_computation.
Defined.

(** C9 as stated fails for an unknown signal: the empty configuration is
    rejected, but the signal has been created by then. *)
Lemma update_timing_invalid_creates_signal :
  let run := update_timing sample_env "new_signal" [] empty_world in
  invalid_timing_config []
  /\ value_of run
     = Ok (ErrorReply (Message "Missing required field: red_duration") None)
  /\ PyDict.get "new_signal" (signal_states empty_world) = None
  /\ PyDict.get "new_signal" (signal_states (world_of run))
     = Some (mkSignalState "new_signal" "red" (sample_clock 0) 45 false ""
               (Some (asdict default_timing))).
Proof.
  split; [|by_computation].
  exists "red_duration". split; [simpl; tauto|exact I].
Qed.

(** [True] is an [int] for the validation, which accepts it as a duration
    of 1. *)
Example update_timing_accepts_true :
  exists t,
    value_of (update_timing sample_env "clock_tower"
                [("red_duration", PyBool true); ("yellow_duration", PyInt 6);
                 ("green_duration", PyInt 35)] (init_world sample_env))
    = Ok (TimingReply "clock_tower" (mkSignalTiming 1 6 35 42) t).
Proof. eexists. by_computation. Qed.

(** ** The timing profile across an override *)

(** A record without a timing profile: it holds no [normal_timing] in normal
    mode, and a phase snapshot in override mode. *)
Definition profile_free (o : option SignalState) : Prop :=
  match o with
  | Some s =>
      if is_emergency_override s then is_snapshot (normal_timing s)
      else normal_timing s = None
  | None => False
  end.

Lemma sig_step_profile_free E (R : string -> Prop) id s1 s2 :
  ~ R id -> sig_step E R id s1 s2 -> profile_free s1 -> profile_free s2.
Proof.
  intros NR S. destruct S as [t|cur t d reason|cur t Ov NT|cur t Ov NT
                              |cur r y g HR _ _ _|cur timing t T]; simpl.
  - tauto.
  - unfold snapshot_of. destruct (is_emergency_override cur); simpl; tauto.
  - reflexivity.
  - reflexivity.
  - tauto.
  - unfold timing_of, SignalTiming_of in T.
    destruct (is_emergency_override cur);
      destruct (normal_timing cur) as [[?|? ? ?]|]; simpl;
      intros H; try discriminate; tauto.
Qed.

Lemma sig_steps_profile_free E (R : string -> Prop) id s1 s2 :
  ~ R id -> sig_steps E R id s1 s2 -> profile_free s1 -> profile_free s2.
Proof.
  intros NR. induction 1 as [|s1 s2 s3 _ IH S]; [auto|].
  intros H. eapply sig_step_profile_free; eauto.
Qed.

Lemma restore_success_yellow E id w r :
  value_of (restore_normal_operation E id w) = Ok r -> success r = true ->
  signal_states (world_of (restore_normal_operation E id w))
  = PyDict.set id (restored_yellow id (utcnow_at E (1 + clock_reads w)))
      (signal_states w).
Proof.
  intros V S.
  destruct (PyDict.get id (signal_states w)) as [cur|] eqn:G.
  - destruct (is_emergency_override cur) eqn:Ov.
    + destruct (normal_timing cur) as [nt|] eqn:NT.
      * eapply restore_yellow; eauto. congruence.
      * destruct (restore_red E id cur w G Ov NT) as [V' _].
        rewrite V' in V. inversion V; subst r. discriminate.
    + rewrite (restore_not_overridden E id cur w G Ov) in V.
      inversion V; subst r. discriminate.
  - rewrite (restore_absent E id w G) in V. inversion V; subst r. discriminate.
Qed.

(** C10.  (1) After a restore that reports success the record of the signal
    holds no [normal_timing], so that it goes by the default timing.
    (2) This lasts through every later call other than an [update_timing]
    for this signal: whenever the signal is in normal mode it still holds
    no [normal_timing], and a transition plans the next phase for its
    duration in the default timing.  (3) A timing profile held by a signal
    in normal mode is replaced by the phase snapshot when the signal is
    overridden, and the restore that follows succeeds and leaves no
    [normal_timing].  (4) A signal in override keeps what it holds as
    [normal_timing], a profile installed during the override included, when
    it is overridden again, and the restore that follows succeeds and leaves
    no [normal_timing]: no profile survives a restore. *)
Theorem restore_clears_timing_profile :
  (forall E id w r,
      value_of (restore_normal_operation E id w) = Ok r ->
      success r = true ->
      exists s,
        PyDict.get id
          (signal_states (world_of (restore_normal_operation E id w)))
        = Some s
        /\ normal_timing s = None
        /\ timing_of s = Ok default_timing)
  /\ (forall E id w r ops,
         value_of (restore_normal_operation E id w) = Ok r ->
         success r = true ->
         (forall op, In op ops -> ~ retimes op id) ->
         let w' := run_ops E ops
                     (world_of (restore_normal_operation E id w)) in
         exists s,
           PyDict.get id (signal_states w') = Some s
           /\ (in_normal_mode s ->
               normal_timing s = None
               /\ PyDict.get id
                    (signal_states
                       (world_of (_transition_to_next_state E id w')))
                  = Some (mkSignalState id
                            (fst (next_of (current_state s)
                                    default_timing))
                            (utcnow_at E (clock_reads w'))
                            (snd (next_of (current_state s)
                                    default_timing))
                            false "" None)))
  /\ (forall E id w s profile d reason,
         PyDict.get id (signal_states w) = Some s ->
         in_normal_mode s ->
         normal_timing s = Some (timing_profile profile) ->
         let w1 := world_of (emergency_override E id d reason w) in
         let run := restore_normal_operation E id w1 in
         (exists s1,
             PyDict.get id (signal_states w1) = Some s1
             /\ normal_timing s1
                = Some (phase_snapshot (current_state s) (remaining_time s)
                          (state_start_time s)))
         /\ (exists r, value_of run = Ok r /\ success r = true)
         /\ exists s2,
             PyDict.get id (signal_states (world_of run)) = Some s2
             /\ normal_timing s2 = None)
  /\ (forall E id w s nt d reason,
         PyDict.get id (signal_states w) = Some s ->
         is_emergency_override s = true ->
         normal_timing s = Some nt ->
         let w1 := world_of (emergency_override E id d reason w) in
         let run := restore_normal_operation E id w1 in
         (exists s1,
             PyDict.get id (signal_states w1) = Some s1
             /\ is_emergency_override s1 = true
             /\ normal_timing s1 = Some nt)
         /\ (exists r, value_of run = Ok r /\ success r = true)
         /\ exists s2,
             PyDict.get id (signal_states (world_of run)) = Some s2
             /\ normal_timing s2 = None).
Proof.
  split; [|split; [|split]].
  - intros E id w r V S. eexists.
    rewrite (restore_success_yellow E id w r V S), PyDict.get_set_same.
    repeat split.
  - intros E id w r ops V S NoRetime w'.
    set (w0 := world_of (restore_normal_operation E id w)) in *.
    assert (profile_free (PyDict.get id (signal_states w'))) as F.
    { eapply (sig_steps_profile_free E (fun id' => id' <> id) id).
      - intros H. now apply H.
      - apply run_ops_evolves. intros op id' I Rt ->.
        now apply (NoRetime op I).
      - unfold w0.
        rewrite (restore_success_yellow E id w r V S), PyDict.get_set_same.
        reflexivity. }
    destruct (PyDict.get id (signal_states w')) as [s|] eqn:G; [|destruct F].
    exists s. split; [reflexivity|]. intros Nm. unfold in_normal_mode in Nm.
    simpl in F. rewrite Nm in F. split; [exact F|].
    rewrite (transition_states E id s default_timing w' G)
      by (unfold timing_of; now rewrite F).
    rewrite PyDict.get_set_same. unfold transitioned. now rewrite F.
  - intros E id w s profile d reason G Nm NT w1 run.
    unfold in_normal_mode in Nm.
    destruct (override_run E id d reason w) as [_ S1]. fold w1 in S1.
    assert (ensured_record E id w = s) as Er
        by (unfold ensured_record; now rewrite G).
    rewrite Er in S1.
    set (s1 := overridden id s (override_now E id w)
                 (effective_duration E d) reason) in *.
    assert (PyDict.get id (signal_states w1) = Some s1) as G1
        by (rewrite S1; apply PyDict.get_set_same).
    assert (normal_timing s1
            = Some (phase_snapshot (current_state s) (remaining_time s)
                      (state_start_time s))) as NT1
        by (unfold s1, overridden, snapshot_of; simpl; now rewrite Nm).
    destruct (restore_yellow E id s1 w1 G1 eq_refl) as [V2 S2];
      [rewrite NT1; discriminate|].
    fold run in V2, S2.
    split; [exists s1; now split|].
    split; [eexists; split; [exact V2|reflexivity]|].
    eexists. rewrite S2, PyDict.get_set_same. now split.
  - intros E id w s nt d reason G Ov NT w1 run.
    destruct (override_run E id d reason w) as [_ S1]. fold w1 in S1.
    assert (ensured_record E id w = s) as Er
        by (unfold ensured_record; now rewrite G).
    rewrite Er in S1.
    set (s1 := overridden id s (override_now E id w)
                 (effective_duration E d) reason) in *.
    assert (PyDict.get id (signal_states w1) = Some s1) as G1
        by (rewrite S1; apply PyDict.get_set_same).
    assert (normal_timing s1 = Some nt) as NT1
        by (unfold s1, overridden, snapshot_of; simpl; now rewrite Ov).
    destruct (restore_yellow E id s1 w1 G1 eq_refl) as [V2 S2];
      [rewrite NT1; discriminate|].
    fold run in V2, S2.
    split; [exists s1; now repeat split|].
    split; [eexists; split; [exact V2|reflexivity]|].
    eexists. rewrite S2, PyDict.get_set_same. now split.
Qed.

Lemma restore_clears_timing_profile_witness :
  let w := run_ops sample_env
             [OpUpdateTiming "clock_tower"
                [("red_duration", PyInt 50); ("yellow_duration", PyInt 6);
                 ("green_duration", PyInt 35)];
              OpOverride "clock_tower" (Some 60) "ambulance"]
             (init_world sample_env) in
  exists s,
    PyDict.get "clock_tower"
      (signal_states
         (world_of (restore_normal_operation sample_env "clock_tower" w)))
    = Some s
    /\ normal_timing s = None.
Proof.
  intros w.
  destruct (proj1 restore_clears_timing_profile sample_env "clock_tower" w
              (RestoreReply "clock_tower" "yellow"
                 (utcnow_at sample_env (4 + clock_reads w))))
    as (s & G & NT & _).
  - by_computation.
  - reflexivity.
  - exists s. split; assumption.
Defined.

(** C10 as stated fails in two places.  A profile installed while the signal
    is in override is not overwritten by a snapshot at the next override,
    which takes none from a record in override; and after a restore the
    transitions go by the default timing only until [update_timing] is
    called again: here the red that follows the yellow of the restoration
    is planned for the 50 seconds of the new profile, not for the 45 of the
    default timing. *)
Lemma profile_kept_by_second_override_and_reinstalled_after_restore :
  let cfg := [("red_duration", PyInt 50); ("yellow_duration", PyInt 6);
                 ("green_duration", PyInt 35)] in
  let wa := run_ops sample_env
              [OpOverride "clock_tower" (Some 60) "ambulance";
               OpUpdateTiming "clock_tower" cfg;
               OpOverride "clock_tower" (Some 30) "fire truck"]
              (init_world sample_env) in
  let w0 := run_ops sample_env
              [OpOverride "clock_tower" (Some 60) "ambulance"]
              (init_world sample_env) in
  let restore := restore_normal_operation sample_env "clock_tower" w0 in
  let wb := run_ops sample_env
              [OpUpdateTiming "clock_tower" cfg; OpTransition "clock_tower"]
              (world_of restore) in
  (exists s,
      PyDict.get "clock_tower" (signal_states wa) = Some s
      /\ is_emergency_override s = true
      /\ remaining_time s = 30
      /\ normal_timing s
         = Some (timing_profile (mkSignalTiming 50 6 35 91)))
  /\ (exists r, value_of restore = Ok r /\ success r = true)
  /\ exists s,
      PyDict.get "clock_tower" (signal_states wb) = Some s
      /\ is_emergency_override s = false
      /\ current_state s = "red"
      /\ remaining_time s = 50
      /\ remaining_time s <> red_duration default_timing
      /\ normal_timing s
         = Some (timing_profile (mkSignalTiming 50 6 35 91)).
Proof.
  intros cfg wa w0 restore wb. split; [|split].
  - eexists. by_computation.
  - eexists. by_computation.
  - eexists. split; [by_computation|]. simpl.
    repeat split; try reflexivity. discriminate.
Qed.

(** * Further properties of the controller *)

(** ** Overrides that follow one another, and overrides that expire *)

(** X1.  An override of a signal that is in override already restarts the
    window: the new record carries the duration and the reason of the second
    call and the clock reading taken at it, and keeps the [normal_timing] the
    first call left (the snapshot is not taken again); no other signal
    changes. *)
Theorem override_again_restarts E id d1 r1 d2 r2 w :
  let w1 := world_of (emergency_override E id d1 r1 w) in
  let w2 := world_of (emergency_override E id d2 r2 w1) in
  exists s1,
    PyDict.get id (signal_states w1) = Some s1
    /\ is_emergency_override s1 = true
    /\ PyDict.get id (signal_states w2)
       = Some (mkSignalState id "green" (utcnow_at E (clock_reads w1))
                 (match d2 with
                  | Some d => d
                  | None => emergency_override_duration E
                  end) true r2 (normal_timing s1))
    /\ forall id', id' <> id ->
         PyDict.get id' (signal_states w2) = PyDict.get id' (signal_states w1).
Proof.
  intros w1 w2.
  destruct (override_run E id d1 r1 w) as [_ S1]. fold w1 in S1.
  destruct (override_run E id d2 r2 w1) as [_ S2]. fold w2 in S2.
  set (s1 := overridden id (ensured_record E id w) (override_now E id w)
               (effective_duration E d1) r1) in *.
  assert (PyDict.get id (signal_states w1) = Some s1) as G1
      by (rewrite S1; apply PyDict.get_set_same).
  assert (ensured E id w1 = w1) as En
      by (apply ensured_present; unfold PyDict.mem; now rewrite G1).
  assert (ensured_record E id w1 = s1) as Er
      by (unfold ensured_record; now rewrite G1).
  unfold override_now in S2. rewrite En, Er in S2.
  exists s1. split; [exact G1|]. split; [reflexivity|]. split.
  - rewrite S2, PyDict.get_set_same. unfold overridden, effective_duration.
    destruct d2; reflexivity.
  - intros id' N. rewrite S2. now apply PyDict.get_set_other.
Qed.

(** X2.  In a world the controller can reach, the tick of a signal in
    override does nothing before the override is due, and when it is due it
    ends the override: the signal is yellow for the default yellow duration,
    in normal mode and without [normal_timing], and no other signal
    changes. *)
Theorem override_expires_to_yellow E w id s now :
  reachable E w ->
  PyDict.get id (signal_states w) = Some s ->
  is_emergency_override s = true ->
  let w' := world_of (tick E id now w) in
  if due now s
  then PyDict.get id (signal_states w')
       = Some (mkSignalState id "yellow" (utcnow_at E (1 + clock_reads w))
                 (yellow_duration default_timing) false "" None)
       /\ forall id', id' <> id ->
            PyDict.get id' (signal_states w')
            = PyDict.get id' (signal_states w)
  else w' = w.
Proof.
  intros Hr G Ov w'. destruct (due now s) eqn:D.
  - destruct (reachable_inv E w id s Hr G) as (_ & _ & _ & Hm).
    rewrite Ov in Hm. destruct Hm as [_ NT].
    destruct (restore_yellow E id s w G Ov NT) as [_ S].
    unfold w'. rewrite (tick_due_override E id now s w G D Ov), S. split.
    + apply PyDict.get_set_same.
    + intros id' N. now apply PyDict.get_set_other.
  - unfold w'. rewrite tick_idle; [reflexivity|]. now rewrite G.
Qed.

Lemma override_expires_to_yellow_witness :
  let w := run_ops minute_env [OpOverride "clock_tower" (Some 60) "ambulance"]
             (init_world minute_env) in
  PyDict.get "clock_tower"
    (signal_states (world_of (tick minute_env "clock_tower"
                                (minute_clock 25) w)))
  = Some (mkSignalState "clock_tower" "yellow" (minute_clock 26) 5 false ""
            None).
Proof.
  intros w.
  assert (reachable minute_env w) as Hr.
  { exists (map OpCreate default_signals
            ++ [OpOverride "clock_tower" (Some 60) "ambulance"])%list.
    unfold w, init_world. rewrite run_ops_app.
    now rewrite <- create_all_run_ops. }
  set (s := mkSignalState "clock_tower" "green" (minute_clock 20) 60 true
              "ambulance" (Some (phase_snapshot "red" 45 (minute_clock 0)))).
  assert (PyDict.get "clock_tower" (signal_states w) = Some s) as G
      by by_computation.
  assert (due (minute_clock 25) s = true) as D by by_computation.
  pose proof (override_expires_to_yellow minute_env w "clock_tower" s
                (minute_clock 25) Hr G eq_refl) as H.
  cbv zeta in H. rewrite D in H. destruct H as [H _]. rewrite H.
  by_computation.
Defined.

(** ** Signals are kept *)

Lemma sig_steps_from_some E (R : string -> Prop) id s o :
  sig_steps E R id (Some s) o -> exists s', o = Some s'.
Proof.
  intros H. remember (Some s) as o1 eqn:Eo.
  induction H as [o0|o1 o2 o3 _ _ S]; subst.
  - now exists s.
  - destruct S; eexists; reflexivity.
Qed.

(** X3.  No sequence of calls removes a signal: a key of [signal_states]
    stays one. *)
Theorem signals_are_never_deleted E ops w id s :
  PyDict.get id (signal_states w) = Some s ->
  exists s', PyDict.get id (signal_states (run_ops E ops w)) = Some s'.
Proof.
  intros G.
  pose proof (run_ops_evolves E (fun _ => True) ops (fun _ _ _ _ => I) w id)
    as S.
  rewrite G in S. now apply sig_steps_from_some in S.
Qed.

Lemma signals_are_never_deleted_witness :
  exists s',
    PyDict.get "clock_tower"
      (signal_states
         (run_ops sample_env
            [OpOverride "clock_tower" (Some 60) "ambulance";
             OpRestore "clock_tower"; OpMonitor]
            (init_world sample_env))) = Some s'.
Proof.
  eapply (signals_are_never_deleted sample_env _ (init_world sample_env)
            "clock_tower").
  by_computation.
Defined.

(** ** Stored timing profiles *)

(** A timing profile whose durations are positive and add up to its cycle
    time. *)
Definition profile_consistent (nt : option NormalTiming) : Prop :=
  match nt with
  | Some (timing_profile t) =>
      positive_timing t
      /\ cycle_time t = red_duration t + yellow_duration t + green_duration t
  | _ => True
  end.

Definition opt_profile_consistent (o : option SignalState) : Prop :=
  match o with
  | Some s => profile_consistent (normal_timing s)
  | None => True
  end.

Lemma sig_step_profile_consistent E (R : string -> Prop) id s1 s2 :
  sig_step E R id s1 s2 ->
  opt_profile_consistent s1 -> opt_profile_consistent s2.
Proof.
  intros S. destruct S as [t|cur t d reason|cur t Ov NT|cur t Ov NT
                           |cur r y g _ Pr Py Pg|cur timing t T]; simpl.
  - intros _. unfold positive_timing; simpl. lia.
  - unfold snapshot_of. destruct (is_emergency_override cur); simpl; tauto.
  - tauto.
  - tauto.
  - intros _. unfold positive_timing; simpl. lia.
  - tauto.
Qed.

(** X4.  In every world the controller can reach, a record is stored under
    its own [signal_id], and a timing profile it holds has positive
    durations and a cycle time that is their sum. *)
Theorem stored_profiles_are_consistent E w id s :
  reachable E w ->
  PyDict.get id (signal_states w) = Some s ->
  signal_id s = id
  /\ forall t, normal_timing s = Some (timing_profile t) ->
       0 < red_duration t /\ 0 < yellow_duration t /\ 0 < green_duration t
       /\ cycle_time t = red_duration t + yellow_duration t + green_duration t.
Proof.
  intros Hr G. split; [apply (reachable_inv E w id s Hr G)|].
  destruct Hr as (ops & ->).
  pose proof (run_ops_evolves E (fun _ => True) ops (fun _ _ _ _ => I)
                empty_world id) as S.
  rewrite G in S.
  assert (opt_profile_consistent (Some s)) as C.
  { clear G. revert S. generalize (Some s).
    change (PyDict.get id (signal_states empty_world)) with (@None SignalState).
    intros o S. remember None as o0 eqn:Eo.
    induction S as [|s1 s2 s3 _ IH St]; [subst; exact I|].
    eapply sig_step_profile_consistent; [exact St|]. now apply IH. }
  intros t NT. simpl in C. rewrite NT in C. simpl in C.
  unfold positive_timing in C. tauto.
Qed.

Lemma stored_profiles_are_consistent_witness :
  exists s,
    PyDict.get "clock_tower"
      (signal_states
         (run_ops sample_env
            [OpUpdateTiming "clock_tower"
               [("red_duration", PyInt 50); ("yellow_duration", PyInt 6);
                ("green_duration", PyInt 35)]]
            (init_world sample_env))) = Some s
    /\ signal_id s = "clock_tower".
Proof.
  eexists. split; [by_computation|].
  eapply (stored_profiles_are_consistent sample_env).
  - exists (map OpCreate default_signals
            ++ [OpUpdateTiming "clock_tower"
                  [("red_duration", PyInt 50); ("yellow_duration", PyInt 6);
                   ("green_duration", PyInt 35)]])%list.
    rewrite run_ops_app. unfold init_world.
    now rewrite <- create_all_run_ops.
  - by_computation.
Defined.

(** ** Timing updates that are accepted *)

Lemma validate_fields_all_positive timing_config r y g :
  field_value timing_config "red_duration" = Ok r ->
  field_value timing_config "yellow_duration" = Ok y ->
  field_value timing_config "green_duration" = Ok g ->
  0 < r -> 0 < y -> 0 < g ->
  validate_fields required_fields timing_config = None.
Proof.
  unfold field_value, required_fields. simpl. intros Fr Fy Fg Pr Py Pg.
  destruct (PyDict.get "red_duration" timing_config) as [vr|]; [|discriminate].
  destruct (as_int vr) as [zr|]; [|discriminate]. inversion Fr; subst zr.
  destruct (Z.leb_spec r 0); [lia|].
  destruct (PyDict.get "yellow_duration" timing_config) as [vy|];
    [|discriminate].
  destruct (as_int vy) as [zy|]; [|discriminate]. inversion Fy; subst zy.
  destruct (Z.leb_spec y 0); [lia|].
  destruct (PyDict.get "green_duration" timing_config) as [vg|];
    [|discriminate].
  destruct (as_int vg) as [zg|]; [|discriminate]. inversion Fg; subst zg.
  destruct (Z.leb_spec g 0); [lia|]. reflexivity.
Qed.

Lemma update_timing_record E id timing_config r y g w :
  field_value timing_config "red_duration" = Ok r ->
  field_value timing_config "yellow_duration" = Ok y ->
  field_value timing_config "green_duration" = Ok g ->
  0 < r -> 0 < y -> 0 < g ->
  PyDict.get id (signal_states (world_of (update_timing E id timing_config w)))
  = Some (retimed (ensured_record E id w) r y g).
Proof.
  intros Fr Fy Fg Pr Py Pg.
  pose proof (validate_fields_all_positive _ r y g Fr Fy Fg Pr Py Pg) as V.
  destruct (update_timing_accepted E id timing_config w V)
    as (r' & y' & g' & Fr' & Fy' & Fg' & _ & _ & _ & _ & Hs).
  rewrite Fr in Fr'. rewrite Fy in Fy'. rewrite Fg in Fg'.
  inversion Fr'; inversion Fy'; inversion Fg'; subst r' y' g'.
  rewrite Hs. apply PyDict.get_set_same.
Qed.

(** X5.  A timing configuration whose three durations are positive integers
    is accepted: the reply reports the new timing with the sum of the
    durations as cycle time, the record of the signal (created first when
    the id was unknown) gets that timing as its [normal_timing] and keeps
    its phase, start time, planned time, mode and reason, and no other
    signal changes. *)
Theorem update_timing_installs_profile E id timing_config r y g w :
  field_value timing_config "red_duration" = Ok r ->
  field_value timing_config "yellow_duration" = Ok y ->
  field_value timing_config "green_duration" = Ok g ->
  0 < r -> 0 < y -> 0 < g ->
  let run := update_timing E id timing_config w in
  let cur := ensured_record E id w in
  (exists t,
      value_of run = Ok (TimingReply id (mkSignalTiming r y g (r + y + g)) t))
  /\ (forall reply, value_of run = Ok reply -> success reply = true)
  /\ PyDict.get id (signal_states (world_of run))
     = Some (mkSignalState (signal_id cur) (current_state cur)
               (state_start_time cur) (remaining_time cur)
               (is_emergency_override cur) (override_reason cur)
               (Some (timing_profile (mkSignalTiming r y g (r + y + g)))))
  /\ (forall s, PyDict.get id (signal_states w) = Some s -> cur = s)
  /\ forall id', id' <> id ->
       PyDict.get id' (signal_states (world_of run))
       = PyDict.get id' (signal_states w).
Proof.
  intros Fr Fy Fg Pr Py Pg run cur.
  pose proof (validate_fields_all_positive _ r y g Fr Fy Fg Pr Py Pg) as V.
  destruct (update_timing_accepted E id timing_config w V)
    as (r' & y' & g' & Fr' & Fy' & Fg' & _ & _ & _ & Hv & Hs).
  rewrite Fr in Fr'. rewrite Fy in Fy'. rewrite Fg in Fg'.
  inversion Fr'; inversion Fy'; inversion Fg'; subst r' y' g'.
  fold run in Hv, Hs. fold cur in Hs.
  split; [eexists; exact Hv|]. split.
  - intros reply Hr. rewrite Hv in Hr. now inversion Hr.
  - split; [rewrite Hs; apply PyDict.get_set_same|]. split.
    + intros s G. unfold cur, ensured_record. now rewrite G.
    + intros id' N. rewrite Hs, PyDict.get_set_other by exact N.
      now apply ensured_get_other.
Qed.

Lemma update_timing_installs_profile_witness :
  exists t,
    value_of (update_timing sample_env "clock_tower"
                [("red_duration", PyInt 50); ("yellow_duration", PyInt 6);
                 ("green_duration", PyInt 35)] (init_world sample_env))
    = Ok (TimingReply "clock_tower" (mkSignalTiming 50 6 35 (50 + 6 + 35)) t).
Proof.
  apply (update_timing_installs_profile sample_env "clock_tower"
           [("red_duration", PyInt 50); ("yellow_duration", PyInt 6);
            ("green_duration", PyInt 35)] 50 6 35 (init_world sample_env));
    by_computation.
Defined.

(** X6.  A new timing takes effect at the next transition, not on the
    running phase: right after an accepted [update_timing] the phase and its
    planned time are as before, and the transition that follows plans the
    next phase for its duration in the new timing (green after red, yellow
    after green, red after anything else), in normal mode. *)
Theorem update_timing_applies_at_next_transition E id timing_config r y g w s :
  PyDict.get id (signal_states w) = Some s ->
  field_value timing_config "red_duration" = Ok r ->
  field_value timing_config "yellow_duration" = Ok y ->
  field_value timing_config "green_duration" = Ok g ->
  0 < r -> 0 < y -> 0 < g ->
  let w1 := world_of (update_timing E id timing_config w) in
  let w2 := world_of (_transition_to_next_state E id w1) in
  (exists s1,
      PyDict.get id (signal_states w1) = Some s1
      /\ current_state s1 = current_state s
      /\ remaining_time s1 = remaining_time s
      /\ state_start_time s1 = state_start_time s)
  /\ exists s2,
      PyDict.get id (signal_states w2) = Some s2
      /\ is_emergency_override s2 = false
      /\ state_start_time s2 = utcnow_at E (clock_reads w1)
      /\ normal_timing s2
         = Some (timing_profile (mkSignalTiming r y g (r + y + g)))
      /\ (current_state s = "red" ->
          current_state s2 = "green" /\ remaining_time s2 = g)
      /\ (current_state s = "green" ->
          current_state s2 = "yellow" /\ remaining_time s2 = y)
      /\ (current_state s <> "red" -> current_state s <> "green" ->
          current_state s2 = "red" /\ remaining_time s2 = r).
Proof.
  intros G Fr Fy Fg Pr Py Pg w1 w2.
  pose proof (update_timing_record E id timing_config r y g w
                Fr Fy Fg Pr Py Pg) as G1.
  assert (ensured_record E id w = s) as Hcur
      by (unfold ensured_record; now rewrite G).
  fold w1 in G1. rewrite Hcur in G1.
  unfold retimed, with_normal_timing, asdict in G1.
  split; [eexists; split; [exact G1|]; repeat split|].
  set (s1 := mkSignalState _ _ _ _ _ _ _) in G1.
  assert (timing_of s1 = Ok (mkSignalTiming r y g (r + y + g))) as T
      by reflexivity.
  pose proof (transition_states E id s1 _ w1 G1 T) as S2. fold w2 in S2.
  eexists. rewrite S2, PyDict.get_set_same.
  split; [reflexivity|]. split; [reflexivity|]. split; [reflexivity|].
  split; [reflexivity|]. unfold transitioned, next_of; simpl.
  split; [intros ->; simpl; now split|].
  split; [intros ->; simpl; now split|].
  intros Nr Ng. apply String.eqb_neq in Nr, Ng. rewrite Nr, Ng. now split.
Qed.

Lemma update_timing_applies_at_next_transition_witness :
  let cfg := [("red_duration", PyInt 50); ("yellow_duration", PyInt 6);
              ("green_duration", PyInt 35)] in
  let w1 := world_of (update_timing sample_env "clock_tower" cfg
                        (init_world sample_env)) in
  exists s2,
    PyDict.get "clock_tower"
      (signal_states
         (world_of (_transition_to_next_state sample_env "clock_tower" w1)))
    = Some s2
    /\ current_state s2 = "green" /\ remaining_time s2 = 35.
Proof.
  intros cfg w1.
  assert (PyDict.get "clock_tower" (signal_states (init_world sample_env))
          = Some (mkSignalState "clock_tower" "red" (sample_clock 0) 45 false
                    "" (Some (asdict default_timing)))) as G
      by by_computation.
  destruct (update_timing_applies_at_next_transition sample_env "clock_tower"
              cfg 50 6 35 (init_world sample_env) _ G eq_refl eq_refl eq_refl
              eq_refl eq_refl eq_refl)
    as (_ & s2 & G2 & _ & _ & _ & Hred & _).
  exists s2. split; [exact G2|]. now apply Hred.
Defined.

(** ** Lazy creation *)

(** X7.  [_create_signal_if_not_exists] never resets a signal: when the id
    is known the world stays as it is, so that creating twice is creating
    once; when it is unknown the new record is red, in normal mode, planned
    for the default red duration with the default timing, and no other
    signal changes. *)
Theorem create_is_idempotent E id w :
  let w1 := world_of (_create_signal_if_not_exists E id w) in
  world_of (_create_signal_if_not_exists E id w1) = w1
  /\ (forall s, PyDict.get id (signal_states w) = Some s -> w1 = w)
  /\ (PyDict.get id (signal_states w) = None ->
      PyDict.get id (signal_states w1)
      = Some (mkSignalState id "red" (utcnow_at E (clock_reads w))
                (default_red_duration E) false ""
                (Some (timing_profile default_timing))))
  /\ forall id', id' <> id ->
       PyDict.get id' (signal_states w1) = PyDict.get id' (signal_states w).
Proof.
  intros w1. fold (ensured E id w) in w1. fold (ensured E id w1).
  split; [|split; [|split]].
  - apply ensured_present. unfold PyDict.mem, w1. now rewrite ensured_get.
  - intros s G. apply ensured_present. unfold PyDict.mem. now rewrite G.
  - intros G. unfold w1. rewrite ensured_get. unfold ensured_record.
    now rewrite G.
  - intros id' N. now apply ensured_get_other.
Qed.

(** ** Invariants of the world along a computation *)

Section Preserving.
Variable E : Env.
Variable Inv : World -> Prop.

(** The computation keeps [Inv], whether it returns or raises. *)
Definition preserving {A} (m : M A) : Prop :=
  forall w, Inv w -> Inv (world_of (m w)).

(** [Inv] looks at [signal_states] only. *)
Definition states_only : Prop :=
  forall w w', signal_states w' = signal_states w -> Inv w -> Inv w'.

Lemma preserving_ret {A} (a : A) : preserving (ret a).
Proof. intros w H. exact H. Qed.

Lemma preserving_lift {A} (r : Result A) : preserving (lift r).
Proof. intros w H. exact H. Qed.

Lemma preserving_raise {A} (e : exn) : preserving (@raise A e).
Proof. intros w H. exact H. Qed.

Lemma preserving_get_states : preserving get_states.
Proof. intros w H. exact H. Qed.

Lemma preserving_getitem id : preserving (getitem id).
Proof.
  intros w H. unfold getitem, world_of.
  now destruct (PyDict.get id (signal_states w)).
Qed.

Lemma preserving_bind {A B} (m : M A) (k : A -> M B) :
  preserving m -> (forall a, preserving (k a)) -> preserving (bind m k).
Proof.
  intros Hm Hk w H. unfold bind, world_of. specialize (Hm w H).
  unfold world_of in Hm. destruct (m w) as [[a|e] w1]; simpl in *.
  - now apply Hk.
  - exact Hm.
Qed.

Lemma preserving_try {A} (m : M A) (h : exn -> M A) :
  preserving m -> (forall e, preserving (h e)) -> preserving (try_except m h).
Proof.
  intros Hm Hh w H. unfold try_except, world_of. specialize (Hm w H).
  unfold world_of in Hm. destruct (m w) as [[a|e] w1]; simpl in *.
  - exact Hm.
  - now apply Hh.
Qed.

Lemma preserving_for_each {A} (f : A -> M unit) (l : list A) :
  (forall a, preserving (f a)) -> preserving (for_each f l).
Proof.
  intros Hf. induction l as [|a l IH]; simpl.
  - apply preserving_ret.
  - apply preserving_bind; [apply Hf|intros _; exact IH].
Qed.

Hypothesis Inv_states_only : states_only.

Lemma preserving_utcnow : preserving (utcnow E).
Proof. intros w H. now apply (Inv_states_only w). Qed.

Lemma preserving_redis_call c : preserving (redis_call E c).
Proof.
  intros w H. apply (Inv_states_only w); [|exact H].
  unfold redis_call, world_of. now destruct (redis_up E (redis_calls w)).
Qed.

Lemma preserving_update_redis id : preserving (_update_redis_state E id).
Proof.
  intros w H. apply (Inv_states_only w); [|exact H].
  fold (mirrored E id w). apply mirrored_states.
Qed.

Lemma preserving_log id ty d : preserving (_log_signal_event E id ty d).
Proof.
  intros w H. apply (Inv_states_only w); [|exact H].
  fold (logged E id ty d w). apply logged_states.
Qed.

Lemma preserving_schedule id start duration reason :
  preserving (_schedule_signal_override E id start duration reason).
Proof.
  unfold _schedule_signal_override.
  apply preserving_try; [|intros e; apply preserving_ret].
  apply preserving_bind; [apply preserving_redis_call|].
  intros _. apply preserving_ret.
Qed.

(** Writers: [Inv] survives every assignment to [signal_states]. *)
Hypothesis Inv_setitem :
  forall id s w, Inv w -> Inv (world_of (setitem id s w)).

Lemma preserving_setitem id s : preserving (setitem id s).
Proof. intros w. apply Inv_setitem. Qed.

Lemma preserving_create id : preserving (_create_signal_if_not_exists E id).
Proof.
  unfold _create_signal_if_not_exists.
  apply preserving_bind; [apply preserving_get_states|intros states].
  destruct (PyDict.mem id states); [apply preserving_ret|].
  apply preserving_bind; [apply preserving_utcnow|intros now].
  apply preserving_bind; [apply preserving_setitem|intros _].
  apply preserving_update_redis.
Qed.

Lemma preserving_override id duration reason :
  preserving (emergency_override E id duration reason).
Proof.
  unfold emergency_override.
  apply preserving_try; [|intros e; apply preserving_ret].
  apply preserving_bind; [apply preserving_create|intros _].
  apply preserving_bind; [apply preserving_getitem|intros cur].
  apply preserving_bind.
  { destruct (negb (is_emergency_override cur)); [|apply preserving_ret].
    apply preserving_bind; [apply preserving_setitem|intros _].
    apply preserving_ret. }
  intros cur'.
  apply preserving_bind; [apply preserving_utcnow|intros now].
  apply preserving_bind; [apply preserving_setitem|intros _].
  apply preserving_bind; [apply preserving_update_redis|intros _].
  apply preserving_bind; [apply preserving_log|intros _].
  apply preserving_bind; [apply preserving_utcnow|intros t1].
  apply preserving_bind; [apply preserving_utcnow|intros t2].
  apply preserving_bind; [apply preserving_lift|intros d].
  apply preserving_bind; [apply preserving_lift|intros et].
  apply preserving_ret.
Qed.

Lemma preserving_restore id : preserving (restore_normal_operation E id).
Proof.
  unfold restore_normal_operation.
  apply preserving_try; [|intros e; apply preserving_ret].
  apply preserving_bind; [apply preserving_get_states|intros states].
  destruct (negb (PyDict.mem id states)); [apply preserving_ret|].
  apply preserving_bind; [apply preserving_getitem|intros cur].
  destruct (negb (is_emergency_override cur)); [apply preserving_ret|].
  apply preserving_bind.
  { destruct (normal_timing cur).
    - apply preserving_bind; [apply preserving_utcnow|intros t].
      apply preserving_bind; [apply preserving_utcnow|intros now].
      apply preserving_bind; [apply preserving_setitem|intros _].
      apply preserving_ret.
    - apply preserving_bind; [apply preserving_utcnow|intros now].
      apply preserving_bind; [apply preserving_setitem|intros _].
      apply preserving_ret. }
  intros od.
  apply preserving_bind; [apply preserving_update_redis|intros _].
  apply preserving_bind;
    [destruct od; [apply preserving_ret|apply preserving_raise]|intros d].
  apply preserving_bind; [apply preserving_log|intros _].
  apply preserving_bind; [apply preserving_getitem|intros restored].
  apply preserving_bind; [apply preserving_utcnow|intros t].
  apply preserving_ret.
Qed.

Lemma preserving_update_timing id timing_config :
  preserving (update_timing E id timing_config).
Proof.
  unfold update_timing.
  apply preserving_try; [|intros e; apply preserving_ret].
  apply preserving_bind; [apply preserving_create|intros _].
  destruct (validate_fields required_fields timing_config);
    [apply preserving_ret|].
  apply preserving_bind; [apply preserving_lift|intros r].
  apply preserving_bind; [apply preserving_lift|intros y].
  apply preserving_bind; [apply preserving_lift|intros g].
  apply preserving_bind; [apply preserving_getitem|intros cur].
  apply preserving_bind; [apply preserving_setitem|intros _].
  apply preserving_bind; [apply preserving_update_redis|intros _].
  apply preserving_bind; [apply preserving_log|intros _].
  apply preserving_bind; [apply preserving_utcnow|intros t].
  apply preserving_ret.
Qed.

Lemma preserving_transition id :
  preserving (_transition_to_next_state E id).
Proof.
  unfold _transition_to_next_state.
  apply preserving_try; [|intros e; apply preserving_ret].
  apply preserving_bind; [apply preserving_getitem|intros cur].
  apply preserving_bind;
    [destruct (normal_timing cur); [apply preserving_lift|apply preserving_ret]
    |intros timing].
  apply preserving_bind; [apply preserving_utcnow|intros now].
  apply preserving_bind; [apply preserving_setitem|intros _].
  apply preserving_update_redis.
Qed.

End Preserving.

(** The calls on the controller keep every invariant that the clock, the
    event log, the scheduling note and the five writers keep. *)
Section PreservingCalls.
Variable E : Env.
Variable Inv : World -> Prop.
Hypothesis keep_utcnow : preserving Inv (utcnow E).
Hypothesis keep_log :
  forall id ty d, preserving Inv (_log_signal_event E id ty d).
Hypothesis keep_schedule :
  forall id start duration reason,
    preserving Inv (_schedule_signal_override E id start duration reason).
Hypothesis keep_create :
  forall id, preserving Inv (_create_signal_if_not_exists E id).
Hypothesis keep_override :
  forall id duration reason,
    preserving Inv (emergency_override E id duration reason).
Hypothesis keep_restore :
  forall id, preserving Inv (restore_normal_operation E id).
Hypothesis keep_update_timing :
  forall id timing_config, preserving Inv (update_timing E id timing_config).
Hypothesis keep_transition :
  forall id, preserving Inv (_transition_to_next_state E id).

Lemma preserving_build_plan start interval duration route :
  forall i, preserving Inv (build_plan E start interval duration i route).
Proof.
  induction route as [|id route IH]; intros i; simpl.
  - apply preserving_ret.
  - apply preserving_bind; [apply keep_create|intros _].
    apply preserving_bind; [apply preserving_lift|intros d].
    apply preserving_bind; [apply preserving_lift|intros g].
    apply preserving_bind; [apply IH|intros plan]. apply preserving_ret.
Qed.

Lemma preserving_execute_plan n plan : preserving Inv (execute_plan E n plan).
Proof.
  induction plan as [|p plan IH]; simpl.
  - apply preserving_ret.
  - apply preserving_bind.
    + destruct (delay_from_start p =? 0);
        [apply keep_override|apply keep_schedule].
    + intros r.
      apply preserving_bind; [exact IH|intros ?; apply preserving_ret].
Qed.

Lemma preserving_coordinate route duration :
  preserving Inv (coordinate_green_corridor E route duration).
Proof.
  unfold coordinate_green_corridor.
  apply preserving_try; [|intros e; apply preserving_ret].
  destruct route as [|id route]; [apply preserving_ret|].
  apply preserving_bind; [apply keep_utcnow|intros start].
  apply preserving_bind; [apply preserving_build_plan|intros plan].
  apply preserving_bind; [apply preserving_execute_plan|intros r].
  apply preserving_bind; [apply keep_log|intros _].
  apply preserving_bind; [apply preserving_lift|intros d].
  apply preserving_bind; [apply preserving_lift|intros et].
  apply preserving_ret.
Qed.

Lemma preserving_monitor_step now item :
  preserving Inv (monitor_step E now item).
Proof.
  unfold monitor_step.
  destruct (seconds_geb _ _); [|apply preserving_ret].
  destruct (is_emergency_override _); [|apply keep_transition].
  apply preserving_bind; [apply keep_restore|intros _].
  apply preserving_ret.
Qed.

Lemma preserving_monitor_iteration : preserving Inv (monitor_iteration E).
Proof.
  unfold monitor_iteration.
  apply preserving_try; [|intros e; apply preserving_ret].
  apply preserving_bind; [apply keep_utcnow|intros now].
  apply preserving_bind; [apply preserving_get_states|intros items].
  apply preserving_for_each. intros item. apply preserving_monitor_step.
Qed.

Lemma preserving_tick id now : preserving Inv (tick E id now).
Proof.
  unfold tick. apply preserving_bind; [apply preserving_get_states|intros s].
  destruct (PyDict.get id s);
    [apply preserving_monitor_step|apply preserving_ret].
Qed.

Lemma preserving_run_op op : forall w, Inv w -> Inv (run_op E op w).
Proof.
  destruct op; simpl.
  - apply keep_create.
  - apply keep_override.
  - apply keep_restore.
  - apply keep_update_timing.
  - apply preserving_coordinate.
  - apply keep_transition.
  - apply preserving_tick.
  - apply preserving_monitor_iteration.
Qed.

Lemma preserving_run_ops ops : forall w, Inv w -> Inv (run_ops E ops w).
Proof.
  induction ops as [|op ops IH]; intros w H; simpl; [exact H|].
  apply IH. now apply preserving_run_op.
Qed.
End PreservingCalls.

(** An invariant of [signal_states] alone that survives every assignment is
    kept by every sequence of calls. *)
Lemma states_invariant_run_ops E (Inv : World -> Prop) :
  states_only Inv ->
  (forall id s w, Inv w -> Inv (world_of (setitem id s w))) ->
  forall ops w, Inv w -> Inv (run_ops E ops w).
Proof.
  intros Hso Hset. apply preserving_run_ops.
  - now apply preserving_utcnow.
  - intros. now apply preserving_log.
  - intros. now apply preserving_schedule.
  - intros. now apply preserving_create.
  - intros. now apply preserving_override.
  - intros. now apply preserving_restore.
  - intros. now apply preserving_update_timing.
  - intros. now apply preserving_transition.
Qed.


(** ** The keys of [signal_states] *)

Definition keys {V} (d : PyDict.dict V) : list string := map fst d.

Lemma get_none_not_key {V} k (d : PyDict.dict V) :
  PyDict.get k d = None <-> ~ In k (keys d).
Proof.
  induction d as [|[k' v'] d IH]; simpl; [tauto|].
  destruct (String.eqb_spec k k') as [->|N].
  - split; [discriminate|]. intros H. exfalso. apply H. now left.
  - rewrite IH. split.
    + intros H [Heq|HI]; [now apply N|now apply H].
    + intros H HI. apply H. now right.
Qed.

Lemma keys_set {V} k (v : V) d :
  keys (PyDict.set k v d)
  = if PyDict.mem k d then keys d else (keys d ++ [k])%list.
Proof.
  unfold PyDict.mem. induction d as [|[k' v'] d IH]; simpl; [reflexivity|].
  destruct (String.eqb_spec k k') as [->|N]; simpl; [reflexivity|].
  rewrite IH. now destruct (PyDict.get k d).
Qed.

Lemma nodup_keys_set {V} k (v : V) d :
  NoDup (keys d) -> NoDup (keys (PyDict.set k v d)).
Proof.
  intros H. rewrite keys_set. unfold PyDict.mem.
  destruct (PyDict.get k d) eqn:G; [exact H|].
  apply get_none_not_key in G.
  apply NoDup_app; [exact H|repeat constructor; simpl; tauto|].
  intros x Hx [<-|[]]. now apply G.
Qed.

Lemma get_some_in {V} k (v : V) d : PyDict.get k d = Some v -> In (k, v) d.
Proof.
  induction d as [|[k' v'] d IH]; simpl; [discriminate|].
  destruct (String.eqb_spec k k') as [->|N].
  - intros H. inversion H. now left.
  - intros H. right. now apply IH.
Qed.

Lemma in_get_some {V} k (v : V) d :
  NoDup (keys d) -> In (k, v) d -> PyDict.get k d = Some v.
Proof.
  induction d as [|[k' v'] d IH]; simpl; [tauto|].
  intros ND [Heq|HI].
  - inversion Heq; subst. now rewrite String.eqb_refl.
  - inversion ND as [|? ? Hn Hd]; subst.
    destruct (String.eqb_spec k k') as [->|N].
    + exfalso. apply Hn. change k' with (fst (k', v)). now apply in_map.
    + now apply IH.
Qed.

Lemma reachable_keys_nodup E w :
  reachable E w -> NoDup (keys (signal_states w)).
Proof.
  intros (ops & ->).
  apply (states_invariant_run_ops E
           (fun w => NoDup (keys (signal_states w)))).
  - intros w w' H. now rewrite H.
  - intros id s w H. simpl. now apply nodup_keys_set.
  - constructor.
Qed.

(** ** One turn of the monitor loop *)

Section MonitorLoop.
Variable E : Env.

Lemma restore_clock id w :
  (clock_reads w <= clock_reads (world_of (restore_normal_operation E id w)))%nat.
Proof.
  destruct (PyDict.get id (signal_states w)) as [cur|] eqn:G.
  2:{ now rewrite restore_absent. }
  destruct (is_emergency_override cur) eqn:Ov.
  2:{ now rewrite (restore_not_overridden E id cur w G Ov). }
  unfold restore_normal_operation, try_except, bind, get_states, getitem,
    PyDict.mem.
  repeat (rewrite G; simpl). rewrite Ov; simpl.
  destruct (normal_timing cur) as [nt|]; simpl.
  - rewrite update_redis_run; simpl. rewrite log_event_run; simpl.
    settle. lia.
  - rewrite update_redis_run; simpl. settle. lia.
Qed.

Lemma restore_value id w :
  exists r, value_of (restore_normal_operation E id w) = Ok r.
Proof.
  unfold restore_normal_operation, try_except, value_of.
  match goal with |- context [bind ?m ?k w] => destruct (bind m k w) as [[r|e] w'] end;
    eexists; reflexivity.
Qed.

Lemma transition_clock id w :
  (clock_reads w
   <= clock_reads (world_of (_transition_to_next_state E id w)))%nat.
Proof.
  unfold _transition_to_next_state, try_except, bind, getitem.
  destruct (PyDict.get id (signal_states w)) as [cur|]; [|simpl; lia].
  destruct (normal_timing cur) as [[t|s r st]|]; simpl; try lia;
    rewrite update_redis_run; simpl; settle; lia.
Qed.

(** What the loop body makes of the record [s] of the signal [id], with the
    clock reading [t] it takes. *)
Definition monitor_outcome (now : datetime) (id : string)
    (s : SignalState) (t : datetime) (s' : SignalState) : Prop :=
  if due now s then
    if is_emergency_override s then
      match normal_timing s with
      | Some _ => s' = restored_yellow id t
      | None => s' = restored_red E id t
      end
    else
      match timing_of s with
      | Ok timing => s' = transitioned id s timing t
      | Raise _ => s' = s
      end
  else s' = s.

Lemma monitor_step_run now id s w :
  PyDict.get id (signal_states w) = Some s ->
  let w1 := world_of (monitor_step E now (id, s) w) in
  value_of (monitor_step E now (id, s) w) = Ok tt
  /\ (clock_reads w <= clock_reads w1)%nat
  /\ exists s' k,
      (clock_reads w <= k)%nat
      /\ monitor_outcome now id s (utcnow_at E k) s'
      /\ signal_states w1 = PyDict.set id s' (signal_states w).
Proof.
  intros G w1. unfold w1, monitor_step, monitor_outcome, due. simpl.
  destruct (seconds_geb (datetime_sub now (state_start_time s))
              (remaining_time s)).
  2:{ split; [reflexivity|]. split; [simpl; lia|].
      exists s, (clock_reads w). split; [lia|]. split; [reflexivity|].
      simpl. symmetry. now apply PyDict.set_get_id. }
  destruct (is_emergency_override s) eqn:Ov.
  - split.
    { unfold bind, value_of.
      destruct (restore_value id w) as [r Hr]. unfold value_of in Hr.
      destruct (restore_normal_operation E id w) as [[r'|e] w']; simpl in *;
        [reflexivity|discriminate]. }
    rewrite world_of_then_ret. split; [apply restore_clock|].
    destruct (normal_timing s) as [nt|] eqn:NT.
    + eexists. exists (1 + clock_reads w)%nat. split; [lia|].
      split; [reflexivity|].
      eapply restore_yellow; eauto. congruence.
    + eexists. exists (clock_reads w). split; [lia|].
      split; [reflexivity|].
      eapply restore_red; eauto.
  - split; [apply transition_run|]. split; [apply transition_clock|].
    destruct (timing_of s) as [timing|e] eqn:T.
    + eexists. exists (clock_reads w). split; [lia|].
      split; [reflexivity|]. now apply transition_states.
    + exists s, (clock_reads w). split; [lia|]. split; [reflexivity|].
      rewrite transition_stuck.
      * symmetry. now apply PyDict.set_get_id.
      * rewrite G. unfold timing_of, SignalTiming_of in *.
        destruct (normal_timing s) as [[?|? ? ?]|]; congruence.
Qed.

Lemma for_each_monitor_step now items :
  forall w,
    NoDup (keys items) ->
    (forall id s, In (id, s) items ->
                  PyDict.get id (signal_states w) = Some s) ->
    let w' := world_of (for_each (monitor_step E now) items w) in
    value_of (for_each (monitor_step E now) items w) = Ok tt
    /\ (clock_reads w <= clock_reads w')%nat
    /\ (forall id s, In (id, s) items ->
          exists s' k,
            (clock_reads w <= k)%nat
            /\ monitor_outcome now id s (utcnow_at E k) s'
            /\ PyDict.get id (signal_states w') = Some s')
    /\ (forall id, ~ In id (keys items) ->
          PyDict.get id (signal_states w') = PyDict.get id (signal_states w))
    /\ keys (signal_states w') = keys (signal_states w).
Proof.
  induction items as [|[id0 s0] items IH]; intros w ND Hin.
  - simpl. repeat split; try tauto. lia.
  - inversion ND as [|? ? Hn Hd]; subst.
    assert (PyDict.get id0 (signal_states w) = Some s0) as G0
        by (apply Hin; now left).
    destruct (monitor_step_run now id0 s0 w G0)
      as (V0 & C0 & s0' & k0 & Hk0 & O0 & S0).
    set (w1 := world_of (monitor_step E now (id0, s0) w)) in *.
    assert (forall id s, In (id, s) items ->
                         PyDict.get id (signal_states w1) = Some s) as Hin1.
    { intros id s HI. rewrite S0, PyDict.get_set_other.
      - apply Hin. now right.
      - intros ->. apply Hn. change id0 with (fst (id0, s)).
        now apply in_map. }
    destruct (IH w1 Hd Hin1) as (V1 & C1 & Hout & Hother & Hkeys).
    assert (for_each (monitor_step E now) ((id0, s0) :: items) w
            = for_each (monitor_step E now) items w1) as Run.
    { simpl. unfold bind. rewrite (run_eq (monitor_step E now (id0, s0)) w), V0.
      reflexivity. }
    cbv zeta. rewrite Run.
    split; [exact V1|]. split; [lia|]. split; [|split].
    + intros id s [Heq|HI].
      * inversion Heq; subst id s. exists s0', k0.
        split; [exact Hk0|]. split; [exact O0|].
        rewrite (Hother id0 Hn), S0. apply PyDict.get_set_same.
      * destruct (Hout id s HI) as (s' & k & Hk & O & G').
        exists s', k. split; [lia|]. now split.
    + intros id Hnot. rewrite Hother by (intros H; apply Hnot; now right).
      rewrite S0. apply PyDict.get_set_other.
      intros ->. apply Hnot. now left.
    + rewrite Hkeys, S0, keys_set. unfold PyDict.mem. now rewrite G0.
Qed.

Lemma monitor_iteration_run w :
  world_of (monitor_iteration E w)
  = world_of (for_each (monitor_step E (utcnow_at E (clock_reads w)))
                (signal_states w) (after_read w)).
Proof.
  unfold monitor_iteration, try_except, bind, utcnow, get_states, world_of.
  simpl. fold (after_read w).
  now destruct (for_each _ _ _) as [[a|e] w'].
Qed.
End MonitorLoop.

(** X8.  One turn of the monitor loop, in a world the controller can reach,
    reads the clock once and handles every signal with that reading [now]:
    a record that is not due stays as it is; an override that is due ends
    in yellow for the default yellow duration, in normal mode and without
    [normal_timing]; a record in normal mode that is due moves to its next
    phase with that phase's duration in its timing.  The start time of a new
    record is a later clock reading, and the turn neither adds nor removes
    nor reorders keys. *)
Theorem monitor_turn_handles_every_signal E w id s :
  reachable E w ->
  PyDict.get id (signal_states w) = Some s ->
  let now := utcnow_at E (clock_reads w) in
  let w' := world_of (monitor_iteration E w) in
  keys (signal_states w') = keys (signal_states w)
  /\ exists s',
      PyDict.get id (signal_states w') = Some s'
      /\ (due now s = false -> s' = s)
      /\ (due now s = true -> is_emergency_override s = true ->
          exists k, (clock_reads w < k)%nat
                    /\ s' = mkSignalState id "yellow" (utcnow_at E k)
                              (yellow_duration default_timing) false "" None)
      /\ (due now s = true -> is_emergency_override s = false ->
          exists timing k,
            (clock_reads w < k)%nat
            /\ timing_of s = Ok timing
            /\ s' = mkSignalState id
                      (fst (next_of (current_state s) timing))
                      (utcnow_at E k)
                      (snd (next_of (current_state s) timing)) false ""
                      (normal_timing s)).
Proof.
  intros Hr G now w'.
  pose proof (reachable_keys_nodup E w Hr) as ND.
  destruct (for_each_monitor_step E now (signal_states w) (after_read w) ND)
    as (_ & _ & Hout & _ & Hkeys).
  { intros id1 s1 HI. simpl. now apply in_get_some. }
  unfold w'. rewrite monitor_iteration_run. fold now.
  split; [exact Hkeys|].
  destruct (Hout id s (get_some_in _ _ _ G)) as (s' & k & Hk & O & G').
  simpl in Hk. exists s'. split; [exact G'|].
  destruct (reachable_inv E w id s Hr G) as (_ & _ & _ & Hm).
  unfold monitor_outcome in O.
  split; [intros D; now rewrite D in O|]. split.
  - intros D Ov. rewrite D, Ov in O. rewrite Ov in Hm. destruct Hm as [_ NT].
    destruct (normal_timing s); [|congruence].
    exists k. split; [lia|exact O].
  - intros D Ov. rewrite D, Ov in O. rewrite Ov in Hm.
    destruct Hm as [_ Hsnap].
    destruct (timing_of s) as [timing|e] eqn:T.
    + exists timing, k. split; [lia|]. split; [reflexivity|exact O].
    + exfalso. unfold timing_of, SignalTiming_of in T.
      destruct (normal_timing s) as [[?|? ? ?]|]; simpl in Hsnap;
        try discriminate. tauto.
Qed.

Lemma monitor_turn_handles_every_signal_witness :
  let w := init_world minute_env in
  exists s',
    PyDict.get "clock_tower"
      (signal_states (world_of (monitor_iteration minute_env w))) = Some s'
    /\ exists timing k,
        (clock_reads w < k)%nat
        /\ Ok default_timing = Ok timing
        /\ s' = mkSignalState "clock_tower" "green" (utcnow_at minute_env k)
                  (green_duration timing) false ""
                  (Some (asdict default_timing)).
Proof.
  intros w.
  destruct (monitor_turn_handles_every_signal minute_env w "clock_tower"
              (mkSignalState "clock_tower" "red" (minute_clock 0) 45 false ""
                 (Some (asdict default_timing))))
    as (_ & s' & G' & _ & _ & Hn).
  - apply init_world_reachable.
  - by_computation.
  - exists s'. split; [exact G'|]. apply Hn; by_computation.
Defined.

(** ** Which signals a corridor touches *)

Lemma preserving_bind_post {A B} (Inv : World -> Prop) (Q : A -> Prop)
    (m : M A) (k : A -> M B) :
  preserving Inv m ->
  (forall w a, value_of (m w) = Ok a -> Q a) ->
  (forall a, Q a -> preserving Inv (k a)) ->
  preserving Inv (bind m k).
Proof.
  intros Hm HQ Hk w H. unfold bind, world_of.
  specialize (Hm w H). specialize (HQ w). unfold world_of, value_of in *.
  destruct (m w) as [[a|e] w1]; simpl in *.
  - apply Hk; [now apply HQ|exact Hm].
  - exact Hm.
Qed.

(** A plan that was built is the plan of the partition rule, whatever the
    range of the dates. *)
Lemma build_plan_value E start interval duration route :
  forall i w plan,
    value_of (build_plan E start interval duration (Z.of_nat i) route w)
    = Ok plan ->
    plan = plan_entries start interval duration i route.
Proof.
  induction route as [|id route IH]; intros i w plan V.
  - inversion V. reflexivity.
  - simpl build_plan in V. unfold bind in V. rewrite create_run in V.
    unfold lift in V.
    destruct (end_time start (Z.of_nat i * interval)) as [gs|e] eqn:T.
    2:{ unfold end_time in T.
        destruct (timedelta_of_seconds (Z.of_nat i * interval)) as [td|e'];
          [rewrite T in V|]; discriminate. }
    destruct (end_time_ok_inv _ _ _ T) as [_ ->]. unfold end_time in T.
    destruct (timedelta_of_seconds (Z.of_nat i * interval)) as [td|e'];
      [|discriminate].
    rewrite T in V.
    replace (Z.of_nat i + 1) with (Z.of_nat (S i)) in V by lia.
    specialize (IH (S i) (ensured E id w)). unfold value_of in *.
    destruct (build_plan E start interval duration (Z.of_nat (S i)) route
                (ensured E id w)) as [[rest|e] w1]; [|discriminate].
    specialize (IH rest eq_refl). subst rest. simpl in V. inversion V.
    unfold plan_entries. simpl.
    now destruct (0 <? Z.min 60 (duration - Z.of_nat i * interval)).
Qed.

Section CorridorFrame.
Variable E : Env.
Variable id' : string.
Variable o : option SignalState.

(** The record under [id'] is the one [o] that was there, or, when there
    was none, none or a freshly created one. *)
Definition kept_or_created (w : World) : Prop :=
  match o with
  | Some s => PyDict.get id' (signal_states w) = Some s
  | None =>
      PyDict.get id' (signal_states w) = None
      \/ exists t, PyDict.get id' (signal_states w) = Some (created E id' t)
  end.

Lemma kept_or_created_states_only : states_only kept_or_created.
Proof. intros w w' H. unfold kept_or_created. now rewrite H. Qed.

Lemma kept_or_created_create id :
  preserving kept_or_created (_create_signal_if_not_exists E id).
Proof.
  intros w H. fold (ensured E id w). unfold kept_or_created in *.
  destruct (String.eqb_spec id' id) as [->|N].
  - rewrite ensured_get. unfold ensured_record.
    destruct o as [s|].
    + now rewrite H.
    + destruct H as [H|[t H]]; rewrite H; [right; eexists|right; exists t];
        reflexivity.
  - now rewrite ensured_get_other.
Qed.

Lemma kept_or_created_override id duration reason :
  id <> id' ->
  preserving kept_or_created (emergency_override E id duration reason).
Proof.
  intros N w H.
  assert (PyDict.get id'
            (signal_states (world_of (emergency_override E id duration
                                        reason w)))
          = PyDict.get id' (signal_states (ensured E id w))) as F.
  { destruct (override_run E id duration reason w) as [_ S].
    rewrite S. apply PyDict.get_set_other. congruence. }
  pose proof (kept_or_created_create id w H) as H1.
  fold (ensured E id w) in H1. unfold kept_or_created in *. now rewrite F.
Qed.

Lemma kept_or_created_build_plan start interval duration route :
  forall i,
    preserving kept_or_created (build_plan E start interval duration i route).
Proof.
  induction route as [|id route IH]; intros i; simpl.
  - apply preserving_ret.
  - apply preserving_bind; [apply kept_or_created_create|intros _].
    apply preserving_bind; [apply preserving_lift|intros d].
    apply preserving_bind; [apply preserving_lift|intros g].
    apply preserving_bind; [apply IH|intros plan]. apply preserving_ret.
Qed.

Lemma kept_or_created_execute_plan n plan :
  (forall p, In p plan -> delay_from_start p = 0 -> plan_signal_id p <> id') ->
  preserving kept_or_created (execute_plan E n plan).
Proof.
  induction plan as [|p plan IH]; intros Hp; simpl.
  - apply preserving_ret.
  - apply preserving_bind.
    + destruct (Z.eqb_spec (delay_from_start p) 0) as [D|D].
      * apply kept_or_created_override. apply Hp; [now left|exact D].
      * apply (preserving_schedule E _ kept_or_created_states_only).
    + intros r. apply preserving_bind; [|intros ?; apply preserving_ret].
      apply IH. intros q Hq. apply Hp. now right.
Qed.

Lemma kept_or_created_coordinate route duration :
  hd_error route <> Some id' ->
  preserving kept_or_created (coordinate_green_corridor E route duration).
Proof.
  intros Hhd. unfold coordinate_green_corridor.
  apply preserving_try; [|intros e; apply preserving_ret].
  destruct route as [|id0 route0] eqn:Rt; [apply preserving_ret|].
  rewrite <- Rt in *.
  apply preserving_bind;
    [apply (preserving_utcnow E _ kept_or_created_states_only)|intros start].
  apply (preserving_bind_post kept_or_created
           (fun plan =>
              forall p, In p plan -> delay_from_start p = 0 ->
                        plan_signal_id p <> id')).
  - apply kept_or_created_build_plan.
  - intros w plan V p Hin D.
    apply (build_plan_value E start _ duration route 0%nat) in V. subst plan.
    destruct (plan_entries_delays start _ duration route 0 p Hin)
      as (j & _ & Hn & Hd & _).
    fold (corridor_interval route duration) in Hd.
    pose proof (corridor_interval_floor route duration) as Hfloor.
    assert (j = 0%nat) as -> by nia.
    rewrite Rt in Hn, Hhd. simpl in Hn, Hhd. congruence.
  - intros plan Hplan.
    apply preserving_bind; [now apply kept_or_created_execute_plan|intros r].
    apply preserving_bind;
      [apply (preserving_log E _ kept_or_created_states_only)|intros _].
    apply preserving_bind; [apply preserving_lift|intros d].
    apply preserving_bind; [apply preserving_lift|intros et].
    apply preserving_ret.
Qed.
End CorridorFrame.

(** X9.  A corridor overrides no signal but the first of its route: the
    calls for the later entries only leave a note in Redis.  Whatever the
    route and the duration, and whether the coordination succeeds or not, a
    signal other than the first of the route keeps the record it had; when
    it had none it is left without one or with the red record of a lazy
    creation. *)
Theorem corridor_overrides_first_signal_only E route duration w id' :
  hd_error route <> Some id' ->
  let w' := world_of (coordinate_green_corridor E route duration w) in
  (forall s, PyDict.get id' (signal_states w) = Some s ->
             PyDict.get id' (signal_states w') = Some s)
  /\ (PyDict.get id' (signal_states w) = None ->
      PyDict.get id' (signal_states w') = None
      \/ exists t,
          PyDict.get id' (signal_states w')
          = Some (mkSignalState id' "red" t (default_red_duration E) false ""
                    (Some (asdict default_timing)))).
Proof.
  intros Hhd w'.
  pose proof (kept_or_created_coordinate E id'
                (PyDict.get id' (signal_states w)) route duration Hhd w) as K.
  fold w' in K. unfold kept_or_created in K.
  destruct (PyDict.get id' (signal_states w)) as [s|] eqn:G.
  - specialize (K eq_refl). split; [intros s0 H; congruence|discriminate].
  - specialize (K (or_introl eq_refl)). split; [discriminate|]. intros _.
    exact K.
Qed.

Lemma corridor_overrides_first_signal_only_witness :
  let w' := world_of (coordinate_green_corridor sample_env
                        ["clock_tower"; "paltan_bazaar"] 60
                        (init_world sample_env)) in
  PyDict.get "paltan_bazaar" (signal_states w')
  = Some (mkSignalState "paltan_bazaar" "red" (sample_clock 2) 45 false ""
            (Some (asdict default_timing)))
  /\ exists s, PyDict.get "clock_tower" (signal_states w') = Some s
               /\ is_emergency_override s = true.
Proof.
  intros w'. split.
  - apply (corridor_overrides_first_signal_only sample_env
             ["clock_tower"; "paltan_bazaar"] 60 (init_world sample_env)
             "paltan_bazaar").
    + discriminate.
    + by_computation.
  - eexists. by_computation.
Defined.

(** * The timing advisers *)

From Stdlib Require Import QArith.
Local Open Scope Z_scope.

(** A value of a JSON document as Python's [json] module parses it.  A
    finite float is the rational it denotes; arrays and objects are kept
    as their text. *)
Inductive jsonval : Type :=
| JNull
| JBool (b : bool)
| JInt (z : Z)
| JFloat (q : Q)
| JNaN
| JInfinity (negative : bool)
| JStr (s : string)
| JArray (text : string)
| JObject (text : string).

(** [x > c] for a float or int constant [c]: numbers (and booleans, which
    are ints) are compared exactly, NaN is greater than nothing, and
    anything else raises [TypeError]. *)
Definition gt_constant (x : jsonval) (c : Q) : Result bool :=
  match x with
  | JBool b => Ok (negb (Qle_bool (inject_Z (if b then 1 else 0)) c))
  | JInt z => Ok (negb (Qle_bool (inject_Z z) c))
  | JFloat q => Ok (negb (Qle_bool q c))
  | JNaN => Ok false
  | JInfinity negative => Ok (negb negative)
  | _ => Raise TypeError
  end.

(** The float literals 0.8 and 0.5 as binary64 numbers. *)
Definition traffic_density_threshold_high : Q :=
  3602879701896397 # 4503599627370496.
Definition traffic_density_threshold_medium : Q := 1 # 2.

(** The dictionaries the advisers return. *)
Inductive TimingAdvice : Type :=
| AdaptiveAdvice (green_duration red_duration yellow_duration cycle_time : Z)
    (density_factor queue_factor wait_factor : jsonval)
| EmergencyAdvice (preemption_green clearance_time : Z)
    (approach_direction vehicle_type : jsonval) (priority_level : Z)
    (estimated_arrival : jsonval)
    (north_south_green east_west_green north_south_red east_west_red : Z)
| DefaultAdvice (green_duration red_duration yellow_duration cycle_time : Z).

(** [d.get(k, default)] *)
Definition get_default {V} (k : string) (default : V) (d : PyDict.dict V) : V :=
  match PyDict.get k d with
  | Some v => v
  | None => default
  end.

Section Advisers.
Variable E : Env.

Definition _get_default_timing : TimingAdvice :=
  DefaultAdvice (default_green_duration E) (default_red_duration E) 5
    (default_green_duration E + default_red_duration E + 5).

(** The body of the [try] of [_adaptive_algorithm]. *)
Definition adaptive_body (traffic_data : PyDict.dict jsonval)
  : Result TimingAdvice :=
  let current_density :=
    get_default "traffic_density" (JFloat (1 # 2)) traffic_data in
  let queue_length := get_default "queue_length" (JInt 0) traffic_data in
  let waiting_time := get_default "avg_waiting_time" (JInt 0) traffic_data in
  let base_green := default_green_duration E in
  let base_red := default_red_duration E in
  match
    match gt_constant current_density traffic_density_threshold_high with
    | Raise e => Raise e
    | Ok true => Ok (15, -10)
    | Ok false =>
        match gt_constant current_density traffic_density_threshold_medium
        with
        | Raise e => Raise e
        | Ok true => Ok (5, -5)
        | Ok false => Ok (-5, 5)
        end
    end
  with
  | Raise e => Raise e
  | Ok (green_adjustment, red_adjustment) =>
      match
        match gt_constant queue_length (inject_Z 10) with
        | Raise e => Raise e
        | Ok true => Ok (green_adjustment + 10)
        | Ok false =>
            match gt_constant queue_length (inject_Z 5) with
            | Raise e => Raise e
            | Ok true => Ok (green_adjustment + 5)
            | Ok false => Ok green_adjustment
            end
        end
      with
      | Raise e => Raise e
      | Ok green_adjustment =>
          match
            match gt_constant waiting_time (inject_Z 60) with
            | Raise e => Raise e
            | Ok true => Ok (green_adjustment + 10)
            | Ok false =>
                match gt_constant waiting_time (inject_Z 30) with
                | Raise e => Raise e
                | Ok true => Ok (green_adjustment + 5)
                | Ok false => Ok green_adjustment
                end
            end
          with
          | Raise e => Raise e
          | Ok green_adjustment =>
              let optimized_green :=
                Z.max 20 (Z.min 60 (base_green + green_adjustment)) in
              let optimized_red :=
                Z.max 30 (Z.min 90 (base_red + red_adjustment)) in
              Ok (AdaptiveAdvice optimized_green optimized_red 5
                    (optimized_green + optimized_red + 5)
                    current_density queue_length waiting_time)
          end
      end
  end.

Definition _adaptive_algorithm (id : string)
    (traffic_data : PyDict.dict jsonval) : TimingAdvice :=
  match adaptive_body traffic_data with
  | Ok advice => advice
  | Raise _ => _get_default_timing
  end.

(** [priority_levels.get(vehicle_type, 2)]: an array or an object cannot be
    hashed. *)
Definition priority_of (vehicle_type : jsonval) : Result Z :=
  match vehicle_type with
  | JStr s =>
      Ok (if String.eqb s "ambulance" then 1
          else if String.eqb s "fire_truck" then 1
               else if String.eqb s "police" then 2 else 2)
  | JArray _ | JObject _ => Raise TypeError
  | _ => Ok 2
  end.

(** [approach_direction in ['north', 'south']] *)
Definition north_or_south (approach_direction : jsonval) : bool :=
  match approach_direction with
  | JStr s => String.eqb s "north" || String.eqb s "south"
  | _ => false
  end.

Definition _emergency_priority_algorithm (id : string)
    (emergency_data : PyDict.dict jsonval) : TimingAdvice :=
  let vehicle_type :=
    get_default "vehicle_type" (JStr "ambulance") emergency_data in
  let approach_direction :=
    get_default "approach_direction" (JStr "north") emergency_data in
  let estimated_arrival :=
    get_default "estimated_arrival_time" (JInt 10) emergency_data in
  match priority_of vehicle_type with
  | Raise _ => _get_default_timing
  | Ok priority =>
      let preemption_green := if priority =? 1 then 60 else 45 in
      let clearance_time := if priority =? 1 then 10 else 5 in
      if north_or_south approach_direction
      then EmergencyAdvice preemption_green clearance_time approach_direction
             vehicle_type priority estimated_arrival
             preemption_green 0 0 (preemption_green + clearance_time)
      else EmergencyAdvice preemption_green clearance_time approach_direction
             vehicle_type priority estimated_arrival
             0 preemption_green (preemption_green + clearance_time) 0
  end.
End Advisers.

(** A value that [>] accepts next to a number. *)
Definition is_number (x : jsonval) : Prop :=
  match x with
  | JBool _ | JInt _ | JFloat _ | JNaN | JInfinity _ => True
  | _ => False
  end.

Lemma gt_constant_number x c :
  is_number x -> exists b, gt_constant x c = Ok b.
Proof. destruct x; simpl; intros H; try contradiction; eexists; reflexivity. Qed.

Lemma gt_constant_not_number x c :
  ~ is_number x -> gt_constant x c = Raise TypeError.
Proof. destruct x; simpl; intros H; try reflexivity; now destruct H. Qed.

(** X10.  The adaptive adviser clamps: whatever the traffic data, its
    advice is either the default timing of the settings, and that only when
    one of the three measures it reads is present and not a number, or a
    timing with green between 20 and 60 seconds, red between 30 and 90,
    yellow 5, and a cycle time that is their sum; the measures are
    reported back as they came. *)
Theorem adaptive_advice_is_clamped E id traffic_data :
  let density := get_default "traffic_density" (JFloat (1 # 2)) traffic_data in
  let queue := get_default "queue_length" (JInt 0) traffic_data in
  let wait := get_default "avg_waiting_time" (JInt 0) traffic_data in
  (is_number density /\ is_number queue /\ is_number wait ->
   exists g r,
     _adaptive_algorithm E id traffic_data
     = AdaptiveAdvice g r 5 (g + r + 5) density queue wait
     /\ 20 <= g <= 60 /\ 30 <= r <= 90)
  /\ (~ (is_number density /\ is_number queue /\ is_number wait) ->
      _adaptive_algorithm E id traffic_data
      = DefaultAdvice (default_green_duration E) (default_red_duration E) 5
          (default_green_duration E + default_red_duration E + 5)).
Proof.
  intros density queue wait. unfold _adaptive_algorithm, adaptive_body.
  fold density queue wait. split.
  - intros (Hd & Hq & Hw).
    destruct (gt_constant_number density traffic_density_threshold_high Hd)
      as [b1 ->].
    destruct (gt_constant_number density traffic_density_threshold_medium Hd)
      as [b2 ->].
    destruct (gt_constant_number queue (inject_Z 10) Hq) as [b3 ->].
    destruct (gt_constant_number queue (inject_Z 5) Hq) as [b4 ->].
    destruct (gt_constant_number wait (inject_Z 60) Hw) as [b5 ->].
    destruct (gt_constant_number wait (inject_Z 30) Hw) as [b6 ->].
    destruct b1, b2, b3, b4, b5, b6; eexists; eexists;
      (split; [reflexivity|lia]).
  - intros N.
    destruct (gt_constant density traffic_density_threshold_high) as [b1|e1] eqn:G1;
      [|reflexivity].
    assert (is_number density) as Hd
        by (destruct density; simpl in *; try discriminate; exact I).
    destruct (gt_constant_number density traffic_density_threshold_medium Hd)
      as [b2 ->].
    destruct (gt_constant queue (inject_Z 10)) as [b3|e3] eqn:G3.
    2:{ destruct b1, b2; reflexivity. }
    assert (is_number queue) as Hq
        by (destruct queue; simpl in *; try discriminate; exact I).
    destruct (gt_constant_number queue (inject_Z 5) Hq) as [b4 ->].
    destruct (gt_constant wait (inject_Z 60)) as [b5|e5] eqn:G5.
    2:{ destruct b1, b2, b3, b4; reflexivity. }
    exfalso. apply N. repeat split; try assumption.
    destruct wait; simpl in *; try discriminate; exact I.
Qed.

Lemma adaptive_advice_is_clamped_witness :
  exists g r,
    _adaptive_algorithm sample_env "clock_tower"
      [("traffic_density", JFloat (9 # 10)); ("queue_length", JInt 12)]
    = AdaptiveAdvice g r 5 (g + r + 5) (JFloat (9 # 10)) (JInt 12) (JInt 0)
    /\ 20 <= g <= 60 /\ 30 <= r <= 90.
Proof.
  apply (adaptive_advice_is_clamped sample_env "clock_tower"
           [("traffic_density", JFloat (9 # 10)); ("queue_length", JInt 12)]).
  simpl. tauto.
Defined.

(** X11.  The emergency adviser never gives both axes green.  Its advice is
    the default timing only when the vehicle type is an array or an object;
    otherwise the axis of the approach (north-south when the direction is
    north or south, east-west for anything else) is green for the
    preemption time and has no red, and the crossing axis has no green and
    is red for the preemption time plus the clearance time, which are 60 and
    10 seconds for an ambulance or a fire truck and 45 and 5 for any other
    vehicle. *)
Theorem emergency_advice_gives_one_axis_green E id emergency_data :
  let vehicle := get_default "vehicle_type" (JStr "ambulance") emergency_data in
  let approach :=
    get_default "approach_direction" (JStr "north") emergency_data in
  let arrival :=
    get_default "estimated_arrival_time" (JInt 10) emergency_data in
  let first_priority :=
    vehicle = JStr "ambulance" \/ vehicle = JStr "fire_truck" in
  let along_north_south := approach = JStr "north" \/ approach = JStr "south" in
  match _emergency_priority_algorithm E id emergency_data with
  | EmergencyAdvice pg ct a v p arr nsg ewg nsr ewr =>
      a = approach /\ v = vehicle /\ arr = arrival
      /\ (first_priority -> p = 1 /\ pg = 60 /\ ct = 10)
      /\ (~ first_priority -> p = 2 /\ pg = 45 /\ ct = 5)
      /\ (along_north_south ->
          nsg = pg /\ nsr = 0 /\ ewg = 0 /\ ewr = pg + ct)
      /\ (~ along_north_south ->
          ewg = pg /\ ewr = 0 /\ nsg = 0 /\ nsr = pg + ct)
      /\ nsg * ewg = 0
  | DefaultAdvice g r y c =>
      (exists text, vehicle = JArray text \/ vehicle = JObject text)
      /\ g = default_green_duration E /\ r = default_red_duration E /\ y = 5
      /\ c = g + r + 5
  | AdaptiveAdvice _ _ _ _ _ _ _ => False
  end.
Proof.
  intros vehicle approach arrival first_priority along.
  unfold _emergency_priority_algorithm, _get_default_timing.
  fold vehicle approach arrival.
  assert (forall s, (String.eqb s "north" || String.eqb s "south" = true)
                    <-> (JStr s = JStr "north" \/ JStr s = JStr "south")) as NS.
  { intros s. rewrite orb_true_iff, !String.eqb_eq.
    split; intros [H|H]; [left|right|left|right]; congruence. }
  assert (north_or_south approach = true <-> along) as HNS.
  { unfold along. destruct approach; simpl;
      try (split; [discriminate|intros [H|H]; discriminate]).
    apply NS. }
  destruct (priority_of vehicle) as [p|e] eqn:P.
  2:{ destruct vehicle; simpl in P; try discriminate;
        (split; [eexists; eauto|repeat split]). }
  assert ((first_priority -> p = 1) /\ (~ first_priority -> p = 2)) as [P1 P2].
  { unfold first_priority. destruct vehicle; simpl in P; inversion P;
      try (split; [intros [H|H]; discriminate|reflexivity]).
    destruct (String.eqb_spec s "ambulance") as [->|Na];
      [split; [reflexivity|intros H; exfalso; apply H; now left]|].
    destruct (String.eqb_spec s "fire_truck") as [->|Nf];
      [split; [reflexivity|intros H; exfalso; apply H; now right]|].
    assert (2 = (if String.eqb s "police" then 2 else 2)) as <-
        by now destruct (String.eqb s "police").
    split; [intros [H|H]; congruence|reflexivity]. }
  destruct (north_or_south approach) eqn:D.
  - assert along as A by now apply HNS.
    split; [reflexivity|]. split; [reflexivity|]. split; [reflexivity|].
    split; [intros F; rewrite (P1 F); now repeat split|].
    split; [intros F; rewrite (P2 F); now repeat split|].
    split; [intros _; now repeat split|]. split; [tauto|]. lia.
  - assert (~ along) as A by (rewrite <- HNS; congruence).
    split; [reflexivity|]. split; [reflexivity|]. split; [reflexivity|].
    split; [intros F; rewrite (P1 F); now repeat split|].
    split; [intros F; rewrite (P2 F); now repeat split|].
    split; [tauto|]. split; [intros _; now repeat split|]. lia.
Qed.

(** * Reading the status of signals *)

(** The dictionaries [get_signal_status] and [get_all_signals_status]
    return. *)
Inductive StatusReply : Type :=
| SignalStatus (id current_state : string) (remaining_time : Z)
    (is_emergency_override : bool) (override_reason : string)
    (state_start_time last_updated : datetime)
| StatusError (error : ErrorMsg).

Inductive AllStatusReply : Type :=
| AllStatus (signals : PyDict.dict StatusReply) (total_signals : nat)
    (emergency_overrides_active : nat) (last_updated : datetime)
| AllStatusError (error : ErrorMsg).

(** [status.get('is_emergency_override', False)] as a truth value *)
Definition reports_override (status : StatusReply) : bool :=
  match status with
  | SignalStatus _ _ _ ov _ _ _ => ov
  | StatusError _ => false
  end.

Section Status.
Variable E : Env.

(** [int(max(0, remaining_time - elapsed.total_seconds()))], which the source
    computes in binary64 arithmetic and which raises [OverflowError] when
    [remaining_time] is too large an int for a float.  The arithmetic is a
    parameter of the model. *)
Variable float_remaining : Z -> timedelta -> Result Z.

Definition get_signal_status (id : string) : M StatusReply :=
  try_except
    (states <- get_states ;;
     if negb (PyDict.mem id states)
     then ret (StatusError (Message "Signal not found"))
     else
       state <- getitem id ;;
       t <- utcnow E ;;
       remaining <-
         lift (float_remaining (remaining_time state)
                 (datetime_sub t (state_start_time state))) ;;
       last_updated <- utcnow E ;;
       ret (SignalStatus (signal_id state) (current_state state) remaining
              (is_emergency_override state) (override_reason state)
              (state_start_time state) last_updated))
    (fun e => ret (StatusError (StrOfExn e))).

(** The loop of [get_all_signals_status] over the keys of
    [signal_states]. *)
Fixpoint collect_status (ids : list string)
    (all_status : PyDict.dict StatusReply) : M (PyDict.dict StatusReply) :=
  match ids with
  | [] => ret all_status
  | id :: rest =>
      status <- get_signal_status id ;;
      collect_status rest (PyDict.set id status all_status)
  end.

Definition get_all_signals_status : M AllStatusReply :=
  try_except
    (states <- get_states ;;
     all_status <- collect_status (keys states) [] ;;
     last_updated <- utcnow E ;;
     ret (AllStatus all_status (List.length all_status)
            (List.length (filter reports_override (map snd all_status)))
            last_updated))
    (fun e => ret (AllStatusError (StrOfExn e))).

(** The status of [id] in [w], read with the clock of [w]. *)
Definition status_of (w : World) (id : string) : StatusReply :=
  match PyDict.get id (signal_states w) with
  | None => StatusError (Message "Signal not found")
  | Some state =>
      match float_remaining (remaining_time state)
              (datetime_sub (utcnow_at E (clock_reads w))
                 (state_start_time state))
      with
      | Ok remaining =>
          SignalStatus (signal_id state) (current_state state) remaining
            (is_emergency_override state) (override_reason state)
            (state_start_time state) (utcnow_at E (S (clock_reads w)))
      | Raise e => StatusError (StrOfExn e)
      end
  end.

Lemma get_signal_status_run id w :
  value_of (get_signal_status id w) = Ok (status_of w id)
  /\ signal_states (world_of (get_signal_status id w)) = signal_states w
  /\ redis_trace (world_of (get_signal_status id w)) = redis_trace w.
Proof.
  unfold get_signal_status, status_of, try_except, bind, get_states, getitem,
    PyDict.mem.
  destruct (PyDict.get id (signal_states w)) as [state|] eqn:G; simpl.
  2:{ repeat split. }
  rewrite G; simpl. unfold lift.
  destruct (float_remaining _ _) as [remaining|e]; simpl; repeat split.
Qed.

(** The statuses of [ids], read one after the other from [w] on. *)
Fixpoint statuses (ids : list string) (w : World)
  : PyDict.dict StatusReply :=
  match ids with
  | [] => []
  | id :: rest =>
      (id, status_of w id)
        :: statuses rest (world_of (get_signal_status id w))
  end.

Lemma set_absent {V} k (v : V) d :
  ~ In k (keys d) -> PyDict.set k v d = (d ++ [(k, v)])%list.
Proof.
  induction d as [|[k' v'] d IH]; simpl; intros H; [reflexivity|].
  destruct (String.eqb_spec k k') as [->|N]; [tauto|].
  rewrite IH; [reflexivity|tauto].
Qed.

Lemma collect_status_run ids :
  forall acc w,
    NoDup ids -> (forall id, In id ids -> ~ In id (keys acc)) ->
    value_of (collect_status ids acc w) = Ok (acc ++ statuses ids w)%list
    /\ signal_states (world_of (collect_status ids acc w)) = signal_states w
    /\ redis_trace (world_of (collect_status ids acc w)) = redis_trace w.
Proof.
  induction ids as [|id ids IH]; intros acc w ND Hfresh; simpl.
  - rewrite app_nil_r. repeat split.
  - inversion ND as [|? ? Hn Hd]; subst.
    destruct (get_signal_status_run id w) as (V & S & T).
    unfold bind. rewrite (run_eq (get_signal_status id) w), V.
    rewrite set_absent by (apply Hfresh; now left).
    destruct (IH (acc ++ [(id, status_of w id)])%list
                (world_of (get_signal_status id w)) Hd) as (V' & S' & T').
    { intros id1 H1. unfold keys. rewrite map_app, in_app_iff. simpl.
      intros [H|[H|[]]]; [apply (Hfresh id1); [now right|exact H]|].
      subst id1. contradiction. }
    rewrite V', S', T', S, T, <- app_assoc. repeat split.
Qed.

Lemma statuses_length ids :
  forall w, List.length (statuses ids w) = List.length ids.
Proof. induction ids as [|id ids IH]; intros w; simpl; [|rewrite IH]; reflexivity. Qed.

Lemma statuses_keys ids : forall w, keys (statuses ids w) = ids.
Proof.
  induction ids as [|id ids IH]; intros w; [reflexivity|].
  unfold keys in *. simpl. now rewrite IH.
Qed.

Lemma statuses_overrides (d : PyDict.dict SignalState) :
  forall w,
    (forall id s, In (id, s) d ->
        PyDict.get id (signal_states w) = Some s
        /\ forall elapsed, exists remaining,
             float_remaining (remaining_time s) elapsed = Ok remaining) ->
    List.length (filter reports_override (map snd (statuses (keys d) w)))
    = List.length (filter (fun p => is_emergency_override (snd p)) d).
Proof.
  induction d as [|[id s] d IH]; intros w H; [reflexivity|].
  simpl. destruct (H id s (or_introl eq_refl)) as [G Conv].
  unfold status_of at 1. rewrite G.
  destruct (Conv (datetime_sub (utcnow_at E (clock_reads w))
                    (state_start_time s))) as [remaining ->].
  simpl.
  assert (List.length
            (filter reports_override
               (map snd (statuses (keys d)
                           (world_of (get_signal_status id w)))))
          = List.length (filter (fun p => is_emergency_override (snd p)) d))
    as Rest.
  { apply IH. intros id1 s1 H1.
    destruct (get_signal_status_run id w) as (_ & S & _). rewrite S.
    apply H. now right. }
  destruct (is_emergency_override s); simpl; now rewrite Rest.
Qed.
End Status.

(** X12.  Reading a status never writes: [get_signal_status] leaves every
    signal record and the Redis trace as they are, and, unlike the other
    methods, does not create a signal it does not know but reports "Signal
    not found", leaving the whole world untouched.  For a known signal it
    reports the id, phase, mode, reason and start time of its record. *)
Theorem status_reads_without_writing E float_remaining id w :
  let run := get_signal_status E float_remaining id w in
  signal_states (world_of run) = signal_states w
  /\ redis_trace (world_of run) = redis_trace w
  /\ (PyDict.get id (signal_states w) = None ->
      run = (Ok (StatusError (Message "Signal not found")), w))
  /\ forall s,
      PyDict.get id (signal_states w) = Some s ->
      (exists e, value_of run = Ok (StatusError (StrOfExn e)))
      \/ exists remaining,
          float_remaining (remaining_time s)
            (datetime_sub (utcnow_at E (clock_reads w)) (state_start_time s))
          = Ok remaining
          /\ value_of run
             = Ok (SignalStatus (signal_id s) (current_state s) remaining
                     (is_emergency_override s) (override_reason s)
                     (state_start_time s) (utcnow_at E (S (clock_reads w)))).
Proof.
  intros run.
  destruct (get_signal_status_run E float_remaining id w) as (V & S & T).
  fold run in V, S, T.
  split; [exact S|]. split; [exact T|]. split.
  - intros G. unfold run, get_signal_status, try_except, bind, get_states,
      PyDict.mem. now rewrite G.
  - intros s G. rewrite V. unfold status_of. rewrite G.
    destruct (float_remaining _ _) as [remaining|e].
    + right. now exists remaining.
    + left. now exists e.
Qed.

(** X13.  In a world the controller can reach and whose planned times all
    convert to floats, [get_all_signals_status] reports one status per
    signal, under the same keys in the same order, counts the signals, and
    counts as active overrides exactly the records in override; it changes
    no signal record and sends nothing to Redis. *)
Theorem all_status_counts_signals E float_remaining w :
  reachable E w ->
  (forall id s, PyDict.get id (signal_states w) = Some s ->
     forall elapsed, exists remaining,
       float_remaining (remaining_time s) elapsed = Ok remaining) ->
  let run := get_all_signals_status E float_remaining w in
  signal_states (world_of run) = signal_states w
  /\ redis_trace (world_of run) = redis_trace w
  /\ exists signals t,
      value_of run
      = Ok (AllStatus signals (List.length (signal_states w))
              (List.length
                 (filter (fun p => is_emergency_override (snd p))
                    (signal_states w))) t)
      /\ keys signals = keys (signal_states w).
Proof.
  intros Hr Conv run.
  pose proof (reachable_keys_nodup E w Hr) as ND.
  destruct (collect_status_run E float_remaining (keys (signal_states w))
              [] w ND) as (V & S & T); [intros id _ []|].
  simpl app in V.
  pose proof (statuses_overrides E float_remaining (signal_states w) w) as C.
  unfold run, get_all_signals_status, try_except, bind, get_states, utcnow,
    ret.
  unfold value_of, world_of in V, S, T.
  destruct (collect_status E float_remaining (keys (signal_states w)) [] w)
    as [r w1].
  cbn [fst snd] in V, S, T. subst r. unfold world_of, value_of.
  cbn [fst snd signal_states redis_trace].
  split; [exact S|]. split; [exact T|].
  do 2 eexists. split.
  - rewrite statuses_length, C.
    + unfold keys. rewrite length_map. reflexivity.
    + intros id s H. split; [now apply in_get_some|].
      apply (Conv id s). now apply in_get_some.
  - apply statuses_keys.
Qed.

(** The arithmetic of [float_remaining] done exactly. *)
Definition exact_remaining (remaining : Z) (elapsed : timedelta) : Result Z :=
  Ok (Z.quot (Z.max 0 (remaining * US_PER_SECOND - elapsed)) US_PER_SECOND).

Lemma all_status_counts_signals_witness :
  let w := run_ops sample_env [OpOverride "clock_tower" (Some 60) "ambulance"]
             (init_world sample_env) in
  exists signals t,
    value_of (get_all_signals_status sample_env exact_remaining w)
    = Ok (AllStatus signals 10 1 t).
Proof.
  intros w.
  destruct (all_status_counts_signals sample_env exact_remaining w)
    as (_ & _ & signals & t & V & _).
  - exists (map OpCreate default_signals
            ++ [OpOverride "clock_tower" (Some 60) "ambulance"])%list.
    unfold w, init_world. rewrite run_ops_app.
    now rewrite <- create_all_run_ops.
  - intros id s _ elapsed. eexists. reflexivity.
  - exists signals, t. rewrite V. by_computation.
Defined.

(** * The mirror in Redis *)

(** The key [_update_redis_state] writes the record of [id] under. *)
Definition state_key (id : string) : string := "signal_state:" ++ id.

(** The signal record a trace of commands last wrote under [key], if it
    wrote one. *)
Definition mirror_step (key : string) (m : option SignalState)
    (c : RedisCmd) : option SignalState :=
  match c with
  | SETEX k _ (StateData s _) => if String.eqb k key then Some s else m
  | SETEX k _ _ => if String.eqb k key then None else m
  | _ => m
  end.

Definition last_mirrored (trace : list RedisCmd) (key : string)
  : option SignalState :=
  fold_left (mirror_step key) trace None.

Lemma last_mirrored_snoc trace c key :
  last_mirrored (trace ++ [c]) key
  = mirror_step key (last_mirrored trace key) c.
Proof. unfold last_mirrored. now rewrite fold_left_app. Qed.

Lemma state_key_eqb a b :
  String.eqb (state_key a) (state_key b) = String.eqb a b.
Proof.
  destruct (String.eqb_spec a b) as [->|N].
  - apply String.eqb_refl.
  - apply String.eqb_neq. intros H. apply N. unfold state_key in H.
    simpl in H. now inversion H.
Qed.

Lemma schedule_key_not_state_key id stamp id' :
  String.eqb ("scheduled_override:" ++ id ++ ":" ++ stamp) (state_key id')
  = false.
Proof.
  apply String.eqb_neq. unfold state_key. simpl. intros H. inversion H.
Qed.

(** The store and its mirror agree. *)
Definition mirror_agrees (w : World) : Prop :=
  forall id,
    last_mirrored (redis_trace w) (state_key id)
    = PyDict.get id (signal_states w).

Lemma mirror_agrees_write w w' id s :
  mirror_agrees w ->
  signal_states w' = PyDict.set id s (signal_states w) ->
  (forall key,
      last_mirrored (redis_trace w') key
      = if String.eqb (state_key id) key then Some s
        else last_mirrored (redis_trace w) key) ->
  mirror_agrees w'.
Proof.
  intros A S T id'. rewrite T, S, PyDict.get_set, state_key_eqb.
  rewrite (String.eqb_sym id id'). destruct (String.eqb id' id); [reflexivity|].
  apply A.
Qed.

Lemma mirror_agrees_same w w' :
  mirror_agrees w ->
  signal_states w' = signal_states w ->
  (forall id, last_mirrored (redis_trace w') (state_key id)
              = last_mirrored (redis_trace w) (state_key id)) ->
  mirror_agrees w'.
Proof. intros A S T id'. rewrite T, S. apply A. Qed.

Section Mirror.
Variable E : Env.
Hypothesis redis_accepts : forall n, redis_up E n = true.

Lemma mirrored_last id w key :
  last_mirrored (redis_trace (mirrored E id w)) key
  = match PyDict.get id (signal_states w) with
    | Some s =>
        if String.eqb (state_key id) key then Some s
        else last_mirrored (redis_trace w) key
    | None => last_mirrored (redis_trace w) key
    end.
Proof.
  unfold mirrored, world_of, _update_redis_state, try_except, bind,
    get_states, utcnow, redis_call, ret; simpl.
  destruct (PyDict.get id (signal_states w)); simpl; [|reflexivity].
  rewrite redis_accepts; simpl. now rewrite last_mirrored_snoc.
Qed.

Lemma logged_last id ty d w key :
  last_mirrored (redis_trace (logged E id ty d w)) key
  = last_mirrored (redis_trace w) key.
Proof.
  unfold logged, world_of, _log_signal_event, try_except, bind, utcnow,
    redis_call, ret; simpl.
  rewrite !redis_accepts; simpl. now rewrite !last_mirrored_snoc.
Qed.

Ltac settle_mirror :=
  repeat (progress
            (rewrite ?logged_last, ?mirrored_last, ?logged_states,
               ?mirrored_states, ?PyDict.get_set_same; simpl)).

Lemma keep_mirror_utcnow : preserving mirror_agrees (utcnow E).
Proof. intros w A. now apply (mirror_agrees_same w). Qed.

Lemma keep_mirror_log id ty d :
  preserving mirror_agrees (_log_signal_event E id ty d).
Proof.
  intros w A. fold (logged E id ty d w).
  apply (mirror_agrees_same w); [exact A|apply logged_states|].
  intros id'. apply logged_last.
Qed.

Lemma keep_mirror_schedule id start duration reason :
  preserving mirror_agrees
    (_schedule_signal_override E id start duration reason).
Proof.
  intros w A.
  unfold _schedule_signal_override, try_except, bind, redis_call, world_of.
  rewrite redis_accepts; simpl.
  apply (mirror_agrees_same w); [exact A|reflexivity|].
  intros id'. cbn [redis_trace snd]. rewrite last_mirrored_snoc.
  unfold mirror_step.
  match goal with
  | |- (if ?b then _ else _) = _ => replace b with false; [reflexivity|]
  end.
  symmetry.
  exact (schedule_key_not_state_key id (str_of_Z (timestamp_int start)) id').
Qed.

Lemma keep_mirror_create id :
  preserving mirror_agrees (_create_signal_if_not_exists E id).
Proof.
  intros w A. fold (ensured E id w).
  destruct (PyDict.mem id (signal_states w)) eqn:G.
  - now rewrite ensured_present.
  - eapply (mirror_agrees_write w); [exact A|now apply ensured_absent_states|].
    intros key.
    unfold ensured, world_of, _create_signal_if_not_exists, bind, get_states.
    rewrite G. unfold utcnow, setitem; simpl. rewrite update_redis_run; simpl.
    settle_mirror. reflexivity.
Qed.

Lemma keep_mirror_override id duration reason :
  preserving mirror_agrees (emergency_override E id duration reason).
Proof.
  intros w A. apply keep_mirror_create with (id := id) in A.
  fold (ensured E id w) in A.
  eapply (mirror_agrees_write (ensured E id w)); [exact A|apply override_run|].
  intros key.
  unfold emergency_override, try_except, bind.
  rewrite create_run. unfold getitem. rewrite ensured_get.
  unfold overridden, snapshot_of, override_now, effective_duration.
  set (d := match duration with Some d => d | None => _ end).
  destruct (is_emergency_override (ensured_record E id w)); simpl;
    rewrite update_redis_run, log_event_run; simpl; unfold lift;
    destruct (timedelta_of_seconds d) as [td|e]; simpl;
    try destruct (datetime_add _ td) as [et|e]; simpl;
    settle_mirror; reflexivity.
Qed.

Lemma keep_mirror_restore id :
  preserving mirror_agrees (restore_normal_operation E id).
Proof.
  intros w A.
  destruct (PyDict.get id (signal_states w)) as [cur|] eqn:G.
  2:{ now rewrite restore_absent. }
  destruct (is_emergency_override cur) eqn:Ov.
  2:{ now rewrite (restore_not_overridden E id cur w G Ov). }
  destruct (normal_timing cur) as [nt|] eqn:NT.
  - eapply (mirror_agrees_write w); [exact A| |].
    + eapply restore_yellow; eauto. congruence.
    + intros key.
      unfold restore_normal_operation, try_except, bind, get_states, getitem,
        PyDict.mem.
      repeat (rewrite G; simpl). rewrite Ov; simpl. rewrite NT; simpl.
      rewrite update_redis_run; simpl. rewrite log_event_run; simpl.
      settle_mirror. reflexivity.
  - eapply (mirror_agrees_write w); [exact A| |].
    + eapply restore_red; eauto.
    + intros key.
      unfold restore_normal_operation, try_except, bind, get_states, getitem,
        PyDict.mem.
      repeat (rewrite G; simpl). rewrite Ov; simpl. rewrite NT; simpl.
      rewrite update_redis_run; simpl. settle_mirror. reflexivity.
Qed.

Lemma keep_mirror_update_timing id timing_config :
  preserving mirror_agrees (update_timing E id timing_config).
Proof.
  intros w A. apply keep_mirror_create with (id := id) in A.
  fold (ensured E id w) in A.
  destruct (validate_fields required_fields timing_config) as [err|] eqn:V.
  - now rewrite (update_timing_rejected E id timing_config err w V).
  - destruct (update_timing_accepted E id timing_config w V)
      as (r & y & g & Fr & Fy & Fg & _ & _ & _ & _ & S).
    eapply (mirror_agrees_write (ensured E id w)); [exact A|exact S|].
    intros key. unfold update_timing, try_except, bind.
    rewrite create_run, V. unfold lift, getitem.
    rewrite Fr, Fy, Fg, ensured_get. simpl.
    rewrite update_redis_run; simpl. rewrite log_event_run; simpl.
    settle_mirror. reflexivity.
Qed.

Lemma keep_mirror_transition id :
  preserving mirror_agrees (_transition_to_next_state E id).
Proof.
  intros w A.
  destruct (PyDict.get id (signal_states w)) as [cur|] eqn:G.
  2:{ rewrite transition_stuck; [exact A|]. now rewrite G. }
  destruct (timing_of cur) as [timing|e] eqn:T.
  - eapply (mirror_agrees_write w);
      [exact A|eapply transition_states; eassumption|].
    intros key. unfold _transition_to_next_state, try_except, bind, getitem.
    rewrite G. unfold timing_of in T. unfold transitioned, next_of.
    destruct (normal_timing cur) as [[t|s r st]|] eqn:NT; simpl in *;
      try discriminate; inversion T; subst timing;
      rewrite update_redis_run; simpl; settle_mirror; reflexivity.
  - rewrite transition_stuck; [exact A|]. rewrite G.
    unfold timing_of, SignalTiming_of in *.
    destruct (normal_timing cur) as [[?|? ? ?]|]; congruence.
Qed.
End Mirror.

(** X14.  With a Redis server that accepts every command, the mirror is
    faithful after every sequence of calls: what was last written under the
    key of a signal is the record the controller holds for it, and nothing
    was written for a signal it does not hold. *)
Theorem mirror_follows_store E ops id :
  (forall n, redis_up E n = true) ->
  let w := run_ops E ops empty_world in
  last_mirrored (redis_trace w) ("signal_state:" ++ id)
  = PyDict.get id (signal_states w).
Proof.
  intros Up w.
  apply (preserving_run_ops E mirror_agrees).
  - now apply keep_mirror_utcnow.
  - intros. now apply keep_mirror_log.
  - intros. now apply keep_mirror_schedule.
  - intros. now apply keep_mirror_create.
  - intros. now apply keep_mirror_override.
  - intros. now apply keep_mirror_restore.
  - intros. now apply keep_mirror_update_timing.
  - intros. now apply keep_mirror_transition.
  - intros id'. reflexivity.
Qed.

Lemma mirror_follows_store_witness :
  let w := run_ops sample_env
             [OpCreate "clock_tower";
              OpOverride "clock_tower" (Some 60) "ambulance";
              OpCoordinate ["clock_tower"; "ballupur"] 60]
             empty_world in
  (forall n, redis_up sample_env n = true)
  /\ last_mirrored (redis_trace w) "signal_state:clock_tower"
     = PyDict.get "clock_tower" (signal_states w).
Proof.
  intros w. split; [reflexivity|].
  apply (mirror_follows_store sample_env
           [OpCreate "clock_tower";
            OpOverride "clock_tower" (Some 60) "ambulance";
            OpCoordinate ["clock_tower"; "ballupur"] 60] "clock_tower").
  reflexivity.
Defined.

(** * The timing endpoint of [main.py] *)

(** [update_signal_timing], the handler of [PUT /api/signals/<id>/timing],
    for a request whose body [data] is a JSON object: it builds
    [timing_config] from the three fields of the body, each with its
    default, and passes it to [update_timing].  The value is the dictionary
    the handler hands to [jsonify]. *)
Definition handler_timing_config (data : PyDict.dict pyval)
  : PyDict.dict pyval :=
  [("red_duration", get_default "red_duration" (PyInt 45) data);
   ("yellow_duration", get_default "yellow_duration" (PyInt 5) data);
   ("green_duration", get_default "green_duration" (PyInt 30) data)].

Definition update_signal_timing (E : Env) (signal_id : string)
    (data : PyDict.dict pyval) : M Reply :=
  update_timing E signal_id (handler_timing_config data).

(** The field [key] of the body is a positive integer [z], or it is absent
    and [z] is the default. *)
Definition given_or_default (data : PyDict.dict pyval) (key : string)
    (default z : Z) : Prop :=
  match PyDict.get key data with
  | None => z = default
  | Some v => as_int v = Some z /\ 0 < z
  end.

Lemma validate_fields_present fields timing_config :
  (forall field, In field fields ->
                 PyDict.get field timing_config <> None) ->
  match validate_fields fields timing_config with
  | Some (Message m) =>
      exists field, In field fields /\ m = "Invalid value for " ++ field
  | Some (StrOfExn _) => False
  | None => True
  end.
Proof.
  induction fields as [|f fields IH]; intros P; [exact I|].
  cbn [validate_fields].
  destruct (PyDict.get f timing_config) as [v|] eqn:G.
  - destruct (as_int v) as [z|]; [|exists f; split; [now left|reflexivity]].
    destruct (z <=? 0); [exists f; split; [now left|reflexivity]|].
    assert (forall field, In field fields ->
                          PyDict.get field timing_config <> None) as P'
      by (intros; apply P; now right).
    specialize (IH P').
    destruct (validate_fields fields timing_config) as [[m|e]|]; try exact IH.
    destruct IH as (field & I & ->). exists field. split; [now right|reflexivity].
  - exfalso. apply (P f); [now left|exact G].
Qed.

Lemma handler_timing_config_present data field :
  In field required_fields ->
  PyDict.get field (handler_timing_config data) <> None.
Proof.
  intros [<-|[<-|[<-|[]]]]; discriminate.
Qed.

Lemma given_or_default_field data key default z :
  given_or_default data key default z -> 0 < default ->
  as_int (get_default key (PyInt default) data) = Some z /\ 0 < z.
Proof.
  unfold given_or_default, get_default.
  destruct (PyDict.get key data); [tauto|]. intros -> P. now split.
Qed.

(** X15.  For a body that is a JSON object the endpoint replies with the new
    timing or with "Invalid value for" one of the three fields; a field can
    never be reported missing, since the handler fills every absent field
    before the controller validates the configuration. *)
Theorem timing_handler_never_reports_missing_field E id data w :
  let reply := value_of (update_signal_timing E id data w) in
  ((exists timing t, reply = Ok (TimingReply id timing t))
   \/ exists field,
        In field required_fields
        /\ reply = Ok (ErrorReply (Message ("Invalid value for " ++ field))
                        None))
  /\ forall field,
       reply
       <> Ok (ErrorReply (Message ("Missing required field: " ++ field)) None).
Proof.
  intros reply. subst reply. unfold update_signal_timing.
  pose proof (validate_fields_present required_fields
                (handler_timing_config data)
                (handler_timing_config_present data)) as P.
  destruct (validate_fields required_fields (handler_timing_config data))
    as [[m|e]|] eqn:V.
  - rewrite (update_timing_rejected E id _ _ w V). unfold value_of; simpl.
    destruct P as (f & I & ->). split.
    + right. now exists f.
    + intros field H. inversion H.
  - destruct P.
  - destruct (update_timing_accepted E id _ w V)
      as (r & y & g & _ & _ & _ & _ & _ & _ & R & _).
    rewrite R. split; [left; eauto|discriminate].
Qed.

(** X16.  A body whose fields are positive integers where they are given is
    accepted, and an absent field takes its default: 45 seconds of red, 5 of
    yellow, 30 of green.  The profile installed is the one replied. *)
Theorem timing_handler_fills_defaults E id data w r y g :
  given_or_default data "red_duration" 45 r ->
  given_or_default data "yellow_duration" 5 y ->
  given_or_default data "green_duration" 30 g ->
  let out := update_signal_timing E id data w in
  value_of out
  = Ok (TimingReply id (mkSignalTiming r y g (r + y + g))
          (utcnow_at E (2 + clock_reads (ensured E id w))))
  /\ option_map normal_timing (PyDict.get id (signal_states (world_of out)))
     = Some (Some (asdict (mkSignalTiming r y g (r + y + g)))).
Proof.
  intros Gr Gy Gg out. subst out. unfold update_signal_timing.
  apply given_or_default_field in Gr; [|lia].
  apply given_or_default_field in Gy; [|lia].
  apply given_or_default_field in Gg; [|lia].
  destruct Gr as [Ar Pr], Gy as [Ay Py], Gg as [Ag Pg].
  assert (validate_fields required_fields (handler_timing_config data) = None)
    as V.
  { unfold required_fields, handler_timing_config. simpl.
    rewrite Ar, Ay, Ag.
    destruct (Z.leb_spec r 0); [lia|]. destruct (Z.leb_spec y 0); [lia|].
    destruct (Z.leb_spec g 0); [lia|]. reflexivity. }
  destruct (update_timing_accepted E id _ w V)
    as (r' & y' & g' & Fr & Fy & Fg & _ & _ & _ & R & S).
  unfold field_value, handler_timing_config in Fr, Fy, Fg. simpl in Fr, Fy, Fg.
  rewrite Ar in Fr. rewrite Ay in Fy. rewrite Ag in Fg.
  inversion Fr; inversion Fy; inversion Fg; subst r' y' g'.
  split; [exact R|]. rewrite S, PyDict.get_set_same. reflexivity.
Qed.

Lemma timing_handler_fills_defaults_witness :
  let data := [("green_duration", PyInt 40); ("note", PyStr "school run")] in
  let out := update_signal_timing sample_env "clock_tower" data empty_world in
  given_or_default data "green_duration" 30 40
  /\ value_of out
     = Ok (TimingReply "clock_tower" (mkSignalTiming 45 5 40 90)
             (utcnow_at sample_env
                (2 + clock_reads (ensured sample_env "clock_tower"
                                    empty_world)))).
Proof.
  intros data out. split; [by_computation|].
  apply (timing_handler_fills_defaults sample_env "clock_tower" data
           empty_world 45 5 40); by_computation.
Defined.

(** * Redis outages *)

(** Two runs of the controller, with the same clock and the same settings
    but Redis servers that may differ, side by side. *)
Definition agree (w1 w2 : World) : Prop :=
  signal_states w1 = signal_states w2 /\ clock_reads w1 = clock_reads w2.

(** Started in worlds that agree, the computations end in worlds that agree,
    both return or both raise, with results that [RA] relates. *)
Definition alike {A} (RA : A -> A -> Prop) (m1 m2 : M A) : Prop :=
  forall w1 w2, agree w1 w2 ->
    agree (world_of (m1 w1)) (world_of (m2 w2))
    /\ match value_of (m1 w1), value_of (m2 w2) with
       | Ok a1, Ok a2 => RA a1 a2
       | Raise e1, Raise e2 => e1 = e2
       | _, _ => False
       end.

Definition whatever {A} (a1 a2 : A) : Prop := True.

Lemma alike_ret {A} (RA : A -> A -> Prop) a1 a2 :
  RA a1 a2 -> alike RA (ret a1) (ret a2).
Proof. intros R w1 w2 H. now split. Qed.

Lemma alike_lift {A} (r : Result A) : alike eq (lift r) (lift r).
Proof. intros w1 w2 H. split; [exact H|]. now destruct r. Qed.

Lemma alike_raise {A} (RA : A -> A -> Prop) e :
  alike RA (raise e) (raise e).
Proof. intros w1 w2 H. now split. Qed.

Lemma alike_weaken {A} (RA RB : A -> A -> Prop) m1 m2 :
  alike RA m1 m2 -> (forall a1 a2, RA a1 a2 -> RB a1 a2) -> alike RB m1 m2.
Proof.
  intros Hm Sub w1 w2 H. destruct (Hm w1 w2 H) as [G V]. split; [exact G|].
  destruct (value_of (m1 w1)), (value_of (m2 w2)); auto.
Qed.

Lemma alike_bind {A B} (RA : A -> A -> Prop) (RB : B -> B -> Prop)
    (m1 m2 : M A) (k1 k2 : A -> M B) :
  alike RA m1 m2 ->
  (forall a1 a2, RA a1 a2 -> alike RB (k1 a1) (k2 a2)) ->
  alike RB (bind m1 k1) (bind m2 k2).
Proof.
  intros Hm Hk w1 w2 H. destruct (Hm w1 w2 H) as [G V].
  unfold bind, world_of, value_of in *.
  destruct (m1 w1) as [[a1|e1] u1], (m2 w2) as [[a2|e2] u2]; simpl in *;
    try contradiction.
  - exact (Hk a1 a2 V u1 u2 G).
  - now split.
Qed.

Lemma alike_try {A} (RA : A -> A -> Prop) (m1 m2 : M A)
    (h1 h2 : exn -> M A) :
  alike RA m1 m2 -> (forall e, alike RA (h1 e) (h2 e)) ->
  alike RA (try_except m1 h1) (try_except m2 h2).
Proof.
  intros Hm Hh w1 w2 H. destruct (Hm w1 w2 H) as [G V].
  unfold try_except, world_of, value_of in *.
  destruct (m1 w1) as [[a1|e1] u1], (m2 w2) as [[a2|e2] u2]; simpl in *;
    try contradiction.
  - now split.
  - subst e2. exact (Hh e1 u1 u2 G).
Qed.

Lemma alike_for_each {A} (f1 f2 : A -> M unit) (l : list A) :
  (forall a, alike eq (f1 a) (f2 a)) ->
  alike eq (for_each f1 l) (for_each f2 l).
Proof.
  intros Hf. induction l as [|a l IH]; simpl.
  - now apply alike_ret.
  - eapply alike_bind; [apply Hf|intros _ _ _; exact IH].
Qed.

Lemma alike_get_states : alike eq get_states get_states.
Proof. intros w1 w2 H. split; [exact H|apply H]. Qed.

Lemma alike_getitem id : alike eq (getitem id) (getitem id).
Proof.
  intros w1 w2 [S C]. unfold getitem, world_of, value_of. rewrite S.
  destruct (PyDict.get id (signal_states w2)); simpl; repeat split; assumption.
Qed.

Lemma alike_setitem id s : alike eq (setitem id s) (setitem id s).
Proof.
  intros w1 w2 [S C]. unfold setitem, world_of, value_of, agree; simpl.
  now rewrite S.
Qed.

Lemma alike_eq_value {A} (m1 m2 : M A) w1 w2 :
  alike eq m1 m2 -> agree w1 w2 -> value_of (m1 w1) = value_of (m2 w2).
Proof.
  intros Hm H. destruct (Hm w1 w2 H) as [_ V].
  destruct (value_of (m1 w1)), (value_of (m2 w2)); try contradiction;
    now subst.
Qed.

Section RedisIndependence.
Variables E1 E2 : Env.
Hypothesis same_clock : forall n, utcnow_at E1 n = utcnow_at E2 n.
Hypothesis same_override_duration :
  emergency_override_duration E1 = emergency_override_duration E2.
Hypothesis same_red_duration :
  default_red_duration E1 = default_red_duration E2.

Lemma alike_utcnow : alike eq (utcnow E1) (utcnow E2).
Proof.
  intros w1 w2 [S C]. unfold utcnow, world_of, value_of, agree; simpl.
  rewrite C, S. repeat split. apply same_clock.
Qed.

Lemma alike_update_redis id :
  alike eq (_update_redis_state E1 id) (_update_redis_state E2 id).
Proof.
  intros w1 w2 [S C]. rewrite !update_redis_run.
  unfold world_of, value_of, agree; simpl.
  rewrite !mirrored_states, !mirrored_clock, S, C. now repeat split.
Qed.

Lemma alike_log id ty d1 d2 :
  alike eq (_log_signal_event E1 id ty d1) (_log_signal_event E2 id ty d2).
Proof.
  intros w1 w2 [S C]. rewrite !log_event_run.
  unfold world_of, value_of, agree; simpl.
  rewrite !logged_states, !logged_clock, S, C. now repeat split.
Qed.

Lemma alike_schedule id start duration reason :
  alike whatever (_schedule_signal_override E1 id start duration reason)
    (_schedule_signal_override E2 id start duration reason).
Proof.
  intros w1 w2 [S C].
  unfold _schedule_signal_override, try_except, bind, redis_call, world_of,
    value_of, agree, whatever.
  destruct (redis_up E1 (redis_calls w1)), (redis_up E2 (redis_calls w2));
    simpl; now repeat split.
Qed.

Ltac same L := eapply alike_bind; [apply L|intros ? ? <-].

Lemma alike_create id :
  alike eq (_create_signal_if_not_exists E1 id)
    (_create_signal_if_not_exists E2 id).
Proof.
  unfold _create_signal_if_not_exists. rewrite same_red_duration.
  same alike_get_states.
  destruct (PyDict.mem id _); [now apply alike_ret|].
  same alike_utcnow. same alike_setitem. apply alike_update_redis.
Qed.

Lemma alike_override id duration reason :
  alike eq (emergency_override E1 id duration reason)
    (emergency_override E2 id duration reason).
Proof.
  unfold emergency_override. rewrite same_override_duration.
  apply alike_try; [|intros e; now apply alike_ret].
  same alike_create. same alike_getitem.
  eapply alike_bind with (RA := eq).
  { destruct (negb (is_emergency_override _)); [|now apply alike_ret].
    same alike_setitem. now apply alike_ret. }
  intros cur ? <-.
  same alike_utcnow. same alike_setitem. same alike_update_redis.
  same alike_log. same alike_utcnow. same alike_utcnow.
  same @alike_lift. same @alike_lift. now apply alike_ret.
Qed.

Lemma alike_restore id :
  alike eq (restore_normal_operation E1 id) (restore_normal_operation E2 id).
Proof.
  unfold restore_normal_operation. rewrite same_red_duration.
  apply alike_try; [|intros e; now apply alike_ret].
  same alike_get_states.
  destruct (negb (PyDict.mem id _)); [now apply alike_ret|].
  same alike_getitem.
  destruct (negb (is_emergency_override _)); [now apply alike_ret|].
  eapply alike_bind with (RA := eq).
  { destruct (normal_timing _).
    - same alike_utcnow. same alike_utcnow. same alike_setitem.
      now apply alike_ret.
    - same alike_utcnow. same alike_setitem. now apply alike_ret. }
  intros od ? <-.
  same alike_update_redis.
  eapply alike_bind with (RA := eq);
    [destruct od; [now apply alike_ret|apply alike_raise]|intros d ? <-].
  same alike_log. same alike_getitem. same alike_utcnow.
  now apply alike_ret.
Qed.

Lemma alike_update_timing id timing_config :
  alike eq (update_timing E1 id timing_config)
    (update_timing E2 id timing_config).
Proof.
  unfold update_timing.
  apply alike_try; [|intros e; now apply alike_ret].
  same alike_create.
  destruct (validate_fields required_fields timing_config);
    [now apply alike_ret|].
  same @alike_lift. same @alike_lift. same @alike_lift.
  same alike_getitem. same alike_setitem. same alike_update_redis.
  same alike_log. same alike_utcnow. now apply alike_ret.
Qed.

Lemma alike_transition id :
  alike eq (_transition_to_next_state E1 id)
    (_transition_to_next_state E2 id).
Proof.
  unfold _transition_to_next_state.
  apply alike_try; [|intros e; now apply alike_ret].
  same alike_getitem.
  eapply alike_bind with (RA := eq);
    [destruct (normal_timing _); [apply alike_lift|now apply alike_ret]
    |intros timing ? <-].
  same alike_utcnow. same alike_setitem. apply alike_update_redis.
Qed.

Lemma alike_build_plan start interval duration route :
  forall i,
    alike eq (build_plan E1 start interval duration i route)
      (build_plan E2 start interval duration i route).
Proof.
  induction route as [|id route IH]; intros i; simpl.
  - now apply alike_ret.
  - same alike_create. same @alike_lift. same @alike_lift.
    eapply alike_bind; [apply IH|intros plan ? <-]. now apply alike_ret.
Qed.

Lemma alike_execute_plan n plan :
  alike whatever (execute_plan E1 n plan) (execute_plan E2 n plan).
Proof.
  induction plan as [|p plan IH]; simpl.
  - now apply alike_ret.
  - eapply alike_bind with (RA := whatever).
    + destruct (delay_from_start p =? 0); [|apply alike_schedule].
      eapply alike_weaken; [apply alike_override|easy].
    + intros r1 r2 _.
      eapply alike_bind; [exact IH|intros ? ? _; now apply alike_ret].
Qed.

Lemma alike_coordinate route duration :
  alike whatever (coordinate_green_corridor E1 route duration)
    (coordinate_green_corridor E2 route duration).
Proof.
  unfold coordinate_green_corridor.
  apply alike_try; [|intros e; now apply alike_ret].
  destruct route as [|id route]; [now apply alike_ret|].
  same alike_utcnow.
  eapply alike_bind; [apply alike_build_plan|intros plan ? <-].
  eapply alike_bind; [apply alike_execute_plan|intros r1 r2 _].
  same alike_log. same @alike_lift. same @alike_lift. now apply alike_ret.
Qed.

Lemma alike_monitor_step now item :
  alike eq (monitor_step E1 now item) (monitor_step E2 now item).
Proof.
  unfold monitor_step.
  destruct (seconds_geb _ _); [|now apply alike_ret].
  destruct (is_emergency_override _); [|apply alike_transition].
  same alike_restore. now apply alike_ret.
Qed.

Lemma alike_monitor_iteration :
  alike eq (monitor_iteration E1) (monitor_iteration E2).
Proof.
  unfold monitor_iteration.
  apply alike_try; [|intros e; now apply alike_ret].
  same alike_utcnow. same alike_get_states.
  apply alike_for_each. intros item. apply alike_monitor_step.
Qed.

Lemma alike_tick id now : alike eq (tick E1 id now) (tick E2 id now).
Proof.
  unfold tick. same alike_get_states.
  destruct (PyDict.get id _); [apply alike_monitor_step|now apply alike_ret].
Qed.

Lemma agree_run_op op w1 w2 :
  agree w1 w2 -> agree (run_op E1 op w1) (run_op E2 op w2).
Proof.
  intros H. destruct op; simpl.
  - now apply alike_create.
  - now apply alike_override.
  - now apply alike_restore.
  - now apply alike_update_timing.
  - now apply alike_coordinate.
  - now apply alike_transition.
  - now apply alike_tick.
  - now apply alike_monitor_iteration.
Qed.

Lemma agree_run_ops ops :
  forall w1 w2, agree w1 w2 -> agree (run_ops E1 ops w1) (run_ops E2 ops w2).
Proof.
  induction ops as [|op ops IH]; intros w1 w2 H; simpl; [exact H|].
  apply IH. now apply agree_run_op.
Qed.
End RedisIndependence.

(** X17.  What Redis does never changes what the signals do.  Two
    controllers with the same clock and the same settings, given the same
    calls, hold the same signal records after them whatever their Redis
    servers accept or refuse, and reply the same to the next override,
    restoration or timing update. *)
Theorem redis_outage_changes_no_signal E1 E2 ops :
  (forall n, utcnow_at E1 n = utcnow_at E2 n) ->
  emergency_override_duration E1 = emergency_override_duration E2 ->
  default_red_duration E1 = default_red_duration E2 ->
  let w1 := run_ops E1 ops empty_world in
  let w2 := run_ops E2 ops empty_world in
  signal_states w1 = signal_states w2
  /\ (forall id duration reason,
         value_of (emergency_override E1 id duration reason w1)
         = value_of (emergency_override E2 id duration reason w2))
  /\ (forall id,
         value_of (restore_normal_operation E1 id w1)
         = value_of (restore_normal_operation E2 id w2))
  /\ (forall id timing_config,
         value_of (update_timing E1 id timing_config w1)
         = value_of (update_timing E2 id timing_config w2)).
Proof.
  intros C O R w1 w2.
  assert (agree w1 w2) as H.
  { apply (agree_run_ops E1 E2 C O R). now split. }
  split; [apply H|]. repeat split; intros.
  - apply alike_eq_value; [now apply alike_override|exact H].
  - apply alike_eq_value; [now apply alike_restore|exact H].
  - apply alike_eq_value; [now apply alike_update_timing|exact H].
Qed.

Lemma redis_outage_changes_no_signal_witness :
  let ops := [OpOverride "clock_tower" (Some 60) "ambulance";
              OpCoordinate ["ballupur"; "clock_tower"] 60;
              OpMonitor] in
  (forall n, utcnow_at sample_env n = utcnow_at offline_env n)
  /\ signal_states (run_ops sample_env ops empty_world)
     = signal_states (run_ops offline_env ops empty_world).
Proof.
  intros ops. split; [reflexivity|].
  apply (redis_outage_changes_no_signal sample_env offline_env ops);
    reflexivity.
Defined.
